(** * Tuning Fork histograms and the Swappy entry points, verified

    A shallow embedding of
    - [src/tuningfork/histogram.cpp] (class [tuningfork::Histogram]),
    - [SwappyVk::QueuePresent] of [games-frame-pacing/vulkan/SwappyVk.cpp],
    - [SwappyGL::swap] of [games-frame-pacing/opengl/SwappyGL.cpp],
    and the properties of these functions that the specification states.

    Conventions.  A C++ [double] is a primitive binary64 float; an [int] is
    a [Z] in the range of a 32-bit two's complement integer; a [uint32_t]
    is a [Z] kept below [2^32] by an explicit [mod].  A [std::vector] is a
    [list], read with [!!] and written with [<[ _ := _ ]>].  An execution
    that C++ leaves undefined (an index outside a vector, a signed overflow,
    a conversion of a double that does not fit an [int], a call through a
    null pointer) is [None]. *)

From Stdlib Require Import ZArith Lia Ascii String Uint63.
From Stdlib Require Import Floats.PrimFloat Floats.FloatOps Floats.SpecFloat.
From Stdlib Require Floats.FloatAxioms.
From stdpp Require Import base option list gmap strings pretty.

#[local] Open Scope Z_scope.
#[local] Set Warnings "-inexact-float".

(** ** Machine arithmetic of the C++ sources *)

Module Cxx.

Definition INT_MAX : Z := 2147483647.
Definition INT_MIN : Z := -2147483648.

Definition in_int (z : Z) : bool := (INT_MIN <=? z) && (z <=? INT_MAX).

(** [a + b] on [int]: undefined when the sum leaves the type. *)
Definition int_add (a b : Z) : option Z :=
  if in_int (a + b) then Some (a + b) else None.

(** Arithmetic on [uint32_t] wraps around. *)
Definition u32 (z : Z) : Z := z mod 2 ^ 32.

(** Conversion of an integer to [double] (round to nearest), as in
    [sum / n] or [x / (num_buckets_ - 2)]. *)
Definition double_of_Z (z : Z) : float :=
  if z <? 0 then PrimFloat.opp (PrimFloat.of_uint63 (Uint63.of_Z (- z)))
  else PrimFloat.of_uint63 (Uint63.of_Z z).

(** The integral part of a finite double, rounded toward zero. *)
Definition trunc_SF (x : spec_float) : option Z :=
  match x with
  | S754_zero _ => Some 0
  | S754_finite s m e =>
      let a := if 0 <=? e then Z.pos m * 2 ^ e else Z.pos m / 2 ^ (- e) in
      Some (if s then - a else a)
  | S754_infinity _ | S754_nan => None
  end.

(** [int i = x;] for a double [x]: the fractional part is discarded; the
    conversion is undefined when the truncated value does not fit [int]
    (and for infinities and NaN). *)
Definition int_of_double (x : float) : option Z :=
  match trunc_SF (Prim2SF x) with
  | Some z => if in_int z then Some z else None
  | None => None
  end.

(** [std::max(a, b)] is [(a < b) ? b : a]. *)
Definition std_max (a b : float) : float :=
  if PrimFloat.ltb a b then b else a.

(** [std::numeric_limits<double>::max()] and [::min()]. *)
Definition DBL_MAX : float := 0x1.fffffffffffffp+1023%float.
Definition DBL_MIN : float := 0x1p-1022%float.

(** *** Output of numbers on a [std::stringstream] *)

(** [2 * r] against [d]: round the quotient [q] of a division by [d] with
    remainder [r] to nearest, ties to even. *)
Definition round_nearest_even (q r d : Z) : Z :=
  if 2 * r <? d then q
  else if d <? 2 * r then q + 1
  else if Z.even q then q else q + 1.

(** The magnitude [m * 2^e] in hundredths, correctly rounded. *)
Definition hundredths (m : positive) (e : Z) : Z :=
  if 0 <=? e then 100 * Z.pos m * 2 ^ e
  else let d := 2 ^ (- e) in
       round_nearest_even ((100 * Z.pos m) / d) ((100 * Z.pos m) mod d) d.

Definition sign_str (s : bool) : string := if s then "-" else EmptyString.

Definition two_digits (z : Z) : string :=
  pretty (z / 10) +:+ pretty (z mod 10).

(** [str << x] for a double after [str.precision(2); str << std::fixed].
    A NaN is written as [nan], after a minus sign when the C library writes
    the sign of a NaN and the sign bit of [x] is set.  The doubles of this
    model have one NaN: [nan_minus] tells whether that sign is written. *)
Definition show_fixed2 (nan_minus : bool) (x : float) : string :=
  match Prim2SF x with
  | S754_nan => sign_str nan_minus +:+ "nan"
  | S754_infinity s => sign_str s +:+ "inf"
  | S754_zero s => sign_str s +:+ "0.00"
  | S754_finite s m e =>
      let c := hundredths m e in
      sign_str s +:+ pretty (c / 100) +:+ "." +:+ two_digits (c mod 100)
  end.

(** [str << n] for a [uint32_t]. *)
Definition show_u32 (n : Z) : string := pretty n.

(** The double-quote character of the JSON text. *)
Definition dquote : string := String (ascii_of_nat 34) EmptyString.

End Cxx.

Import Cxx.

(** ** [tuningfork::Histogram] (histogram.cpp) *)

Module Histogram.

(** [typedef double Sample]: the sources mix samples with the literals
    [0.0] in [std::max] and [std::fill]. *)
Definition Sample : Type := float.

Inductive Mode : Type := HISTOGRAM | AUTO_RANGE | EVENTS_ONLY.

#[global] Instance Mode_eq_dec : EqDecision Mode.
Proof. solve_decision. Defined.

Inductive TFErrorCode : Type := TFERROR_OK | TFERROR_BAD_PARAMETER.

(** The constants of [histogram.h], which is not among the sources: they
    are parameters of the development.  The default number of buckets is
    an [int] and at least 2, so that [num_buckets_ - 2] is the same number
    whether [num_buckets_] is declared signed or unsigned. *)
Class Constants : Type := {
  kDefaultNumBuckets : Z;
  kAutoSizeNumStdDev : Sample;
  kAutoSizeMinBucketSizeMs : Sample;
  kDefaultNumBuckets_range : 2 <= kDefaultNumBuckets <= INT_MAX
}.

(** The data members, in the order of the constructor's initialiser list.
    [samples_capacity] is [samples_.capacity()].  [count_] counts the
    samples added and is not bounded here; a bucket is a [uint32_t]. *)
Record t : Type := mk {
  mode_ : Mode;
  start_ms_ : Sample;
  end_ms_ : Sample;
  bucket_dt_ms_ : Sample;
  num_buckets_ : Z;
  buckets_ : list Z;
  samples_ : list Sample;
  samples_capacity : nat;
  count_ : Z;
  next_event_index_ : nat
}.

Definition set_buckets (h : t) (bs : list Z) : t :=
  mk (mode_ h) (start_ms_ h) (end_ms_ h) (bucket_dt_ms_ h) (num_buckets_ h)
     bs (samples_ h) (samples_capacity h) (count_ h) (next_event_index_ h).

Definition set_count (h : t) (c : Z) : t :=
  mk (mode_ h) (start_ms_ h) (end_ms_ h) (bucket_dt_ms_ h) (num_buckets_ h)
     (buckets_ h) (samples_ h) (samples_capacity h) c (next_event_index_ h).

Definition set_samples (h : t) (ss : list Sample) (cap : nat) : t :=
  mk (mode_ h) (start_ms_ h) (end_ms_ h) (bucket_dt_ms_ h) (num_buckets_ h)
     (buckets_ h) ss cap (count_ h) (next_event_index_ h).

Definition set_next_event_index (h : t) (i : nat) : t :=
  mk (mode_ h) (start_ms_ h) (end_ms_ h) (bucket_dt_ms_ h) (num_buckets_ h)
     (buckets_ h) (samples_ h) (samples_capacity h) (count_ h) i.

Definition set_range (h : t) (m : Mode) (s e dt : Sample) : t :=
  mk m s e dt (num_buckets_ h)
     (buckets_ h) (samples_ h) (samples_capacity h) (count_ h)
     (next_event_index_ h).

(** *** The constructor *)

(** The divisor of the bucket width:
    [num_buckets_between<=0 ? 1 : num_buckets_between]. *)
Definition ctor_divisor (num_buckets_between : Z) : Z :=
  if num_buckets_between <=? 0 then 1 else num_buckets_between.

Definition ctor_mode (start_ms end_ms : float) (never_bucket : bool) : Mode :=
  if never_bucket then EVENTS_ONLY
  else if PrimFloat.eqb start_ms 0 && PrimFloat.eqb end_ms 0 then AUTO_RANGE
  else HISTOGRAM.

(** [Histogram(float start_ms, float end_ms, int num_buckets_between,
    bool never_bucket)].  The two bounds are C [float]s, widened exactly to
    [Sample].  [num_buckets_between + 2] is an [int] addition.
    [buckets_(num_buckets_)] holds zeros; [samples_] is empty with room for
    [num_buckets_] samples in AUTO_RANGE mode ([reserve]) and holds
    [num_buckets_] zeros in EVENTS_ONLY mode ([resize]). *)
Definition Histogram {C : Constants} (start_ms end_ms : float)
    (num_buckets_between : Z) (never_bucket : bool) : option t :=
  let mode := ctor_mode start_ms end_ms never_bucket in
  let bucket_dt :=
    ((end_ms - start_ms) / double_of_Z (ctor_divisor num_buckets_between))%float in
  num_buckets ←
    (if num_buckets_between <=? 0 then Some kDefaultNumBuckets
     else int_add num_buckets_between 2);
  let n := Z.to_nat num_buckets in
  Some (mk mode start_ms end_ms bucket_dt num_buckets
          (replicate n 0)
          (match mode with
           | EVENTS_ONLY => replicate n 0%float
           | _ => []
           end)
          (match mode with
           | HISTOGRAM => 0%nat
           | _ => n
           end)
          0 0%nat).

(** *** [Add] *)

(** [buckets_[k]++] *)
Definition incr_bucket (bs : list Z) (k : Z) : option (list Z) :=
  if k <? 0 then None
  else b ← bs !! Z.to_nat k; Some (<[Z.to_nat k := u32 (b + 1)]> bs).

(** The bucket that the HISTOGRAM case of [Add] increments. *)
Definition bucket_of (h : t) (dt_ms : Sample) : option Z :=
  i ← int_of_double ((dt_ms - start_ms_ h) / bucket_dt_ms_ h)%float;
  if i <? 0 then Some 0
  else
    i1 ← int_add i 1;
    if num_buckets_ h <=? i1 then Some (num_buckets_ h - 1) else Some i1.

(** The growth of a full vector on [push_back] (libc++: twice the
    capacity, at least the new size). *)
Definition push_back_capacity (len cap : nat) : nat :=
  if (len <? cap)%nat then cap else Nat.max (2 * cap) (S len).

(** One pass of the statistics loop of [CalcBucketsFromSamples]:
    [(min_dt, max_dt, sum, sum2)]. *)
Definition stats_step (a : Sample * Sample * Sample * Sample) (d : Sample)
  : Sample * Sample * Sample * Sample :=
  let '(min_dt, max_dt, sum, sum2) := a in
  (if PrimFloat.ltb d min_dt then d else min_dt,
   if PrimFloat.ltb max_dt d then d else max_dt,
   (sum + d)%float,
   (sum2 + d * d)%float).

Definition stats (ds : list Sample) : Sample * Sample * Sample * Sample :=
  foldl stats_step (DBL_MAX, DBL_MIN, 0%float, 0%float) ds.

Definition batch_mean (ds : list Sample) : Sample :=
  let '(_, _, sum, _) := stats ds in
  (sum / double_of_Z (Z.of_nat (length ds)))%float.

Definition batch_stddev (ds : list Sample) : Sample :=
  let '(_, _, _, sum2) := stats ds in
  let mean := batch_mean ds in
  let var := (sum2 / double_of_Z (Z.of_nat (length ds)) - mean * mean)%float in
  let var := if PrimFloat.ltb var 0 then 0%float else var in
  PrimFloat.sqrt var.

(** [for (Sample d: samples_) Add(d);] *)
Fixpoint replay (add : t → Sample → option t) (h : t) (ds : list Sample)
  : option t :=
  match ds with
  | [] => Some h
  | d :: ds => h' ← add h d; replay add h' ds
  end.

Section Add.
Context {C : Constants}.

(** The range that [CalcBucketsFromSamples] derives: [(start, end, width)]. *)
Definition auto_range (h : t) : Sample * Sample * Sample :=
  let mean := batch_mean (samples_ h) in
  let stddev := batch_stddev (samples_ h) in
  let start_ms := std_max (mean - kAutoSizeNumStdDev * stddev)%float 0%float in
  let end_ms := (mean + kAutoSizeNumStdDev * stddev)%float in
  let bucket_dt :=
    ((end_ms - start_ms) / double_of_Z (num_buckets_ h - 2))%float in
  if PrimFloat.ltb bucket_dt kAutoSizeMinBucketSizeMs then
    let bucket_dt := kAutoSizeMinBucketSizeMs in
    let w := (bucket_dt * double_of_Z (num_buckets_ h - 2))%float in
    ((mean - w / 2)%float, (mean + w / 2)%float, bucket_dt)
  else (start_ms, end_ms, bucket_dt).

(** [CalcBucketsFromSamples], with the [Add] that its last loop calls as
    a parameter. *)
Definition CalcBucketsFromSamples_with (add : t → Sample → option t) (h : t)
  : option t :=
  match mode_ h with
  | AUTO_RANGE =>
      let '(start_ms, end_ms, bucket_dt) := auto_range h in
      let h := set_range h HISTOGRAM start_ms end_ms bucket_dt in
      let h := set_count h 0 in
      replay add h (samples_ h)
  | _ => Some h
  end.

(** [Add], with the [Add] that [CalcBucketsFromSamples] calls as a
    parameter. *)
Definition Add_with (add : t → Sample → option t) (h : t) (dt_ms : Sample)
  : option t :=
  h' ← match mode_ h with
       | HISTOGRAM =>
           k ← bucket_of h dt_ms;
           bs ← incr_bucket (buckets_ h) k;
           Some (set_buckets h bs)
       | AUTO_RANGE =>
           let h :=
             set_samples h (samples_ h ++ [dt_ms])
               (push_back_capacity (length (samples_ h)) (samples_capacity h)) in
           if (length (samples_ h) =? samples_capacity h)%nat
           then CalcBucketsFromSamples_with add h
           else Some h
       | EVENTS_ONLY =>
           let i := next_event_index_ h in
           _ ← samples_ h !! i;
           let h := set_samples h (<[i := dt_ms]> (samples_ h))
                      (samples_capacity h) in
           Some (set_next_event_index h
                   (if (length (samples_ h) <=? S i)%nat then 0%nat else S i))
       end;
  Some (set_count h' (count_ h' + 1)).

(** The calls nest twice at most: [CalcBucketsFromSamples] has set
    [mode_] to HISTOGRAM before it calls [Add], and the HISTOGRAM case
    calls nothing. *)
Definition Add_nested : t → Sample → option t :=
  Add_with (λ _ _, None).

Definition CalcBucketsFromSamples : t → option t :=
  CalcBucketsFromSamples_with Add_nested.

Definition Add : t → Sample → option t :=
  Add_with Add_nested.

(** A sequence of [Add] calls. *)
Definition Adds : t → list Sample → option t := replay Add.

End Add.

(** *** [Clear] and [AddCounts] *)

Definition Clear (h : t) : t :=
  let h := set_buckets h (replicate (length (buckets_ h)) 0) in
  let h :=
    match mode_ h with
    | EVENTS_ONLY =>
        set_next_event_index
          (set_samples h (replicate (length (samples_ h)) 0%float)
             (samples_capacity h)) 0%nat
    | _ => set_samples h [] (samples_capacity h)
    end in
  set_count h 0.

Definition AddCounts (h : t) (counts : list Z) : TFErrorCode * t :=
  if decide (length counts ≠ length (buckets_ h)) then (TFERROR_BAD_PARAMETER, h)
  else (TFERROR_OK,
        set_buckets h (zip_with (λ c_orig c, u32 (c_orig + c)) (buckets_ h) counts)).

(** *** [ToDebugJSON] *)

(** In both loops [nan_minus i] tells whether the double written in round
    [i], when it is a NaN, is written with a minus sign. *)

(** The loop over [samples_] with its [first] flag, from round [i] on. *)
Fixpoint events_loop (nan_minus : nat → bool) (i : nat) (first : bool)
    (ss : list Sample) : string :=
  match ss with
  | [] => EmptyString
  | x :: ss =>
      (if first then EmptyString else ",") +:+ show_fixed2 (nan_minus i) x
        +:+ events_loop nan_minus (S i) false ss
  end.

(** [n] rounds of [str << x << ","; x += bucket_dt_ms_;] from round [i]
    on. *)
Fixpoint pmax_loop (nan_minus : nat → bool) (i n : nat) (x dt : Sample)
  : string :=
  match n with
  | O => EmptyString
  | S n =>
      show_fixed2 (nan_minus i) x +:+ ","
        +:+ pmax_loop nan_minus (S i) n (x + dt)%float dt
  end.

(** [n] rounds of [str << buckets_[i] << ",";] from index [i] on. *)
Fixpoint cnts_loop (bs : list Z) (i n : nat) : option string :=
  match n with
  | O => Some EmptyString
  | S n =>
      b ← bs !! i;
      rest ← cnts_loop bs (S i) n;
      Some (show_u32 b +:+ "," +:+ rest)
  end.

Definition ToDebugJSON (nan_minus : nat → bool) (h : t) : option string :=
  if decide (mode_ h ≠ HISTOGRAM) then
    Some ("{" +:+ dquote +:+ "events" +:+ dquote +:+ ":["
            +:+ events_loop nan_minus 0 true (samples_ h) +:+ "]}")
  else
    let n := Z.to_nat (num_buckets_ h - 1) in
    cnts ← cnts_loop (buckets_ h) 0 n;
    back ← (if 0 <? num_buckets_ h
            then show_u32 <$> last (buckets_ h)
            else Some EmptyString);
    Some ("{" +:+ dquote +:+ "pmax" +:+ dquote +:+ ":["
            +:+ pmax_loop nan_minus 0 n (start_ms_ h) (bucket_dt_ms_ h)
            +:+ "99999]," +:+ dquote +:+ "cnts" +:+ dquote +:+ ":["
            +:+ cnts +:+ back +:+ "]}").

(** *** The class invariant *)

(** What the constructor establishes and every member function keeps:
    there are at least the two catch-all buckets; [buckets_] has
    [num_buckets_] entries; the ring of EVENTS_ONLY mode has [num_buckets_]
    entries and the cursor is inside it; the buffer of AUTO_RANGE mode is
    not full. *)
Record wf (h : t) : Prop := mk_wf {
  wf_num_buckets : 2 <= num_buckets_ h <= INT_MAX;
  wf_buckets : length (buckets_ h) = Z.to_nat (num_buckets_ h);
  wf_events :
    mode_ h = EVENTS_ONLY →
    length (samples_ h) = Z.to_nat (num_buckets_ h) ∧
    (next_event_index_ h < length (samples_ h))%nat;
  wf_auto :
    mode_ h = AUTO_RANGE →
    (length (samples_ h) < samples_capacity h)%nat
}.

(** The sum of the bucket counts. *)
Definition sum_buckets (bs : list Z) : Z := foldr Z.add 0 bs.

(** The states that a histogram [h0] reaches through its member
    functions. *)
Inductive reachable {C : Constants} (h0 : t) : t → Prop :=
| reach_init : reachable h0 h0
| reach_Add h d h' : reachable h0 h → Add h d = Some h' → reachable h0 h'
| reach_Clear h : reachable h0 h → reachable h0 (Clear h)
| reach_AddCounts h cs : reachable h0 h → reachable h0 (AddCounts h cs).2.

(** *** [operator==] *)

(** [operator==] of two [std::vector]s: the same size and equal elements,
    compared with the [==] of the element type. *)
Fixpoint vector_eq {A : Type} (eqb : A → A → bool) (u v : list A) : bool :=
  match u, v with
  | [], [] => true
  | x :: u, y :: v => eqb x y && vector_eq eqb u v
  | _, _ => false
  end.

(** [buckets_==h.buckets_ && samples_==h.samples_] *)
Definition operator_eq (h1 h2 : t) : bool :=
  vector_eq Z.eqb (buckets_ h1) (buckets_ h2)
  && vector_eq PrimFloat.eqb (samples_ h1) (samples_ h2).

End Histogram.

(** ** [SwappyVk::QueuePresent] (SwappyVk.cpp) *)

Module SwappyVk.

(** [VkResult] codes of the Vulkan headers. *)
Definition VkResult : Type := Z.
Definition VK_SUCCESS : VkResult := 0.
Definition VK_INCOMPLETE : VkResult := 5.
Definition VK_ERROR_DEVICE_LOST : VkResult := -4.

(** Vulkan handles are opaque numbers. *)
Definition VkDevice : Type := Z.
Definition VkQueue : Type := Z.
Definition VkSwapchainKHR : Type := Z.

Record QueueFamilyIndex : Type := mkQueueFamilyIndex {
  device : VkDevice;
  queueFamilyIndex : Z
}.

(** The fields of [VkPresentInfoKHR] that [QueuePresent] reads;
    [pSwapchains] is [None] for a null pointer. *)
Record VkPresentInfoKHR : Type := mkPresentInfo {
  swapchainCount : Z;
  pSwapchains : option (list VkSwapchainKHR)
}.

Section Implementation.

(** The per-swapchain implementation ([SwappyVkBase] and its derived
    classes) is outside the sources: its state and its [doQueuePresent]
    and [getDevice] are parameters. *)
Context {Impl : Type}.
Variable doQueuePresent :
  Impl → VkQueue → Z → VkPresentInfoKHR → VkResult * Impl.
Variable getDevice : Impl → VkDevice.

(** The two maps of the singleton.  A [std::shared_ptr<SwappyVkBase>] is
    [None] when null. *)
Record t : Type := mk {
  perQueueFamilyIndex : gmap VkQueue QueueFamilyIndex;
  perSwapchainImplementation : gmap VkSwapchainKHR (option Impl)
}.

(** [perSwapchainImplementation[swapchain]]: [std::map::operator[]] adds
    a value-initialised (null) entry for a key that the map does not hold,
    and yields a reference to the entry. *)
Definition index_swapchain (m : gmap VkSwapchainKHR (option Impl))
    (swapchain : VkSwapchainKHR)
  : option Impl * gmap VkSwapchainKHR (option Impl) :=
  match m !! swapchain with
  | Some p => (p, m)
  | None => (None, <[swapchain := None]> m)
  end.

Definition SetQueueFamilyIndex (s : t) (dev : VkDevice) (queue : VkQueue)
    (index : Z) : t :=
  mk (<[queue := mkQueueFamilyIndex dev index]> (perQueueFamilyIndex s))
     (perSwapchainImplementation s).

(** [QueuePresent]: the result code and the state after the call.
    [*pPresentInfo->pSwapchains] reads the first handle of the array. *)
Definition QueuePresent (s : t) (queue : VkQueue)
    (pPresentInfo : VkPresentInfoKHR) : option (VkResult * t) :=
  match perQueueFamilyIndex s !! queue with
  | None => Some (VK_INCOMPLETE, s)
  | Some qfi =>
      if swapchainCount pPresentInfo =? 0
      then Some (VK_ERROR_DEVICE_LOST, s)
      else
        match pSwapchains pPresentInfo with
        | None => Some (VK_ERROR_DEVICE_LOST, s)
        | Some swapchains =>
            swapchain ← head swapchains;
            let '(pImplementation, m) :=
              index_swapchain (perSwapchainImplementation s) swapchain in
            match pImplementation with
            | Some impl =>
                let '(r, impl') :=
                  doQueuePresent impl queue (queueFamilyIndex qfi)
                    pPresentInfo in
                Some (r, mk (perQueueFamilyIndex s)
                           (<[swapchain := Some impl']> m))
            | None =>
                Some (VK_ERROR_DEVICE_LOST, mk (perQueueFamilyIndex s) m)
            end
        end
  end.

(** The first loop of [DestroyDevice] calls [it->second->getDevice()] on
    every entry of the swapchain map: a null entry is a call through a
    null pointer. *)
Definition erase_swapchains_of (m : gmap VkSwapchainKHR (option Impl))
    (dev : VkDevice) : option (gmap VkSwapchainKHR (option Impl)) :=
  map_fold
    (λ swapchain p acc,
       acc ← acc;
       impl ← p;
       Some (if getDevice impl =? dev then delete swapchain acc else acc))
    (Some m) m.

Definition DestroyDevice (s : t) (dev : VkDevice) : option t :=
  m ← erase_swapchains_of (perSwapchainImplementation s) dev;
  Some (mk (filter (λ kv, device kv.2 ≠ dev) (perQueueFamilyIndex s)) m).

End Implementation.

Arguments t : clear implicits.

(** ** The other member functions *)

Definition VkPhysicalDevice : Type := Z.

(** A [SwappyTracer] holds six callbacks and [userData], all pointers. *)
Record SwappyTracer : Type := mkSwappyTracer {
  preWait : Z;
  postWait : Z;
  preSwapBuffers : Z;
  postSwapBuffers : Z;
  startFrame : Z;
  userData : Z;
  swapIntervalChanged : Z
}.

(** The [operator==] on tracers that the file defines. *)
Definition tracer_eq (t1 t2 : SwappyTracer) : bool :=
  (preWait t1 =? preWait t2) && (postWait t1 =? postWait t2)
  && (preSwapBuffers t1 =? preSwapBuffers t2)
  && (postSwapBuffers t1 =? postSwapBuffers t2)
  && (startFrame t1 =? startFrame t2) && (userData t1 =? userData t2)
  && (swapIntervalChanged t1 =? swapIntervalChanged t2).

Definition VK_GOOGLE_DISPLAY_TIMING_EXTENSION_NAME : string :=
  "VK_GOOGLE_display_timing".

(** The first loop of [swappyVkDetermineDeviceExtensions], from index [i]
    for [n] more rounds.  [pAvailableExtensions] holds the
    [extensionName] of every array element, [count] is
    [*pRequiredExtensionCount] ([None] for a null pointer, which the loop
    dereferences at a match only).  Reading past the array is [None]. *)
Fixpoint count_loop (pAvailableExtensions : list string) (i n : nat)
    (count : option Z) : option (option Z) :=
  match n with
  | O => Some count
  | S n =>
      name ← pAvailableExtensions !! i;
      if String.eqb VK_GOOGLE_DISPLAY_TIMING_EXTENSION_NAME name then
        c ← count;
        count_loop pAvailableExtensions (S i) n (Some (Cxx.u32 (c + 1)))
      else count_loop pAvailableExtensions (S i) n count
  end.

(** The second loop: [j] is the next free entry of [pRequiredExtensions],
    whose buffers are a list of strings; [strcpy] into a buffer that the
    array does not have is [None].  [flag] is the value of
    [doesPhysicalDeviceHaveGoogleDisplayTiming[physicalDevice]]. *)
Fixpoint fill_loop (pAvailableExtensions : list string) (i n j : nat)
    (count : option Z) (pRequiredExtensions : list string) (flag : bool)
  : option (list string * bool) :=
  match n with
  | O => Some (pRequiredExtensions, flag)
  | S n =>
      name ← pAvailableExtensions !! i;
      if String.eqb VK_GOOGLE_DISPLAY_TIMING_EXTENSION_NAME name then
        c ← count;
        if Z.of_nat j <? c then
          _ ← pRequiredExtensions !! j;
          fill_loop pAvailableExtensions (S i) n (S j) count
            (<[j := VK_GOOGLE_DISPLAY_TIMING_EXTENSION_NAME]>
               pRequiredExtensions) true
        else
          fill_loop pAvailableExtensions (S i) n j count pRequiredExtensions
            flag
      else
        fill_loop pAvailableExtensions (S i) n j count pRequiredExtensions flag
  end.

Section Members.

(** More of the per-swapchain implementation, and the function provider,
    as parameters: the calls that the member functions below make into
    them.  [isEnabled] and [getSwapInterval] are accessors. *)
Context {Impl Provider : Type}.
Variable doSetWindow : Impl → Z → Impl.
Variable doSetSwapInterval : Impl → VkSwapchainKHR → Z → Impl.
Variable isEnabled : Impl → bool.
Variable getSwapInterval : Impl → Z.
Variable base_addTracer : Impl → SwappyTracer → Impl.
Variable base_removeTracer : Impl → SwappyTracer → Impl.
Variable doGetRefreshCycleDuration :
  Impl → VkSwapchainKHR → (bool * Z) * Impl.
Variable SwappyVkGoogleDisplayTiming :
  Z → Z → VkPhysicalDevice → VkDevice → Provider → Impl.
Variable SwappyVkFallback :
  Z → Z → VkPhysicalDevice → VkDevice → Provider → Impl.
Variable provider_init : Provider → bool.
Variable c_provider : Provider.

Definition SetWindow (s : t Impl) (dev : VkDevice)
    (swapchain : VkSwapchainKHR) (window : Z) : t Impl :=
  let '(pImplementation, m) :=
    index_swapchain (perSwapchainImplementation s) swapchain in
  match pImplementation with
  | None => mk (perQueueFamilyIndex s) m
  | Some impl =>
      mk (perQueueFamilyIndex s)
         (<[swapchain := Some (doSetWindow impl window)]> m)
  end.

Definition SetSwapDuration (s : t Impl) (dev : VkDevice)
    (swapchain : VkSwapchainKHR) (swapNs : Z) : t Impl :=
  let '(pImplementation, m) :=
    index_swapchain (perSwapchainImplementation s) swapchain in
  match pImplementation with
  | None => mk (perQueueFamilyIndex s) m
  | Some impl =>
      mk (perQueueFamilyIndex s)
         (<[swapchain := Some (doSetSwapInterval impl swapchain swapNs)]> m)
  end.

(** [IsEnabled]: [pIsEnabled] is [*isEnabled], [None] for a null pointer;
    the result, [*isEnabled] after the call, and the state. *)
Definition IsEnabled (s : t Impl) (swapchain : VkSwapchainKHR)
    (pIsEnabled : option bool) : bool * option bool * t Impl :=
  let '(pImplementation, m) :=
    index_swapchain (perSwapchainImplementation s) swapchain in
  match pImplementation, pIsEnabled with
  | Some impl, Some _ =>
      (true, Some (isEnabled impl), mk (perQueueFamilyIndex s) m)
  | _, _ => (false, pIsEnabled, mk (perQueueFamilyIndex s) m)
  end.

Definition DestroySwapchain (s : t Impl) (dev : VkDevice)
    (swapchain : VkSwapchainKHR) : t Impl :=
  match perSwapchainImplementation s !! swapchain with
  | None => s
  | Some _ =>
      mk (perQueueFamilyIndex s)
         (delete swapchain (perSwapchainImplementation s))
  end.

(** [GetSwapInterval] looks the swapchain up with [find] and calls
    through the entry it finds. *)
Definition GetSwapInterval (s : t Impl) (swapchain : VkSwapchainKHR)
  : option Z :=
  match perSwapchainImplementation s !! swapchain with
  | Some p => impl ← p; Some (getSwapInterval impl)
  | None => Some 0
  end.

(** The loops [for (auto i : perSwapchainImplementation) i.second->f(..)]:
    [f] on every implementation; a null entry is a call through a null
    pointer. *)
Definition for_each_implementation (f : Impl → Impl)
    (m : gmap VkSwapchainKHR (option Impl))
  : option (gmap VkSwapchainKHR (option Impl)) :=
  map_fold
    (λ swapchain p acc,
       acc ← acc;
       impl ← p;
       Some (<[swapchain := Some (f impl)]> acc))
    (Some m) m.

(** The class with its other members: the cache that
    [swappyVkDetermineDeviceExtensions] fills, the tracers and the function
    provider ([None] when null). *)
Record instance : Type := mkInstance {
  maps : t Impl;
  doesPhysicalDeviceHaveGoogleDisplayTiming : gmap VkPhysicalDevice bool;
  tracer_list : list SwappyTracer;
  pFunctionProvider : option Provider
}.

Definition set_maps (s : instance) (m : t Impl) : instance :=
  mkInstance m (doesPhysicalDeviceHaveGoogleDisplayTiming s) (tracer_list s)
    (pFunctionProvider s).

(** [swappyVkDetermineDeviceExtensions] (the branch for NDK 15 and
    later): [*pRequiredExtensionCount] and the buffers of
    [pRequiredExtensions] after the call, and the state.
    [pRequiredExtensions] is [None] for a null pointer. *)
Definition swappyVkDetermineDeviceExtensions (s : instance)
    (physicalDevice : VkPhysicalDevice) (availableExtensionCount : Z)
    (pAvailableExtensions : list string) (pRequiredExtensionCount : option Z)
    (pRequiredExtensions : option (list string))
  : option (option Z * option (list string) * instance) :=
  match pRequiredExtensions with
  | None =>
      count ← count_loop pAvailableExtensions 0
                (Z.to_nat availableExtensionCount) pRequiredExtensionCount;
      Some (count, None, s)
  | Some required =>
      '(required', flag) ←
        fill_loop pAvailableExtensions 0 (Z.to_nat availableExtensionCount) 0
          pRequiredExtensionCount required false;
      Some (pRequiredExtensionCount, Some required',
            mkInstance (maps s)
              (<[physicalDevice := flag]>
                 (doesPhysicalDeviceHaveGoogleDisplayTiming s))
              (tracer_list s) (pFunctionProvider s))
  end.

(** [InitFunctions]: a null provider is replaced by the default one;
    the result is that of the provider's [init].  (Loading the Vulkan
    entry points is outside the state.) *)
Definition InitFunctions (s : instance) : bool * instance :=
  let provider := default c_provider (pFunctionProvider s) in
  (provider_init provider,
   mkInstance (maps s) (doesPhysicalDeviceHaveGoogleDisplayTiming s)
     (tracer_list s) (Some provider)).

(** [GetRefreshCycleDuration]: the result with [*pRefreshDuration] as the
    implementation leaves it ([None]: not written), and the state.
    [doesPhysicalDeviceHaveGoogleDisplayTiming[physicalDevice]] is
    [operator[]] too and adds [false] for a device that the map does not
    hold.  [std::make_shared] yields no null pointer, so the test that
    follows it never fires. *)
Definition GetRefreshCycleDuration (s : instance) (env jactivity : Z)
    (physicalDevice : VkPhysicalDevice) (dev : VkDevice)
    (swapchain : VkSwapchainKHR) : bool * option Z * instance :=
  let '(pImplementation, m) :=
    index_swapchain (perSwapchainImplementation (maps s)) swapchain in
  let s := set_maps s (mk (perQueueFamilyIndex (maps s)) m) in
  let finish (s : instance) (impl : Impl) :=
    let impl := foldl base_addTracer impl (tracer_list s) in
    let '(r, d, impl) := doGetRefreshCycleDuration impl swapchain in
    (r, Some d,
     set_maps s
       (mk (perQueueFamilyIndex (maps s))
          (<[swapchain := Some impl]> (perSwapchainImplementation (maps s)))))
  in
  match pImplementation with
  | Some impl => finish s impl
  | None =>
      let '(ok, s) := InitFunctions s in
      if negb ok then (false, None, s)
      else
        let timing := doesPhysicalDeviceHaveGoogleDisplayTiming s in
        let has := default false (timing !! physicalDevice) in
        let s :=
          mkInstance (maps s) (<[physicalDevice := has]> timing)
            (tracer_list s) (pFunctionProvider s) in
        let provider := default c_provider (pFunctionProvider s) in
        finish s
          (if has
           then SwappyVkGoogleDisplayTiming env jactivity physicalDevice dev
                  provider
           else SwappyVkFallback env jactivity physicalDevice dev provider)
  end.

(** [addTracer] and [removeTracer]; [tracer] is [None] for a null
    pointer.  [std::list::remove] removes every element that compares
    equal. *)
Definition addTracer (s : instance) (tracer : option SwappyTracer)
  : option instance :=
  match tracer with
  | None => Some s
  | Some tr =>
      m ← for_each_implementation (λ impl, base_addTracer impl tr)
            (perSwapchainImplementation (maps s));
      Some (mkInstance (mk (perQueueFamilyIndex (maps s)) m)
              (doesPhysicalDeviceHaveGoogleDisplayTiming s)
              (tracer_list s ++ [tr]) (pFunctionProvider s))
  end.

Definition removeTracer (s : instance) (tracer : option SwappyTracer)
  : option instance :=
  match tracer with
  | None => Some s
  | Some tr =>
      m ← for_each_implementation (λ impl, base_removeTracer impl tr)
            (perSwapchainImplementation (maps s));
      Some (mkInstance (mk (perQueueFamilyIndex (maps s)) m)
              (doesPhysicalDeviceHaveGoogleDisplayTiming s)
              (List.filter (λ e, negb (tracer_eq e tr)) (tracer_list s))
              (pFunctionProvider s))
  end.

End Members.

Arguments instance : clear implicits.

Section Forwarding.

(** The member functions that only forward to the implementations. *)
Context {Impl : Type}.
Variable setAutoSwapInterval : Impl → bool → Impl.
Variable setAutoPipelineMode : Impl → bool → Impl.
Variable setMaxAutoSwapDuration : Impl → Z → Impl.
Variable setFenceTimeout : Impl → Z → Impl.
Variable base_enableStats : Impl → bool → Impl.
Variable base_recordFrameStart : Impl → VkQueue → Z → Impl.
Variable base_clearStats : Impl → Impl.
Variable base_resetFramePacing : Impl → Impl.
Variable base_enableFramePacing : Impl → bool → Impl.
Variable base_enableBlockingWait : Impl → bool → Impl.

Definition SetAutoSwapInterval (s : t Impl) (enabled : bool)
  : option (t Impl) :=
  m ← for_each_implementation (λ impl, setAutoSwapInterval impl enabled)
        (perSwapchainImplementation s);
  Some (mk (perQueueFamilyIndex s) m).

Definition SetAutoPipelineMode (s : t Impl) (enabled : bool)
  : option (t Impl) :=
  m ← for_each_implementation (λ impl, setAutoPipelineMode impl enabled)
        (perSwapchainImplementation s);
  Some (mk (perQueueFamilyIndex s) m).

Definition SetMaxAutoSwapDuration (s : t Impl) (maxDuration : Z)
  : option (t Impl) :=
  m ← for_each_implementation
        (λ impl, setMaxAutoSwapDuration impl maxDuration)
        (perSwapchainImplementation s);
  Some (mk (perQueueFamilyIndex s) m).

Definition SetFenceTimeout (s : t Impl) (timeout : Z) : option (t Impl) :=
  m ← for_each_implementation (λ impl, setFenceTimeout impl timeout)
        (perSwapchainImplementation s);
  Some (mk (perQueueFamilyIndex s) m).

(** [auto it = perSwapchainImplementation.find(swapchain);
     if (it != perSwapchainImplementation.end()) it->second->f(..)] *)
Definition find_and_call (f : Impl → Impl) (s : t Impl)
    (swapchain : VkSwapchainKHR) : option (t Impl) :=
  match perSwapchainImplementation s !! swapchain with
  | Some p =>
      impl ← p;
      Some (mk (perQueueFamilyIndex s)
              (<[swapchain := Some (f impl)]> (perSwapchainImplementation s)))
  | None => Some s
  end.

Definition enableStats (s : t Impl) (swapchain : VkSwapchainKHR)
    (enabled : bool) : option (t Impl) :=
  find_and_call (λ impl, base_enableStats impl enabled) s swapchain.

Definition recordFrameStart (s : t Impl) (queue : VkQueue)
    (swapchain : VkSwapchainKHR) (image : Z) : option (t Impl) :=
  find_and_call (λ impl, base_recordFrameStart impl queue image) s swapchain.

Definition clearStats (s : t Impl) (swapchain : VkSwapchainKHR)
  : option (t Impl) :=
  find_and_call base_clearStats s swapchain.

Definition resetFramePacing (s : t Impl) (swapchain : VkSwapchainKHR)
  : option (t Impl) :=
  find_and_call base_resetFramePacing s swapchain.

Definition enableFramePacing (s : t Impl) (swapchain : VkSwapchainKHR)
    (enable : bool) : option (t Impl) :=
  find_and_call (λ impl, base_enableFramePacing impl enable) s swapchain.

Definition enableBlockingWait (s : t Impl) (swapchain : VkSwapchainKHR)
    (enable : bool) : option (t Impl) :=
  find_and_call (λ impl, base_enableBlockingWait impl enable) s swapchain.

End Forwarding.

End SwappyVk.

(** ** [SwappyGL::swap] (SwappyGL.cpp) *)

Module SwappyGL.

Definition EGLBoolean : Type := Z.
Definition EGL_FALSE : EGLBoolean := 0.
Definition EGL_TRUE : EGLBoolean := 1.

Definition EGLDisplay : Type := Z.
Definition EGLSurface : Type := Z.

Section Platform.

(** The wrapper of the EGL entry points ([EGL], of EGL.h) and the common
    pacing engine ([SwappyCommon]) are outside the sources: their states
    and the calls that [swap] makes into them are parameters.
    [setPresentationTime] reads the clock and the display timings and is a
    parameter too. *)
Context {EGL Common : Type}.
Variable swapBuffers : EGL → EGLDisplay → EGLSurface → EGLBoolean.
Variable onPreSwap : EGL → EGLDisplay → Common → Common.
Variable needToSetPresentationTime : Common → bool.
Variable setPresentationTime :
  EGL → Common → EGLDisplay → EGLSurface → bool.
Variable onPostSwap : EGL → EGLDisplay → Common → Common.

(** The members that [swap] reads.  [mEgl] is a [std::unique_ptr<EGL>],
    [None] when null. *)
Record t : Type := mk {
  mEnableSwappy : bool;
  mEgl : option EGL;
  mCommonBase : Common
}.

(** [SwappyGL::SwappyGL]: [egl_create] is the result of [EGL::create],
    [common_valid] that of [mCommonBase.isValid()], [prop_disable] the
    system property that disables Swappy. *)
Definition SwappyGL (egl_create : option EGL) (common : Common)
    (common_valid prop_disable : bool) : t :=
  match egl_create with
  | None => mk false None common
  | Some egl =>
      if negb common_valid then mk false (Some egl) common
      else mk (negb prop_disable) (Some egl) common
  end.

(** [enabled()] is the accessor of [mEnableSwappy]: the constructor sets
    the member and tests [enabled()] in the next statement. *)
Definition enabled (s : t) : bool := mEnableSwappy s.

(** [init]: the new instance stays in [sInstance] also when the result
    is [false]; a second call changes nothing. *)
Definition init (sInstance : option t) (egl_create : option EGL)
    (common : Common) (common_valid prop_disable : bool)
  : bool * option t :=
  match sInstance with
  | Some _ => (false, sInstance)
  | None =>
      let s := SwappyGL egl_create common common_valid prop_disable in
      (mEnableSwappy s, Some s)
  end.

(** [getEgl()] on a thread whose [thread_local] pointer is null or is
    [mEgl.get()] of this instance, as it is until [destroyInstance] is
    called: it then yields [mEgl.get()].  The pointer itself is a static,
    set once and kept across instances: [SwappyGLStatics.getEgl] has it,
    and [SwappyGLStatics.swap] is [swap] with it. *)
Definition getEgl (s : t) : option EGL := mEgl s.

(** [swapInternal], the paced path: the result and [mCommonBase] after
    the call.  It starts with [getEgl()->insertSyncFence(display)]. *)
Definition swapInternal (swappy : t) (display : EGLDisplay)
    (surface : EGLSurface) : option (bool * Common) :=
  egl ← getEgl swappy;
  let common := onPreSwap egl display (mCommonBase swappy) in
  if needToSetPresentationTime common
     && negb (setPresentationTime egl common display surface)
  then Some (false, common)
  else
    let swapBuffersResult :=
      bool_decide (swapBuffers egl display surface = EGL_TRUE) in
    Some (swapBuffersResult, onPostSwap egl display common).

(** [swap]: the result and the instance after the call; [None] is a call
    through a null [EGL] pointer. *)
Definition swap (sInstance : option t) (display : EGLDisplay)
    (surface : EGLSurface) : option (bool * option t) :=
  match sInstance with
  | None => Some (false, None)
  | Some swappy =>
      if enabled swappy then
        '(r, common) ← swapInternal swappy display surface;
        Some (r, Some (mk (mEnableSwappy swappy) (mEgl swappy) common))
      else
        egl ← getEgl swappy;
        Some (bool_decide (swapBuffers egl display surface = EGL_TRUE),
              Some swappy)
  end.

End Platform.

Arguments t : clear implicits.

End SwappyGL.

(** ** The static entry points of SwappyGL.cpp *)

Module SwappyGLStatics.

(** The member functions of [SwappyCommon] that the entry points call.
    The time arguments are nanosecond counts; [getSupportedRefreshPeriodsNS]
    takes the array and its size and gives the result and the array. *)
Module Common.

Class ops (Common : Type) : Type := {
  onChoreographer : Common → Z → Common;
  setANativeWindow : Common → Z → Common;
  addTracerCallbacks : Common → SwappyVk.SwappyTracer → Common;
  removeTracerCallbacks : Common → SwappyVk.SwappyTracer → Common;
  getSwapDuration : Common → Z;
  setAutoSwapInterval : Common → bool → Common;
  setAutoPipelineMode : Common → bool → Common;
  setMaxAutoSwapDuration : Common → Z → Common;
  setFenceTimeout : Common → Z → Common;
  getFenceTimeout : Common → Z;
  setBufferStuffingFixWait : Common → Z → Common;
  getSupportedRefreshPeriodsNS : Common → list Z → Z → Z * list Z;
  resetFramePacing : Common → Common;
  enableFramePacing : Common → bool → Common;
  enableBlockingWait : Common → bool → Common;
  setLastLatencyRecordedCallback : Common → Common
}.

End Common.

(** The member functions of [FrameStatisticsGL] that the entry points
    call. *)
Module FrameStatistics.

Class ops (Stats SwappyStats : Type) : Type := {
  enableStats : Stats → bool → Stats;
  capture : Stats → SwappyGL.EGLDisplay → SwappyGL.EGLSurface → Stats;
  getStats : Stats → SwappyStats;
  clearStats : Stats → Stats
}.

End FrameStatistics.

Section Platform.

Context {EGL Common Stats SwappyStats : Type}.
Context `{!EqDecision EGL}.
Context `{!Common.ops Common} `{!FrameStatistics.ops Stats SwappyStats}.
Variable swapBuffers :
  EGL → SwappyGL.EGLDisplay → SwappyGL.EGLSurface → SwappyGL.EGLBoolean.
Variable onPreSwap : EGL → SwappyGL.EGLDisplay → Common → Common.
Variable needToSetPresentationTime : Common → bool.
Variable setPresentationTime :
  EGL → Common → SwappyGL.EGLDisplay → SwappyGL.EGLSurface → bool.
Variable onPostSwap : EGL → SwappyGL.EGLDisplay → Common → Common.
Variable statsSupported : EGL → bool.
Variable FrameStatisticsGL : EGL → Common → Stats.

(** A [SwappyGL] object: the members that [swap] reads, and
    [mFrameStatistics], [None] when null. *)
Record instance : Type := mkInstance {
  members : SwappyGL.t EGL Common;
  mFrameStatistics : option Stats
}.

(** The statics: [sInstance], and the [thread_local] pointer [egl] of
    [getEgl] for the calling thread.  An [EGL] value stands for the object
    and its address; both pointers are [None] when null. *)
Record process : Type := mkProcess {
  sInstance : option instance;
  egl : option EGL
}.

(** [SwappyGL::SwappyGL], with the statistics: [egl_create] is the result
    of [EGL::create], [common] the constructed [mCommonBase],
    [common_valid] the result of [isValid()], [prop_disable] the system
    property. *)
Definition SwappyGL (egl_create : option EGL) (common : Common)
    (common_valid prop_disable : bool) : instance :=
  match egl_create with
  | None => mkInstance (SwappyGL.mk false None common) None
  | Some e =>
      if negb common_valid
      then mkInstance (SwappyGL.mk false (Some e) common) None
      else
        let mEnableSwappy := negb prop_disable in
        if negb mEnableSwappy
        then mkInstance (SwappyGL.mk mEnableSwappy (Some e) common) None
        else if statsSupported e
        then mkInstance
               (SwappyGL.mk mEnableSwappy (Some e)
                  (Common.setLastLatencyRecordedCallback common))
               (Some (FrameStatisticsGL e common))
        else mkInstance (SwappyGL.mk mEnableSwappy (Some e) common) None
  end.

Definition enabled (swappy : instance) : bool :=
  SwappyGL.mEnableSwappy (members swappy).

Definition getInstance (p : process) : option instance := sInstance p.

Definition init (p : process) (egl_create : option EGL) (common : Common)
    (common_valid prop_disable : bool) : bool * process :=
  match sInstance p with
  | Some _ => (false, p)
  | None =>
      let swappy := SwappyGL egl_create common common_valid prop_disable in
      (SwappyGL.mEnableSwappy (members swappy),
       mkProcess (Some swappy) (egl p))
  end.

(** [destroyInstance] resets [sInstance]; the [thread_local] of [getEgl]
    is out of its reach. *)
Definition destroyInstance (p : process) : process := mkProcess None (egl p).

Definition isEnabled (p : process) : bool :=
  match getInstance p with
  | None => false
  | Some swappy => enabled swappy
  end.

(** [swappy->mCommonBase.f(..)] *)
Definition call_common (p : process) (swappy : instance)
    (f : Common → Common) : process :=
  mkProcess
    (Some (mkInstance
             (SwappyGL.mk (SwappyGL.mEnableSwappy (members swappy))
                (SwappyGL.mEgl (members swappy))
                (f (SwappyGL.mCommonBase (members swappy))))
             (mFrameStatistics swappy)))
    (egl p).

(** [swappy->mFrameStatistics->f(..)] *)
Definition call_stats (p : process) (swappy : instance) (stats : Stats)
  : process :=
  mkProcess (Some (mkInstance (members swappy) (Some stats))) (egl p).

Definition onChoreographer (p : process) (frameTimeNanos : Z) : process :=
  match getInstance p with
  | None => p
  | Some swappy =>
      call_common p swappy (λ c, Common.onChoreographer c frameTimeNanos)
  end.

Definition setWindow (p : process) (window : Z) : bool * process :=
  match getInstance p with
  | None => (false, p)
  | Some swappy =>
      (true, call_common p swappy (λ c, Common.setANativeWindow c window))
  end.

(** [getEgl] on [swappy]: the pointer it returns, and the statics. *)
Definition getEgl (p : process) (swappy : instance)
  : option EGL * process :=
  match egl p with
  | Some e => (Some e, p)
  | None =>
      (SwappyGL.mEgl (members swappy),
       mkProcess (sInstance p) (SwappyGL.mEgl (members swappy)))
  end.

(** [swap].  Both branches start with a call through [getEgl()]: the
    pointer is null ([None]), or it is [mEgl.get()] of the instance, and
    then the call is [SwappyGL.swap] on the members, or it points to no
    live object ([None]). *)
Definition swap (p : process) (display : SwappyGL.EGLDisplay)
    (surface : SwappyGL.EGLSurface) : option (bool * process) :=
  match getInstance p with
  | None => Some (false, p)
  | Some swappy =>
      let '(pointer, p) := getEgl p swappy in
      e ← pointer;
      if decide (SwappyGL.mEgl (members swappy) = Some e) then
        '(r, after) ←
          SwappyGL.swap swapBuffers onPreSwap needToSetPresentationTime
            setPresentationTime onPostSwap (Some (members swappy)) display
            surface;
        Some (r,
              mkProcess
                ((λ m, mkInstance m (mFrameStatistics swappy)) <$> after)
                (egl p))
      else None
  end.

(** [tracer] is [None] for a null pointer. *)
Definition addTracer (p : process) (tracer : option SwappyVk.SwappyTracer)
  : process :=
  match getInstance p with
  | None => p
  | Some swappy =>
      match tracer with
      | Some tr =>
          if enabled swappy
          then call_common p swappy (λ c, Common.addTracerCallbacks c tr)
          else p
      | None => p
      end
  end.

Definition removeTracer (p : process)
    (tracer : option SwappyVk.SwappyTracer) : process :=
  match getInstance p with
  | None => p
  | Some swappy =>
      match tracer with
      | Some tr =>
          if enabled swappy
          then call_common p swappy (λ c, Common.removeTracerCallbacks c tr)
          else p
      | None => p
      end
  end.

Definition getSwapDuration (p : process) : Z :=
  match getInstance p with
  | None => -1
  | Some swappy =>
      if negb (enabled swappy) then -1
      else Common.getSwapDuration (SwappyGL.mCommonBase (members swappy))
  end.

Definition setAutoSwapInterval (p : process) (on : bool) : process :=
  match getInstance p with
  | None => p
  | Some swappy =>
      if enabled swappy
      then call_common p swappy (λ c, Common.setAutoSwapInterval c on)
      else p
  end.

Definition setAutoPipelineMode (p : process) (on : bool) : process :=
  match getInstance p with
  | None => p
  | Some swappy =>
      if enabled swappy
      then call_common p swappy (λ c, Common.setAutoPipelineMode c on)
      else p
  end.

Definition setMaxAutoSwapDuration (p : process) (maxDuration : Z)
  : process :=
  match getInstance p with
  | None => p
  | Some swappy =>
      if enabled swappy
      then call_common p swappy
             (λ c, Common.setMaxAutoSwapDuration c maxDuration)
      else p
  end.

Definition enableStats (p : process) (on : bool) : process :=
  match getInstance p with
  | None => p
  | Some swappy =>
      match mFrameStatistics swappy with
      | Some stats =>
          call_stats p swappy (FrameStatistics.enableStats stats on)
      | None => p
      end
  end.

Definition recordFrameStart (p : process) (display : SwappyGL.EGLDisplay)
    (surface : SwappyGL.EGLSurface) : process :=
  match getInstance p with
  | None => p
  | Some swappy =>
      match mFrameStatistics swappy with
      | Some stats =>
          call_stats p swappy (FrameStatistics.capture stats display surface)
      | None => p
      end
  end.

(** [getStats]: [stats] is [*stats] before the call, [None] for a null
    pointer; the result is [*stats] after it. *)
Definition getStats (p : process) (stats : option SwappyStats)
  : option (option SwappyStats) :=
  match getInstance p with
  | None => Some stats
  | Some swappy =>
      match mFrameStatistics swappy with
      | Some fs => _ ← stats; Some (Some (FrameStatistics.getStats fs))
      | None => Some stats
      end
  end.

Definition clearStats (p : process) : process :=
  match getInstance p with
  | None => p
  | Some swappy =>
      match mFrameStatistics swappy with
      | Some stats => call_stats p swappy (FrameStatistics.clearStats stats)
      | None => p
      end
  end.

Definition setFenceTimeout (p : process) (t : Z) : process :=
  match getInstance p with
  | None => p
  | Some swappy =>
      if negb (enabled swappy) then p
      else call_common p swappy (λ c, Common.setFenceTimeout c t)
  end.

Definition getFenceTimeout (p : process) : Z :=
  match getInstance p with
  | None => 0
  | Some swappy =>
      if negb (enabled swappy) then 0
      else Common.getFenceTimeout (SwappyGL.mCommonBase (members swappy))
  end.

Definition setBufferStuffingFixWait (p : process) (n_frames : Z)
  : process :=
  match getInstance p with
  | None => p
  | Some swappy =>
      call_common p swappy (λ c, Common.setBufferStuffingFixWait c n_frames)
  end.

Definition getSupportedRefreshPeriodsNS (p : process)
    (out_refreshrates : list Z) (allocated_entries : Z) : Z * list Z :=
  match getInstance p with
  | None => (-1, out_refreshrates)
  | Some swappy =>
      Common.getSupportedRefreshPeriodsNS
        (SwappyGL.mCommonBase (members swappy)) out_refreshrates
        allocated_entries
  end.

Definition resetFramePacing (p : process) : process :=
  match getInstance p with
  | None => p
  | Some swappy => call_common p swappy Common.resetFramePacing
  end.

Definition enableFramePacing (p : process) (enable : bool) : process :=
  match getInstance p with
  | None => p
  | Some swappy =>
      call_common p swappy (λ c, Common.enableFramePacing c enable)
  end.

Definition enableBlockingWait (p : process) (enable : bool) : process :=
  match getInstance p with
  | None => p
  | Some swappy =>
      call_common p swappy (λ c, Common.enableBlockingWait c enable)
  end.

End Platform.

Arguments instance : clear implicits.
Arguments process : clear implicits.

End SwappyGLStatics.

(** ** tuningfork_settings.cpp: [Settings::Check] *)

Module Settings.

Definition UINT64_MAX : Z := 2 ^ 64 - 1.
Definition u64 (z : Z) : Z := z mod 2 ^ 64.

Definition kPerformanceParametersBaseUri : string :=
  "https://performanceparameters.googleapis.com/v1/".
Definition kDefaultFrameTimeAnnotationCombinationLimit : Z := 64.

Inductive Submission : Type := TICK_BASED | TIME_BASED.

(** The members that [Check] and [NumAnnotationCombinations] use.  The
    headers that declare them are not among the sources: the counters are
    [uint32_t], [annotation_enum_size] holds the sizes as the loop's
    [n *= x] sees them, converted to [uint64_t]. *)
Record AggregationStrategy : Type := mkAggregationStrategy {
  method : Submission;
  intervalms_or_count : Z;
  max_instrumentation_keys : Z;
  annotation_enum_size : list Z
}.

Record TuningFork_MetricLimits : Type := mkMetricLimits {
  frame_time : Z;
  loading_time : Z;
  memory : Z;
  battery : Z;
  thermal : Z
}.

(** A persister: one that the caller passed, or the C cache of the
    file's [sFileCache]. *)
Inductive TuningFork_Cache : Type :=
| caller_cache (address : Z)
| sFileCache_GetCCache.

Record t : Type := mk {
  persistent_cache : option TuningFork_Cache;
  max_num_metrics : TuningFork_MetricLimits;
  aggregation_strategy : AggregationStrategy;
  base_uri : string;
  initial_request_timeout_ms : Z;
  ultimate_request_timeout_ms : Z
}.

(** The loop of [NumAnnotationCombinations], entered with [n]. *)
Fixpoint combinations_loop (sizes : list Z) (n : Z) : Z :=
  match sizes with
  | [] => n
  | x :: sizes =>
      let m := n in
      let n := u64 (n * x) in
      if n <? m then UINT64_MAX else combinations_loop sizes n
  end.

Definition NumAnnotationCombinations (s : t) : Z :=
  combinations_loop (annotation_enum_size (aggregation_strategy s)) 1.

(** [std::string::back()]; [None] on the empty string. *)
Fixpoint back (str : string) : option ascii :=
  match str with
  | EmptyString => None
  | String c EmptyString => Some c
  | String _ rest => back rest
  end.

Section Check.

(** [NDEBUG], the default save directory (found through JNI), and the
    directory of [sFileCache], which [CheckPersister] sets. *)
Variable NDEBUG : bool.
Variable DefaultTuningForkSaveDirectory : string.

Definition CheckPersister (persister : option TuningFork_Cache)
    (save_dir : string) (sFileCache_dir : string)
  : option TuningFork_Cache * string :=
  match persister with
  | None =>
      let save_dir :=
        if decide (save_dir = EmptyString)
        then DefaultTuningForkSaveDirectory else save_dir in
      (Some sFileCache_GetCCache, save_dir)
  | Some _ => (persister, sFileCache_dir)
  end.

(** [Settings::Check]: the settings and the directory of [sFileCache]
    after the call. *)
Definition Check (s : t) (save_dir : string) (sFileCache_dir : string)
  : option (t * string) :=
  let '(persister, sFileCache_dir) :=
    CheckPersister (persistent_cache s) save_dir sFileCache_dir in
  let base_uri :=
    if decide (base_uri s = EmptyString)
    then kPerformanceParametersBaseUri else base_uri s in
  last ← back base_uri;
  let base_uri :=
    if Ascii.eqb last "/" then base_uri else base_uri +:+ "/" in
  let a := aggregation_strategy s in
  let a :=
    if intervalms_or_count a =? 0
    then mkAggregationStrategy TIME_BASED
           (if NDEBUG then 7200000 else 10000)
           (max_instrumentation_keys a) (annotation_enum_size a)
    else a in
  let initial :=
    if initial_request_timeout_ms s =? 0 then 1000
    else initial_request_timeout_ms s in
  let ultimate :=
    if ultimate_request_timeout_ms s =? 0 then 100000
    else ultimate_request_timeout_ms s in
  let limits := max_num_metrics s in
  let frame :=
    if frame_time limits =? 0
    then
      let num_annotation_combinations :=
        NumAnnotationCombinations
          (mk persister limits a base_uri initial ultimate) in
      Cxx.u32
        (Z.min kDefaultFrameTimeAnnotationCombinationLimit
           num_annotation_combinations
         * max_instrumentation_keys a)
    else frame_time limits in
  let limits :=
    mkMetricLimits frame
      (if loading_time limits =? 0 then 32 else loading_time limits)
      (if memory limits =? 0 then 15 else memory limits)
      (if battery limits =? 0 then 32 else battery limits)
      (if thermal limits =? 0 then 32 else thermal limits) in
  Some (mk persister limits a base_uri initial ultimate, sFileCache_dir).

End Check.

End Settings.

(** ** session.h: the metric data of a [Session] *)

Module Session.

Definition MetricId : Type := Z.

Section Metrics.

(** [MetricData] and the metric types are declared in headers that are
    not among the sources: [type] is the member, [Empty] the virtual
    function.  [GetData<T>] and [GetNonEmptyHistograms<T>] take
    [T::MetricType()] as [T]. *)
Context {MetricData MetricType : Type}.
Context `{!EqDecision MetricType}.
Variable type : MetricData → MetricType.
Variable Empty : MetricData → bool.

(** [metric_data_]; a [std::unique_ptr<MetricData>] is [None] when
    null. *)
Record t : Type := mk {
  metric_data_ : gmap MetricId (option MetricData);
  instrumentation_keys_ : list Z
}.

(** [GetData<T>(id)]: the pointer it returns ([None] for [nullptr]);
    the outer [None] is a call through a null entry. *)
Definition GetData (T : MetricType) (s : t) (id : MetricId)
  : option (option MetricData) :=
  match metric_data_ s !! id with
  | None => Some None
  | Some p =>
      d ← p;
      Some (if decide (type d = T) then Some d else None)
  end.

(** [GetNonEmptyHistograms<T>()]; the order of the result is that of the
    iteration over the hash map. *)
Definition GetNonEmptyHistograms (T : MetricType) (s : t)
  : option (list (MetricId * MetricData)) :=
  map_fold
    (λ id p ret,
       ret ← ret;
       d ← p;
       Some (if negb (Empty d)
             then if decide (type d = T) then ret ++ [(id, d)] else ret
             else ret))
    (Some []) (metric_data_ s).

Definition SetInstrumentationKeys (s : t) (ikeys : list Z) : t :=
  mk (metric_data_ s) ikeys.

(** [index] is a [uint32_t]. *)
Definition GetInstrumentationKey (s : t) (index : Z) : Z :=
  if index <? Z.of_nat (length (instrumentation_keys_ s))
  then default 0 (instrumentation_keys_ s !! Z.to_nat index)
  else 0.

End Metrics.

Arguments t : clear implicits.

End Session.

(** * Properties *)

Module HistogramSpec.

Import Histogram.

(** Constants to run the code on: three standard deviations, a minimal
    bucket width of 0.1 ms, 200 buckets by default. *)
Lemma default_range_200 : 2 <= 200 <= INT_MAX.
Proof. unfold INT_MAX. lia. Qed.

Definition run_constants : Constants :=
  {| kDefaultNumBuckets := 200;
     kAutoSizeNumStdDev := 3%float;
     kAutoSizeMinBucketSizeMs := 0.1%float;
     kDefaultNumBuckets_range := default_range_200 |}.

(** ** The option monad *)

Lemma bind_Some_inv {A B} (f : A → option B) (o : option A) (b : B) :
  o ≫= f = Some b → ∃ a, o = Some a ∧ f a = Some b.
Proof. destruct o as [a|]; simpl; [eauto | discriminate]. Qed.

Ltac inv_bind H :=
  let a := fresh "a" in
  let Ha := fresh "Ha" in
  apply bind_Some_inv in H; destruct H as (a & Ha & H).

(** ** Machine arithmetic *)

Lemma int_add_Some a b c : int_add a b = Some c → c = a + b ∧ INT_MIN <= c <= INT_MAX.
Proof.
  unfold int_add, in_int. destruct (_ && _) eqn:E; [|discriminate].
  intros [= <-]. apply andb_true_iff in E as [?%Z.leb_le ?%Z.leb_le]. lia.
Qed.

Lemma int_of_double_range x z : int_of_double x = Some z → INT_MIN <= z <= INT_MAX.
Proof.
  unfold int_of_double. destruct (trunc_SF _); [|discriminate].
  unfold in_int. destruct (_ && _) eqn:E; [|discriminate].
  intros [= <-]. apply andb_true_iff in E as [?%Z.leb_le ?%Z.leb_le]. lia.
Qed.

Lemma u32_range z : 0 <= u32 z < 2 ^ 32.
Proof. unfold u32. apply Z.mod_pos_bound. lia. Qed.

Lemma u32_small z : 0 <= z < 2 ^ 32 → u32 z = z.
Proof. unfold u32. apply Z.mod_small. Qed.

(** ** The constructor *)

Section Constructor.
Context {C : Constants}.

Lemma ctor_divisor_nonzero n : ctor_divisor n ≠ 0.
Proof. unfold ctor_divisor. destruct (Z.leb_spec n 0); lia. Qed.

Lemma ctor_num_buckets start_ms end_ms n never_bucket h :
  Histogram start_ms end_ms n never_bucket = Some h →
  num_buckets_ h = (if n <=? 0 then kDefaultNumBuckets else n + 2) ∧
  2 <= num_buckets_ h <= INT_MAX.
Proof.
  unfold Histogram. intros E. inv_bind E. injection E as <-. simpl.
  pose proof kDefaultNumBuckets_range.
  destruct (Z.leb_spec n 0).
  - injection Ha as <-. lia.
  - apply int_add_Some in Ha. lia.
Qed.

Lemma ctor_fields start_ms end_ms n never_bucket h :
  Histogram start_ms end_ms n never_bucket = Some h →
  mode_ h = ctor_mode start_ms end_ms never_bucket ∧
  start_ms_ h = start_ms ∧ end_ms_ h = end_ms ∧
  bucket_dt_ms_ h = ((end_ms - start_ms) / double_of_Z (ctor_divisor n))%float ∧
  buckets_ h = replicate (Z.to_nat (num_buckets_ h)) 0 ∧
  samples_ h = (if decide (mode_ h = EVENTS_ONLY)
                then replicate (Z.to_nat (num_buckets_ h)) 0%float else []) ∧
  samples_capacity h = (if decide (mode_ h = HISTOGRAM)
                        then 0%nat else Z.to_nat (num_buckets_ h)) ∧
  count_ h = 0 ∧ next_event_index_ h = 0%nat.
Proof.
  unfold Histogram. intros E. inv_bind E. injection E as <-. simpl.
  destruct (ctor_mode _ _ _); repeat split; reflexivity.
Qed.

Lemma ctor_defined start_ms end_ms n never_bucket :
  n <= INT_MAX - 2 → is_Some (Histogram start_ms end_ms n never_bucket).
Proof.
  intros Hn. unfold Histogram.
  destruct (Z.leb_spec n 0); simpl; [eauto|].
  unfold int_add, in_int.
  replace ((INT_MIN <=? n + 2) && (n + 2 <=? INT_MAX)) with true; simpl; eauto.
  symmetry. apply andb_true_iff. unfold INT_MIN, INT_MAX in *.
  split; apply Z.leb_le; lia.
Qed.

Lemma ctor_wf start_ms end_ms n never_bucket h :
  Histogram start_ms end_ms n never_bucket = Some h → wf h.
Proof.
  intros E. destruct (ctor_num_buckets _ _ _ _ _ E) as [_ Hnb].
  destruct (ctor_fields _ _ _ _ _ E) as (Hm & _ & _ & _ & Hb & Hs & Hc & _ & Hi).
  split.
  - exact Hnb.
  - rewrite Hb. apply length_replicate.
  - intros Hev. rewrite Hs, Hi. rewrite decide_True by exact Hev.
    rewrite length_replicate. split; [reflexivity | lia].
  - intros Hau. rewrite Hs, Hc.
    rewrite decide_False by congruence. rewrite decide_False by congruence.
    simpl. lia.
Qed.

(** C10.  Construction with [num_buckets_between <= 0] divides the range
    by 1 and takes the default number of buckets; the divisor is never
    zero; the mode is EVENTS_ONLY iff [never_bucket], else AUTO_RANGE iff
    [start_ms == 0 && end_ms == 0], else HISTOGRAM. *)
Theorem ctor_default_divisor_and_mode
    (start_ms end_ms : float) (n : Z) (never_bucket : bool) :
  ctor_divisor n ≠ 0 ∧
  (n <= 0 →
   ctor_divisor n = 1 ∧ double_of_Z (ctor_divisor n) = 1%float ∧
   ∃ h, Histogram start_ms end_ms n never_bucket = Some h ∧
        bucket_dt_ms_ h = ((end_ms - start_ms) / 1)%float ∧
        num_buckets_ h = kDefaultNumBuckets) ∧
  (∀ h, Histogram start_ms end_ms n never_bucket = Some h →
        bucket_dt_ms_ h
          = ((end_ms - start_ms) / double_of_Z (ctor_divisor n))%float ∧
        (0 < n → num_buckets_ h = n + 2) ∧
        (mode_ h = EVENTS_ONLY ↔ never_bucket = true) ∧
        (mode_ h = AUTO_RANGE ↔
           never_bucket = false ∧
           PrimFloat.eqb start_ms 0 = true ∧ PrimFloat.eqb end_ms 0 = true) ∧
        (mode_ h = HISTOGRAM ↔
           never_bucket = false ∧
           ¬ (PrimFloat.eqb start_ms 0 = true ∧ PrimFloat.eqb end_ms 0 = true))).
Proof.
  split; [apply ctor_divisor_nonzero|]. split.
  - intros Hn.
    assert (Hd : ctor_divisor n = 1).
    { unfold ctor_divisor. destruct (Z.leb_spec n 0); lia. }
    split; [exact Hd|]. split; [rewrite Hd; reflexivity|].
    destruct (ctor_defined start_ms end_ms n never_bucket) as [h Hh].
    { unfold INT_MAX. lia. }
    exists h. split; [exact Hh|].
    destruct (ctor_num_buckets _ _ _ _ _ Hh) as [Hnb _].
    destruct (ctor_fields _ _ _ _ _ Hh) as (_ & _ & _ & Hdt & _).
    rewrite Hdt, Hd, Hnb. split; [reflexivity|].
    destruct (Z.leb_spec n 0); [reflexivity | lia].
  - intros h Hh.
    destruct (ctor_num_buckets _ _ _ _ _ Hh) as [Hnb _].
    destruct (ctor_fields _ _ _ _ _ Hh) as (Hm & _ & _ & Hdt & _).
    split; [exact Hdt|]. split.
    { intros Hn. rewrite Hnb. destruct (Z.leb_spec n 0); [lia | reflexivity]. }
    rewrite Hm. unfold ctor_mode.
    destruct never_bucket, (PrimFloat.eqb start_ms 0), (PrimFloat.eqb end_ms 0);
      simpl; repeat split; try congruence; try tauto;
      try (intros [? ?]; congruence); try (intros [? [? ?]]; congruence).
Qed.

End Constructor.

(** The theorem at [Histogram(0, 20, 0, false)]. *)
Lemma ctor_default_divisor_and_mode_witness :
  ∃ h, Histogram (C := run_constants) 0 20 0 false = Some h ∧
       bucket_dt_ms_ h = 20%float ∧ num_buckets_ h = 200 ∧
       mode_ h = HISTOGRAM.
Proof.
  destruct (ctor_default_divisor_and_mode (C := run_constants) 0 20 0 false)
    as (_ & Hdef & Hall).
  destruct Hdef as (_ & _ & h & Hh & Hdt & Hnb); [lia|].
  exists h. split; [exact Hh|]. split; [exact Hdt|]. split; [exact Hnb|].
  destruct (Hall h Hh) as (_ & _ & _ & _ & Hm). apply Hm.
  split; [reflexivity|]. intros [_ H]. vm_compute in H. discriminate H.
Defined.

(** ** [Add] case by case *)

Section AddCases.
Context {C : Constants}.

Lemma Add_with_HISTOGRAM add h d :
  mode_ h = HISTOGRAM →
  Add_with add h d =
    (k ← bucket_of h d;
     bs ← incr_bucket (buckets_ h) k;
     Some (set_count (set_buckets h bs) (count_ h + 1))).
Proof.
  intros Hm. unfold Add_with. rewrite Hm.
  destruct (bucket_of h d) as [k|]; simpl; [|reflexivity].
  destruct (incr_bucket (buckets_ h) k); reflexivity.
Qed.

(** In HISTOGRAM mode the [Add] that [CalcBucketsFromSamples] calls is
    [Add]. *)
Lemma Add_nested_HISTOGRAM h d :
  mode_ h = HISTOGRAM → Add_nested h d = Add h d.
Proof.
  intros Hm. unfold Add_nested, Add. by rewrite !Add_with_HISTOGRAM.
Qed.

Lemma Add_EVENTS_ONLY h d :
  mode_ h = EVENTS_ONLY →
  Add h d =
    (_ ← samples_ h !! next_event_index_ h;
     Some (mk EVENTS_ONLY (start_ms_ h) (end_ms_ h) (bucket_dt_ms_ h)
             (num_buckets_ h) (buckets_ h)
             (<[next_event_index_ h := d]> (samples_ h))
             (samples_capacity h) (count_ h + 1)
             (if (length (samples_ h) <=? S (next_event_index_ h))%nat
              then 0%nat else S (next_event_index_ h)))).
Proof.
  intros Hm. unfold Add, Add_with. rewrite Hm.
  destruct (samples_ h !! next_event_index_ h); simpl; [|reflexivity].
  unfold set_count, set_next_event_index, set_samples. simpl.
  rewrite Hm, length_insert. reflexivity.
Qed.

Lemma Add_AUTO_RANGE h d :
  mode_ h = AUTO_RANGE →
  Add h d =
    (let h1 := set_samples h (samples_ h ++ [d])
                 (push_back_capacity (length (samples_ h)) (samples_capacity h)) in
     h' ← (if (length (samples_ h1) =? samples_capacity h1)%nat
           then CalcBucketsFromSamples h1 else Some h1);
     Some (set_count h' (count_ h' + 1))).
Proof. intros Hm. unfold Add, Add_with. rewrite Hm. reflexivity. Qed.

(** What an [Add] in HISTOGRAM mode leaves alone. *)
Definition same_config (h h' : t) : Prop :=
  mode_ h' = mode_ h ∧ start_ms_ h' = start_ms_ h ∧ end_ms_ h' = end_ms_ h ∧
  bucket_dt_ms_ h' = bucket_dt_ms_ h ∧ num_buckets_ h' = num_buckets_ h ∧
  samples_ h' = samples_ h ∧ samples_capacity h' = samples_capacity h ∧
  next_event_index_ h' = next_event_index_ h ∧
  length (buckets_ h') = length (buckets_ h).

Lemma same_config_refl h : same_config h h.
Proof. repeat split. Qed.

Lemma same_config_trans h1 h2 h3 :
  same_config h1 h2 → same_config h2 h3 → same_config h1 h3.
Proof.
  unfold same_config. intros (?&?&?&?&?&?&?&?&?) (?&?&?&?&?&?&?&?&?).
  repeat split; congruence.
Qed.

Lemma incr_bucket_Some bs k bs' :
  incr_bucket bs k = Some bs' →
  ∃ b, 0 <= k ∧ bs !! Z.to_nat k = Some b ∧
       bs' = <[Z.to_nat k := u32 (b + 1)]> bs.
Proof.
  unfold incr_bucket. destruct (Z.ltb_spec k 0); [discriminate|].
  intros E. inv_bind E. injection E as <-. eauto.
Qed.

Lemma incr_bucket_defined bs k :
  0 <= k < Z.of_nat (length bs) → is_Some (incr_bucket bs k).
Proof.
  intros Hk. unfold incr_bucket. destruct (Z.ltb_spec k 0); [lia|].
  destruct (lookup_lt_is_Some_2 bs (Z.to_nat k)) as [b Hb]; [lia|].
  rewrite Hb. simpl. eauto.
Qed.

Lemma bucket_of_range h d k :
  0 < num_buckets_ h → bucket_of h d = Some k → 0 <= k < num_buckets_ h.
Proof.
  intros Hnb. unfold bucket_of. intros E. inv_bind E.
  destruct (Z.ltb_spec a 0); [injection E as <-; lia|].
  inv_bind E. apply int_add_Some in Ha0 as [-> _].
  destruct (Z.leb_spec (num_buckets_ h) (a + 1)); injection E as <-; lia.
Qed.

Lemma Add_with_HISTOGRAM_frame add h d h' :
  mode_ h = HISTOGRAM → Add_with add h d = Some h' →
  same_config h h' ∧ count_ h' = count_ h + 1.
Proof.
  intros Hm. rewrite Add_with_HISTOGRAM by exact Hm. intros E.
  inv_bind E. inv_bind E. injection E as <-.
  apply incr_bucket_Some in Ha0 as (b & _ & _ & ->).
  unfold same_config. simpl. rewrite length_insert. repeat split.
Qed.

Lemma replay_HISTOGRAM_frame add h ds h' :
  mode_ h = HISTOGRAM → replay (Add_with add) h ds = Some h' →
  same_config h h' ∧ count_ h' = count_ h + Z.of_nat (length ds).
Proof.
  revert h. induction ds as [|d ds IH]; intros h Hm E; simpl in *.
  - injection E as <-. split; [apply same_config_refl | lia].
  - inv_bind E.
    destruct (Add_with_HISTOGRAM_frame _ _ _ _ Hm Ha) as [Hc Hn].
    destruct (IH a) as [Hc' Hn']; [destruct Hc; congruence | exact E |].
    split; [eapply same_config_trans; eassumption | lia].
Qed.

(** The replay of [CalcBucketsFromSamples] is a sequence of [Add] calls. *)
Lemma replay_nested_Adds h ds :
  mode_ h = HISTOGRAM → replay Add_nested h ds = Adds h ds.
Proof.
  unfold Adds. revert h. induction ds as [|d ds IH]; intros h Hm; simpl; [reflexivity|].
  rewrite Add_nested_HISTOGRAM by exact Hm.
  destruct (Add h d) as [h1|] eqn:E; simpl; [|reflexivity].
  apply IH. destruct (Add_with_HISTOGRAM_frame _ _ _ _ Hm E) as [Hc _].
  destruct Hc; congruence.
Qed.

Lemma Adds_app h ds1 ds2 :
  Adds h (ds1 ++ ds2) = Adds h ds1 ≫= λ h1, Adds h1 ds2.
Proof.
  unfold Adds. revert h. induction ds1 as [|d ds1 IH]; intros h; simpl.
  - reflexivity.
  - destruct (Add h d); simpl; [apply IH | reflexivity].
Qed.

Lemma Adds_snoc h ds d : Adds h (ds ++ [d]) = Adds h ds ≫= λ h1, Add h1 d.
Proof.
  rewrite Adds_app. destruct (Adds h ds) as [h1|]; simpl; [|reflexivity].
  unfold Adds. simpl. destruct (Add h1 d); reflexivity.
Qed.

(** *** The class invariant is kept *)

Lemma same_config_wf h h' :
  mode_ h = HISTOGRAM → same_config h h' → wf h → wf h'.
Proof.
  intros Hm (Hm' & _ & _ & _ & Hnb & Hs & Hc & Hi & Hl) [W1 W2 W3 W4].
  split.
  - by rewrite Hnb.
  - by rewrite Hl, Hnb.
  - intros E. congruence.
  - intros E. congruence.
Qed.

Lemma CalcBucketsFromSamples_frame h h' :
  mode_ h = AUTO_RANGE → CalcBucketsFromSamples h = Some h' →
  mode_ h' = HISTOGRAM ∧ num_buckets_ h' = num_buckets_ h ∧
  samples_ h' = samples_ h ∧ samples_capacity h' = samples_capacity h ∧
  next_event_index_ h' = next_event_index_ h ∧
  length (buckets_ h') = length (buckets_ h) ∧
  (start_ms_ h', end_ms_ h', bucket_dt_ms_ h') = auto_range h ∧
  count_ h' = Z.of_nat (length (samples_ h)).
Proof.
  intros Hm. unfold CalcBucketsFromSamples, CalcBucketsFromSamples_with.
  rewrite Hm. destruct (auto_range h) as [[s e] dt]. intros E.
  apply replay_HISTOGRAM_frame in E as [(E1&E2&E3&E4&E5&E6&E7&E8&E9) E10];
    [|reflexivity].
  simpl in *. repeat split; try assumption; try congruence.
Qed.

Lemma Add_wf h d h' : wf h → Add h d = Some h' → wf h'.
Proof.
  intros W E. destruct (mode_ h) eqn:Hm.
  - apply Add_with_HISTOGRAM_frame in E as [Hc _]; [|exact Hm].
    eapply same_config_wf; eassumption.
  - rewrite Add_AUTO_RANGE in E by exact Hm. cbv zeta in E.
    inv_bind E. injection E as <-.
    destruct W as [W1 W2 W3 W4]. specialize (W4 Hm).
    assert (Hcap : push_back_capacity (length (samples_ h)) (samples_capacity h)
                   = samples_capacity h).
    { unfold push_back_capacity. destruct (Nat.ltb_spec (length (samples_ h))
        (samples_capacity h)); [reflexivity | lia]. }
    simpl in Ha. rewrite Hcap, length_app in Ha. simpl in Ha.
    destruct (Nat.eqb_spec (length (samples_ h) + 1) (samples_capacity h)).
    + apply CalcBucketsFromSamples_frame in Ha
        as (E1 & E2 & E3 & E4 & E5 & E6 & _); [|exact Hm].
      simpl in *. split; simpl.
      * by rewrite E2.
      * by rewrite E6, E2.
      * intros ?; congruence.
      * intros ?; congruence.
    + injection Ha as <-. split; simpl; try assumption.
      * intros ?; congruence.
      * intros _. rewrite length_app. simpl. lia.
  - rewrite Add_EVENTS_ONLY in E by exact Hm.
    inv_bind E. injection E as <-.
    destruct W as [W1 W2 W3 W4]. destruct (W3 Hm) as [L I].
    split; simpl; try assumption.
    + intros _. rewrite length_insert. split; [exact L|].
      destruct (Nat.leb_spec (length (samples_ h)) (S (next_event_index_ h))); lia.
    + intros ?; congruence.
Qed.

Lemma Clear_wf h : wf h → wf (Clear h).
Proof.
  intros [W1 W2 W3 W4]. unfold Clear. simpl.
  destruct (mode_ h) eqn:Hm; split; simpl; rewrite ?Hm;
    rewrite ?length_replicate; try assumption; try (intros ?; congruence).
  - intros _. specialize (W4 eq_refl). simpl. lia.
  - intros _. destruct (W3 eq_refl) as [L I]. split; [exact L | lia].
Qed.

Lemma AddCounts_wf h cs : wf h → wf (AddCounts h cs).2.
Proof.
  intros W. unfold AddCounts. case_decide; simpl; [exact W|].
  destruct W as [W1 W2 W3 W4]. split; simpl; try assumption.
  rewrite length_zip_with. lia.
Qed.

Lemma reachable_wf h0 h : wf h0 → reachable h0 h → wf h.
Proof.
  intros W R. induction R.
  - exact W.
  - eapply Add_wf; eassumption.
  - by apply Clear_wf.
  - by apply AddCounts_wf.
Qed.

Lemma Adds_wf h ds h' : wf h → Adds h ds = Some h' → wf h'.
Proof.
  unfold Adds. revert h. induction ds as [|d ds IH]; intros h W E; simpl in E.
  - by injection E as <-.
  - inv_bind E. eapply IH; [|exact E]. eapply Add_wf; eassumption.
Qed.

End AddCases.

(** ** Bucket sums in HISTOGRAM mode *)

Lemma sum_buckets_insert bs (i : nat) b x :
  bs !! i = Some b → sum_buckets (<[i := x]> bs) = sum_buckets bs - b + x.
Proof.
  revert i. induction bs as [|a bs IH]; intros [|i] E; simpl in *;
    try discriminate.
  - injection E as ->. lia.
  - rewrite (IH i E). lia.
Qed.

Lemma sum_buckets_bound bs (i : nat) b :
  Forall (λ x, 0 <= x) bs → bs !! i = Some b → 0 <= b <= sum_buckets bs.
Proof.
  intros F. revert i. induction F as [|a bs Ha F IH]; intros [|i] E;
    simpl in *; try discriminate.
  - injection E as ->.
    assert (0 <= sum_buckets bs).
    { clear IH. induction F; simpl; [lia|]. unfold sum_buckets in *. lia. }
    unfold sum_buckets in *. lia.
  - specialize (IH i E). unfold sum_buckets in *. lia.
Qed.

Lemma sum_buckets_replicate n : sum_buckets (replicate n 0) = 0.
Proof. induction n; simpl; [reflexivity|]. unfold sum_buckets in *. simpl. lia. Qed.

Section FixedRange.
Context {C : Constants}.

(** One [Add] in HISTOGRAM mode adds one to one bucket and to [count_],
    as long as the bucket does not wrap around. *)
Lemma Add_HISTOGRAM_sum h d h' :
  mode_ h = HISTOGRAM →
  Forall (λ x, 0 <= x) (buckets_ h) →
  sum_buckets (buckets_ h) + 1 < 2 ^ 32 →
  Add h d = Some h' →
  sum_buckets (buckets_ h') = sum_buckets (buckets_ h) + 1 ∧
  count_ h' = count_ h + 1 ∧
  Forall (λ x, 0 <= x) (buckets_ h').
Proof.
  intros Hm F B E. unfold Add in E. rewrite Add_with_HISTOGRAM in E by exact Hm.
  inv_bind E. inv_bind E. injection E as <-. simpl.
  apply incr_bucket_Some in Ha0 as (b & Hk & Hb & ->).
  pose proof (sum_buckets_bound _ _ _ F Hb) as Hbb.
  rewrite (sum_buckets_insert _ _ _ _ Hb), u32_small by lia.
  split; [lia|]. split; [reflexivity|].
  apply Forall_insert; [exact F | lia].
Qed.

Lemma Adds_HISTOGRAM_sum h ds h' :
  mode_ h = HISTOGRAM →
  Forall (λ x, 0 <= x) (buckets_ h) →
  sum_buckets (buckets_ h) + Z.of_nat (length ds) < 2 ^ 32 →
  Adds h ds = Some h' →
  sum_buckets (buckets_ h') = sum_buckets (buckets_ h) + Z.of_nat (length ds) ∧
  count_ h' = count_ h + Z.of_nat (length ds).
Proof.
  unfold Adds. revert h. induction ds as [|d ds IH]; intros h Hm F B E;
    simpl in *.
  - injection E as <-. lia.
  - inv_bind E.
    destruct (Add_HISTOGRAM_sum _ _ _ Hm F ltac:(lia) Ha) as (S1 & C1 & F1).
    destruct (Add_with_HISTOGRAM_frame _ _ _ _ Hm Ha) as [(Hm' & _) _].
    destruct (IH a) as [S2 C2]; [congruence | exact F1 | lia | exact E |].
    lia.
Qed.

(** X1.  A histogram constructed in HISTOGRAM mode: after fewer than
    [2^32] calls of [Add] the buckets sum up to [count_], the number of
    calls. *)
Lemma fixed_range_sum_eq_count start_ms end_ms n ds h0 h :
  Histogram start_ms end_ms n false = Some h0 →
  mode_ h0 = HISTOGRAM →
  Z.of_nat (length ds) < 2 ^ 32 →
  Adds h0 ds = Some h →
  sum_buckets (buckets_ h) = count_ h ∧ count_ h = Z.of_nat (length ds).
Proof.
  intros E Hm B R.
  destruct (ctor_fields _ _ _ _ _ E) as (_ & _ & _ & _ & Hb & _ & _ & Hc & _).
  destruct (Adds_HISTOGRAM_sum h0 ds h Hm) as [S1 C1]; try assumption.
  - rewrite Hb. apply Forall_replicate. lia.
  - rewrite Hb, sum_buckets_replicate. lia.
  - rewrite Hb, sum_buckets_replicate in S1. lia.
Qed.

End FixedRange.

(** The lemma at [Histogram(0, 20, 5)] and the samples [-1, 19.9, 100]. *)
Lemma fixed_range_sum_eq_count_witness :
  ∃ h0 h,
    Histogram (C := run_constants) 0 20 5 false = Some h0 ∧
    Adds (C := run_constants) h0 [-1; 19.9; 100]%float = Some h ∧
    sum_buckets (buckets_ h) = count_ h ∧ count_ h = 3.
Proof.
  destruct (Histogram (C := run_constants) 0 20 5 false) as [h0|] eqn:E0;
    [|vm_compute in E0; discriminate E0].
  destruct (Adds (C := run_constants) h0 [-1; 19.9; 100]%float) as [h|] eqn:E;
    [|injection E0 as <-; vm_compute in E; discriminate E].
  exists h0, h. split; [reflexivity|]. split; [exact E|].
  apply (fixed_range_sum_eq_count (C := run_constants)
           0%float 20%float 5 [-1; 19.9; 100]%float h0 h E0).
  - injection E0 as <-. reflexivity.
  - simpl. lia.
  - exact E.
Defined.

(** C1.  The invariant [sum(buckets) == count] fails after the AUTO_RANGE
    transition: [Histogram(0, 0, 1)] has three buckets and a buffer of three
    samples; after [Add(1), Add(2), Add(3)] it is in HISTOGRAM mode, the
    three samples are in the buckets and [count_] is 4.
    [CalcBucketsFromSamples] counts the replayed samples from zero and the
    [Add] that called it counts its sample once more. *)
Theorem auto_range_count_exceeds_bucket_sum :
  ∃ h0 h,
    Histogram (C := run_constants) 0 0 1 false = Some h0 ∧
    mode_ h0 = AUTO_RANGE ∧
    Adds (C := run_constants) h0 [1; 2; 3]%float = Some h ∧
    mode_ h = HISTOGRAM ∧
    buckets_ h = [0; 3; 0] ∧
    sum_buckets (buckets_ h) = 3 ∧
    count_ h = 4.
Proof.
  eexists _, _. split; [reflexivity|]. split; [reflexivity|].
  split; [vm_compute; reflexivity|]. repeat split.
Qed.

(** C2.  [Histogram(0, 20, 5)] has a bucket width of 4 and seven buckets.
    The sample [-1] is below [start]; [Add(-1)] converts [-0.25] to the
    [int] 0 (the conversion discards the fraction, it does not round down
    to [-1]) and increments bucket 1, not bucket 0.  [Add(19.9)] and
    [Add(100)] increment buckets 5 and 6. *)
Theorem Add_below_start_increments_bucket_1 :
  ∃ h0 h1 h2 h3,
    Histogram (C := run_constants) 0 20 5 false = Some h0 ∧
    bucket_dt_ms_ h0 = 4%float ∧ num_buckets_ h0 = 7 ∧
    PrimFloat.ltb (-1) (start_ms_ h0) = true ∧
    int_of_double ((-1 - start_ms_ h0) / bucket_dt_ms_ h0)%float = Some 0 ∧
    Add (C := run_constants) h0 (-1)%float = Some h1 ∧
    buckets_ h1 = [0; 1; 0; 0; 0; 0; 0] ∧
    Add (C := run_constants) h0 19.9%float = Some h2 ∧
    buckets_ h2 = [0; 0; 0; 0; 0; 1; 0] ∧
    Add (C := run_constants) h0 100%float = Some h3 ∧
    buckets_ h3 = [0; 0; 0; 0; 0; 0; 1].
Proof.
  eexists _, _, _, _. split; [reflexivity|].
  repeat split; vm_compute; reflexivity.
Qed.

(** ** [AddCounts] *)

(** C4.  [AddCounts] with a vector whose size differs from that of
    [buckets_] returns [TFERROR_BAD_PARAMETER] and changes nothing; with a
    vector of the same size it returns [TFERROR_OK], adds each entry to
    the bucket at the same index ([uint32_t] addition) and changes nothing
    else. *)
Theorem AddCounts_spec (h : t) (counts : list Z) :
  (length counts ≠ length (buckets_ h) →
   AddCounts h counts = (TFERROR_BAD_PARAMETER, h)) ∧
  (length counts = length (buckets_ h) →
   (AddCounts h counts).1 = TFERROR_OK ∧
   (AddCounts h counts).2
     = set_buckets h (buckets_ (AddCounts h counts).2) ∧
   length (buckets_ (AddCounts h counts).2) = length (buckets_ h) ∧
   ∀ (i : nat) b c,
     buckets_ h !! i = Some b → counts !! i = Some c →
     buckets_ (AddCounts h counts).2 !! i = Some (u32 (b + c)) ∧
     (0 <= b + c < 2 ^ 32 →
      buckets_ (AddCounts h counts).2 !! i = Some (b + c))).
Proof.
  unfold AddCounts. split; intros Hlen.
  - rewrite decide_True by exact Hlen. reflexivity.
  - rewrite decide_False by (intros ?; contradiction). simpl.
    split; [reflexivity|]. split; [reflexivity|].
    split; [rewrite length_zip_with; lia|].
    intros i b c Hb Hc.
    assert (E : zip_with (λ c_orig c0, u32 (c_orig + c0)) (buckets_ h) counts !! i
                = Some (u32 (b + c))).
    { rewrite lookup_zip_with, Hb. simpl. rewrite Hc. reflexivity. }
    split; [exact E|]. intros R. rewrite E, u32_small by exact R. reflexivity.
Qed.

(** A histogram of seven buckets, as [Histogram(0, 20, 5)] builds it. *)
Definition seven_buckets : t :=
  mk HISTOGRAM 0%float 20%float 4%float 7 [0; 1; 0; 0; 0; 1; 1] [] 0%nat 3 0%nat.

(** The theorem at seven buckets and a vector of five, and of seven,
    counts. *)
Lemma AddCounts_spec_witness :
  AddCounts seven_buckets [1; 2; 3; 4; 5] = (TFERROR_BAD_PARAMETER, seven_buckets) ∧
  (AddCounts seven_buckets [1; 2; 3; 4; 5; 6; 7]).1 = TFERROR_OK ∧
  buckets_ (AddCounts seven_buckets [1; 2; 3; 4; 5; 6; 7]).2 !! 5%nat = Some 7.
Proof.
  split.
  - apply (AddCounts_spec seven_buckets [1; 2; 3; 4; 5]). simpl. lia.
  - destruct (AddCounts_spec seven_buckets [1; 2; 3; 4; 5; 6; 7]) as [_ H].
    destruct H as (Hok & _ & _ & Hadd); [reflexivity|].
    split; [exact Hok|].
    destruct (Hadd 5%nat 1 6) as [_ H56]; [reflexivity | reflexivity |].
    apply H56. lia.
Defined.

(** ** EVENTS_ONLY mode *)

Lemma mod_succ_wrap (m N : nat) :
  (0 < N)%nat →
  (S m mod N)%nat = if (N <=? S (m mod N))%nat then 0%nat else S (m mod N).
Proof.
  intros HN.
  pose proof (Nat.div_mod_eq m N) as Hm.
  pose proof (Nat.mod_upper_bound m N ltac:(lia)) as Hr.
  destruct (Nat.leb_spec N (S (m mod N))).
  - symmetry. apply (Nat.mod_unique _ _ (S (m / N))); lia.
  - symmetry. apply (Nat.mod_unique _ _ (m / N)); lia.
Qed.

Lemma mod_window_ne (i m N : nat) :
  (0 < N)%nat → (i < m)%nat → (m < i + N)%nat → (i mod N ≠ m mod N)%nat.
Proof.
  intros HN H1 H2 E.
  pose proof (Nat.div_mod_eq m N) as Hm.
  pose proof (Nat.div_mod_eq i N) as Hi.
  rewrite <- E in Hm.
  assert (i / N < m / N)%nat by nia.
  nia.
Qed.

Section EventsOnly.
Context {C : Constants}.

(** What a run of [Add] calls on a fresh EVENTS_ONLY histogram with a ring
    of [N] entries has done after the samples [ds]. *)
Definition ring_after (N : nat) (ds : list Sample) (h : t) : Prop :=
  mode_ h = EVENTS_ONLY ∧
  count_ h = Z.of_nat (length ds) ∧
  length (samples_ h) = N ∧
  next_event_index_ h = (length ds mod N)%nat ∧
  ∀ i : nat, (i < length ds)%nat → (length ds <= i + N)%nat →
             samples_ h !! (i mod N)%nat = ds !! i.

Lemma Add_ring_after N ds h d :
  (0 < N)%nat → ring_after N ds h →
  ∃ h', Add h d = Some h' ∧ ring_after N (ds ++ [d]) h'.
Proof.
  intros HN (Hm & Hc & Hl & Hi & Hs).
  pose proof (Nat.mod_upper_bound (length ds) N ltac:(lia)) as Hr.
  rewrite Add_EVENTS_ONLY by exact Hm.
  destruct (lookup_lt_is_Some_2 (samples_ h) (next_event_index_ h)) as [x Hx];
    [lia|].
  rewrite Hx. simpl. eexists. split; [reflexivity|].
  unfold ring_after. simpl. rewrite length_app, length_insert. simpl.
  split; [reflexivity|]. split; [lia|]. split; [exact Hl|]. split.
  - rewrite Hl, Hi. replace (length ds + 1)%nat with (S (length ds)) by lia.
    symmetry. apply mod_succ_wrap. exact HN.
  - intros i Hlt Hwin. rewrite Hi.
    destruct (decide (i = length ds)) as [->|Hne].
    + rewrite list_lookup_insert_eq by lia.
      rewrite lookup_app_r by lia. by rewrite Nat.sub_diag.
    + rewrite list_lookup_insert_ne
        by (apply not_eq_sym, mod_window_ne; lia).
      rewrite lookup_app_l by lia. apply Hs; lia.
Qed.

Lemma Adds_ring_after N h0 ds :
  (0 < N)%nat → ring_after N [] h0 →
  ∃ h, Adds h0 ds = Some h ∧ ring_after N ds h.
Proof.
  intros HN H0. induction ds as [|d ds IH] using rev_ind.
  - exists h0. split; [reflexivity | exact H0].
  - destruct IH as (h & E & R).
    destruct (Add_ring_after N ds h d HN R) as (h' & E' & R').
    exists h'. split; [|exact R']. rewrite Adds_snoc, E. exact E'.
Qed.

(** C5.  In EVENTS_ONLY mode [Add] writes the sample at the cursor,
    moves the cursor on and back to 0 at the end of the buffer, and adds one
    to [count_].  A fresh histogram, after the samples [ds]: [count_] is
    their number, and each of the last [num_buckets_] samples is in the
    buffer, sample [i] at position [i mod num_buckets_].  With three
    entries, [Add(1), Add(2), Add(3), Add(4)] leaves [4, 2, 3] and
    [count_ = 4]. *)
Theorem Add_EVENTS_ONLY_ring :
  (∀ h d,
     mode_ h = EVENTS_ONLY →
     (next_event_index_ h < length (samples_ h))%nat →
     ∃ h', Add h d = Some h' ∧
           samples_ h' = <[next_event_index_ h := d]> (samples_ h) ∧
           next_event_index_ h'
             = (if (length (samples_ h) <=? S (next_event_index_ h))%nat
                then 0%nat else S (next_event_index_ h)) ∧
           count_ h' = count_ h + 1 ∧
           buckets_ h' = buckets_ h ∧ mode_ h' = EVENTS_ONLY) ∧
  (∀ start_ms end_ms n h0 ds,
     Histogram start_ms end_ms n true = Some h0 →
     ∃ h, Adds h0 ds = Some h ∧
          count_ h = Z.of_nat (length ds) ∧
          length (samples_ h) = Z.to_nat (num_buckets_ h0) ∧
          ∀ i : nat,
            (i < length ds)%nat →
            (length ds <= i + Z.to_nat (num_buckets_ h0))%nat →
            samples_ h !! (i mod Z.to_nat (num_buckets_ h0))%nat = ds !! i) ∧
  (∃ h0 h,
     Histogram 0 0 1 true = Some h0 ∧ num_buckets_ h0 = 3 ∧
     samples_ h0 = [0; 0; 0]%float ∧
     Adds h0 [1; 2; 3; 4]%float = Some h ∧
     samples_ h = [4; 2; 3]%float ∧ count_ h = 4).
Proof.
  split; [|split].
  - intros h d Hm Hi. rewrite Add_EVENTS_ONLY by exact Hm.
    destruct (lookup_lt_is_Some_2 (samples_ h) (next_event_index_ h)) as [x Hx];
      [lia|].
    rewrite Hx. simpl. eexists. split; [reflexivity|]. repeat split.
  - intros start_ms end_ms n h0 ds E.
    destruct (ctor_num_buckets _ _ _ _ _ E) as [_ Hnb].
    destruct (ctor_fields _ _ _ _ _ E) as (Hm & _ & _ & _ & _ & Hs & _ & Hc & Hi).
    assert (Hm' : mode_ h0 = EVENTS_ONLY) by (rewrite Hm; reflexivity).
    rewrite decide_True in Hs by exact Hm'.
    destruct (Adds_ring_after (Z.to_nat (num_buckets_ h0)) h0 ds) as (h & R & A).
    { lia. }
    { unfold ring_after. rewrite Hs, Hc, Hi, length_replicate. simpl.
      split; [exact Hm'|]. split; [reflexivity|]. split; [reflexivity|].
      split; [symmetry; apply Nat.Div0.mod_0_l|].
      intros i Hlt. lia. }
    destruct A as (_ & Hcount & Hlen & _ & Hring).
    exists h. repeat split; assumption.
  - exists (mk EVENTS_ONLY 0%float 0%float 0%float 3 [0; 0; 0]
              [0; 0; 0]%float 3%nat 0 0%nat).
    exists (mk EVENTS_ONLY 0%float 0%float 0%float 3 [0; 0; 0]
              [4; 2; 3]%float 3%nat 4 1%nat).
    split; [vm_compute; reflexivity|].
    split; [reflexivity|]. split; [reflexivity|].
    split; [vm_compute; reflexivity|].
    split; reflexivity.
Qed.

End EventsOnly.

(** The theorem at a histogram with a buffer of three samples and at
    [Histogram(0, 20, 5, true)] after nine samples. *)
Lemma Add_EVENTS_ONLY_ring_witness :
  (∃ h', Add (C := run_constants)
           (mk EVENTS_ONLY 0%float 0%float 0%float 3 [0; 0; 0] [1; 2; 3]%float 3%nat 3 0%nat) 4%float
         = Some h' ∧ samples_ h' = [4; 2; 3]%float ∧ count_ h' = 4) ∧
  (∃ h0 h,
     Histogram (C := run_constants) 0 20 5 true = Some h0 ∧
     Adds (C := run_constants) h0 [1; 2; 3; 4; 5; 6; 7; 8; 9]%float = Some h ∧
     count_ h = 9 ∧ samples_ h !! 1%nat = Some 9%float).
Proof.
  destruct (Add_EVENTS_ONLY_ring (C := run_constants)) as (Hstep & Hrun & _).
  split.
  - destruct (Hstep (mk EVENTS_ONLY 0%float 0%float 0%float 3 [0; 0; 0] [1; 2; 3]%float 3%nat 3 0%nat)
                4%float) as (h' & E & Hs & _ & Hc & _).
    + reflexivity.
    + simpl. lia.
    + exists h'. split; [exact E|]. split; [exact Hs | exact Hc].
  - destruct (Histogram (C := run_constants) 0 20 5 true) as [h0|] eqn:E0;
      [|discriminate E0].
    destruct (Hrun 0%float 20%float 5 h0 [1; 2; 3; 4; 5; 6; 7; 8; 9]%float E0)
      as (h & E & Hc & _ & Hring).
    exists h0, h. split; [reflexivity|]. split; [exact E|]. split; [exact Hc|].
    injection E0 as <-. apply (Hring 8%nat); simpl; lia.
Defined.

(** ** The AUTO_RANGE transition *)

(** How many samples of [ds] the range of [h] sends to bucket [j]. *)
Definition occurrences (h : t) (j : Z) (ds : list Sample) : Z :=
  Z.of_nat (length (filter (λ x, bucket_of h x = Some j) ds)).

Lemma occurrences_nil h j : occurrences h j [] = 0.
Proof. reflexivity. Qed.

Lemma occurrences_cons h j d ds :
  occurrences h j (d :: ds)
  = (if decide (bucket_of h d = Some j) then 1 else 0) + occurrences h j ds.
Proof.
  unfold occurrences. rewrite filter_cons.
  destruct (decide (bucket_of h d = Some j)); simpl; lia.
Qed.

Lemma bucket_of_same_config h h' d :
  start_ms_ h' = start_ms_ h → bucket_dt_ms_ h' = bucket_dt_ms_ h →
  num_buckets_ h' = num_buckets_ h → bucket_of h' d = bucket_of h d.
Proof. unfold bucket_of. intros -> -> ->. reflexivity. Qed.

Lemma occurrences_same_config h h' j ds :
  start_ms_ h' = start_ms_ h → bucket_dt_ms_ h' = bucket_dt_ms_ h →
  num_buckets_ h' = num_buckets_ h → occurrences h' j ds = occurrences h j ds.
Proof.
  intros E1 E2 E3. induction ds as [|d ds IH]; [reflexivity|].
  rewrite !occurrences_cons, IH.
  by rewrite (bucket_of_same_config h h' d E1 E2 E3).
Qed.

Lemma u32_add_l a b : u32 (u32 a + b) = u32 (a + b).
Proof. unfold u32. apply Zplus_mod_idemp_l. Qed.

Section Transition.
Context {C : Constants}.

(** After a sequence of [Add] calls in HISTOGRAM mode every bucket has
    grown by the number of the samples that belong to it. *)
Lemma Adds_HISTOGRAM_buckets h ds h' :
  mode_ h = HISTOGRAM → Adds h ds = Some h' →
  ∀ (j : nat) b,
    buckets_ h !! j = Some b → 0 <= b < 2 ^ 32 →
    buckets_ h' !! j = Some (u32 (b + occurrences h (Z.of_nat j) ds)).
Proof.
  unfold Adds. revert h. induction ds as [|d ds IH]; intros h Hm E j b Hb Rb;
    simpl in E.
  - injection E as <-. rewrite occurrences_nil, Z.add_0_r, u32_small; done.
  - inv_bind E.
    destruct (Add_with_HISTOGRAM_frame _ _ _ _ Hm Ha)
      as [(Hm' & Hs & _ & Hdt & Hnb & _) _].
    rewrite occurrences_cons.
    rewrite <- (occurrences_same_config h a (Z.of_nat j) ds Hs Hdt Hnb).
    pose proof Ha as Ha'. unfold Add in Ha'.
    rewrite Add_with_HISTOGRAM in Ha' by exact Hm.
    inv_bind Ha'. inv_bind Ha'. injection Ha' as <-. simpl in *.
    apply incr_bucket_Some in Ha1 as (bk & Hk & Hbk & ->).
    rewrite Ha0.
    pose proof (λ H, IH _ H E) as IH'. specialize (IH' Hm). simpl in IH'.
    destruct (decide (Z.to_nat a0 = j)) as [<-|Hne].
    + rewrite decide_True by (f_equal; lia).
      assert (bk = b) as -> by congruence.
      rewrite (IH' (Z.to_nat a0) (u32 (b + 1))).
      * rewrite u32_add_l. f_equal. f_equal. lia.
      * apply list_lookup_insert_eq. by eapply lookup_lt_Some.
      * apply u32_range.
    + rewrite decide_False by (intros [= ->]; apply Hne; lia).
      rewrite (IH' j b); [f_equal | | exact Rb].
      by rewrite list_lookup_insert_ne.
Qed.

Lemma Adds_HISTOGRAM_defined h ds :
  wf h → mode_ h = HISTOGRAM →
  (∀ x, x ∈ ds → is_Some (bucket_of h x)) → is_Some (Adds h ds).
Proof.
  unfold Adds. revert h. induction ds as [|d ds IH]; intros h W Hm Hb; simpl.
  - eauto.
  - destruct (Hb d) as [k Hk]; [left|].
    assert (is_Some (Add h d)) as [h1 E].
    { unfold Add. rewrite Add_with_HISTOGRAM by exact Hm. rewrite Hk. simpl.
      destruct (incr_bucket_defined (buckets_ h) k) as [bs Hbs].
      - destruct W as [W1 W2 _ _].
        pose proof (bucket_of_range h d k ltac:(lia) Hk). lia.
      - rewrite Hbs. simpl. eauto. }
    rewrite E. simpl.
    destruct (Add_with_HISTOGRAM_frame _ _ _ _ Hm E)
      as [(Hm' & Hs & He & Hdt & Hnb & Hr) _].
    apply IH.
    + eapply Add_wf; eassumption.
    + congruence.
    + intros x Hx. rewrite (bucket_of_same_config h h1 x Hs Hdt Hnb).
      apply Hb. by right.
Qed.

(** Once in HISTOGRAM mode, a histogram stays there. *)
Lemma reachable_HISTOGRAM h0 h :
  mode_ h0 = HISTOGRAM → reachable h0 h → mode_ h = HISTOGRAM.
Proof.
  intros Hm R. induction R as [|h d h' R IH E|h R IH|h cs R IH].
  - exact Hm.
  - destruct (Add_with_HISTOGRAM_frame _ _ _ _ IH E) as [(Hm' & _) _]. congruence.
  - unfold Clear. simpl. rewrite IH. exact IH.
  - unfold AddCounts. case_decide; exact IH.
Qed.

(** The statistics of a batch in the words of the specification, on
    doubles: the sum of the samples and the sum of their squares, taken from
    the first sample on; the mean is the sum over the size; the standard
    deviation is the root of the mean square less the squared mean, a
    negative difference counting as 0. *)
Definition sum_of (ds : list Sample) : Sample :=
  foldl PrimFloat.add 0%float ds.

Definition sum_of_squares (ds : list Sample) : Sample :=
  foldl (λ acc d, acc + d * d)%float 0%float ds.

Definition mean_of (ds : list Sample) : Sample :=
  (sum_of ds / double_of_Z (Z.of_nat (length ds)))%float.

Definition stddev_of (ds : list Sample) : Sample :=
  let mean_square :=
    (sum_of_squares ds / double_of_Z (Z.of_nat (length ds)))%float in
  let var := (mean_square - mean_of ds * mean_of ds)%float in
  PrimFloat.sqrt (if PrimFloat.ltb var 0 then 0%float else var).

(** The range that the transition derives from the batch [ds] for [n]
    buckets, in the words of the specification: [mean ± k·stddev] with the
    lower bound raised to 0 when it is below, widened around the mean to
    the minimal bucket width. *)
Definition derived_range (n : Z) (ds : list Sample) : Sample * Sample * Sample :=
  let mean := mean_of ds in
  let stddev := stddev_of ds in
  let below := (mean - kAutoSizeNumStdDev * stddev)%float in
  let lo := if PrimFloat.ltb below 0 then 0%float else below in
  let hi := (mean + kAutoSizeNumStdDev * stddev)%float in
  let width := ((hi - lo) / double_of_Z (n - 2))%float in
  if PrimFloat.ltb width kAutoSizeMinBucketSizeMs then
    let w := (kAutoSizeMinBucketSizeMs * double_of_Z (n - 2))%float in
    ((mean - w / 2)%float, (mean + w / 2)%float, kAutoSizeMinBucketSizeMs)
  else (lo, hi, width).

(** The loop of [CalcBucketsFromSamples] computes these sums. *)
Lemma stats_sums (ds : list Sample) (a : Sample * Sample * Sample * Sample) :
  (foldl stats_step a ds).1.2 = foldl PrimFloat.add a.1.2 ds ∧
  (foldl stats_step a ds).2 = foldl (λ acc d, acc + d * d)%float a.2 ds.
Proof.
  revert a. induction ds as [|d ds IH]; intros a; [by split|].
  simpl. destruct (IH (stats_step a d)) as [-> ->].
  by destruct a as [[[min_dt max_dt] sum] sum2].
Qed.

Lemma batch_mean_spec (ds : list Sample) : batch_mean ds = mean_of ds.
Proof.
  unfold batch_mean, mean_of, sum_of, stats.
  pose proof (stats_sums ds (DBL_MAX, DBL_MIN, 0%float, 0%float)) as [E _].
  destruct (foldl stats_step _ ds) as [[[min_dt max_dt] sum] sum2].
  simpl in E. by rewrite E.
Qed.

Lemma batch_stddev_spec (ds : list Sample) : batch_stddev ds = stddev_of ds.
Proof.
  unfold batch_stddev, stddev_of, sum_of_squares. rewrite batch_mean_spec.
  unfold stats.
  pose proof (stats_sums ds (DBL_MAX, DBL_MIN, 0%float, 0%float)) as [_ E].
  destruct (foldl stats_step _ ds) as [[[min_dt max_dt] sum] sum2].
  simpl in E. by rewrite E.
Qed.

(** [CalcBucketsFromSamples] derives the range of the specification. *)
Lemma auto_range_derived (h : t) :
  auto_range h = derived_range (num_buckets_ h) (samples_ h).
Proof.
  unfold auto_range, derived_range, std_max.
  by rewrite batch_mean_spec, batch_stddev_spec.
Qed.

(** The histogram at the start of the replay. *)
Definition transitioned (h : t) (ds : list Sample) : t :=
  let '(lo, hi, width) := derived_range (num_buckets_ h) ds in
  mk HISTOGRAM lo hi width (num_buckets_ h) (buckets_ h) ds
     (samples_capacity h) 0 (next_event_index_ h).

Lemma Add_fills_buffer_eq h d :
  mode_ h = AUTO_RANGE → S (length (samples_ h)) = samples_capacity h →
  Add h d =
    (h' ← Adds (transitioned h (samples_ h ++ [d])) (samples_ h ++ [d]);
     Some (set_count h' (count_ h' + 1))).
Proof.
  intros Hm Hfull. rewrite Add_AUTO_RANGE by exact Hm. cbv zeta.
  assert (Hcap : push_back_capacity (length (samples_ h)) (samples_capacity h)
                 = samples_capacity h).
  { unfold push_back_capacity.
    destruct (Nat.ltb_spec (length (samples_ h)) (samples_capacity h));
      [reflexivity | lia]. }
  rewrite Hcap. simpl. rewrite length_app. simpl.
  replace (length (samples_ h) + 1 =? samples_capacity h)%nat with true
    by (symmetry; apply Nat.eqb_eq; lia).
  unfold CalcBucketsFromSamples, CalcBucketsFromSamples_with. simpl.
  rewrite Hm, auto_range_derived. unfold transitioned. simpl.
  destruct (derived_range _ _) as [[lo hi] width]. simpl.
  rewrite replay_nested_Adds by reflexivity. reflexivity.
Qed.


End Transition.




(** ** [Clear] *)

Section ClearFacts.
Context {C : Constants}.

(** What holds of every state that a histogram [h0], constructed outside
    EVENTS_ONLY mode, reaches: either it is in the mode and has the range of
    [h0], or [h0] was in AUTO_RANGE mode and the transition has happened. *)
Definition as_constructed (h0 h : t) : Prop :=
  num_buckets_ h = num_buckets_ h0 ∧
  length (buckets_ h) = length (buckets_ h0) ∧
  samples_capacity h = samples_capacity h0 ∧
  next_event_index_ h = next_event_index_ h0 ∧
  ((mode_ h = mode_ h0 ∧ start_ms_ h = start_ms_ h0 ∧
    end_ms_ h = end_ms_ h0 ∧ bucket_dt_ms_ h = bucket_dt_ms_ h0) ∨
   (mode_ h0 = AUTO_RANGE ∧ mode_ h = HISTOGRAM)).

Lemma reachable_as_constructed h0 h :
  wf h0 → mode_ h0 ≠ EVENTS_ONLY → reachable h0 h → as_constructed h0 h.
Proof.
  intros W0 Hne R.
  pose proof (reachable_wf h0 h W0 R) as W.
  induction R as [|h d h' R IH E|h R IH|h cs R IH].
  - unfold as_constructed. repeat split. left. repeat split.
  - pose proof (reachable_wf h0 h W0 R) as Wh.
    destruct (IH Wh) as (I1 & I2 & I3 & I4 & I5).
    destruct (mode_ h) eqn:Hm.
    + destruct (Add_with_HISTOGRAM_frame _ _ _ _ Hm E)
        as [(F1 & F2 & F3 & F4 & F5 & F6 & F7 & F8 & F9) _].
      unfold as_constructed. rewrite F1, F2, F3, F4, F5, F7, F8, F9.
      repeat split; try assumption. rewrite Hm. exact I5.
    + rewrite Add_AUTO_RANGE in E by exact Hm. cbv zeta in E.
      inv_bind E. injection E as <-.
      destruct Wh as [_ _ _ W4]. specialize (W4 Hm).
      assert (Hcap : push_back_capacity (length (samples_ h))
                       (samples_capacity h) = samples_capacity h).
      { unfold push_back_capacity.
        destruct (Nat.ltb_spec (length (samples_ h)) (samples_capacity h));
          [reflexivity | lia]. }
      simpl in Ha. rewrite Hcap in Ha.
      destruct (_ =? _)%nat.
      * apply CalcBucketsFromSamples_frame in Ha
          as (E1 & E2 & E3 & E4 & E5 & E6 & _); [|exact Hm].
        simpl in *. unfold as_constructed. simpl.
        rewrite E1, E2, E4, E5, E6.
        repeat split; try assumption. right. split; [|reflexivity].
        destruct I5 as [(M & _)|(M & M')]; congruence.
      * injection Ha as <-. unfold as_constructed. simpl.
        repeat split; try assumption. rewrite Hm. exact I5.
    + exfalso. destruct I5 as [(M & _)|(_ & M)]; congruence.
  - pose proof (reachable_wf h0 h W0 R) as Wh.
    destruct (IH Wh) as (I1 & I2 & I3 & I4 & I5).
    assert (Hm : mode_ h ≠ EVENTS_ONLY).
    { destruct I5 as [(M & _)|(_ & M)]; congruence. }
    unfold as_constructed, Clear. simpl.
    destruct (mode_ h) eqn:Hm'; simpl; rewrite ?Hm', ?length_replicate;
      try congruence; repeat split; assumption.
  - pose proof (reachable_wf h0 h W0 R) as Wh.
    destruct (IH Wh) as (I1 & I2 & I3 & I4 & I5).
    unfold AddCounts. case_decide; simpl.
    + repeat split; assumption.
    + unfold as_constructed. simpl. rewrite length_zip_with.
      repeat split; try assumption. lia.
Qed.

(** A cleared histogram that is still as constructed is the constructed
    histogram. *)
Lemma Clear_is_fresh start_ms end_ms n h0 h :
  Histogram start_ms end_ms n false = Some h0 →
  reachable h0 h → mode_ h = mode_ h0 → Clear h = h0.
Proof.
  intros E R Hm.
  pose proof (ctor_wf _ _ _ _ _ E) as W0.
  destruct (ctor_fields _ _ _ _ _ E)
    as (Hm0 & _ & _ & _ & Hb & Hs & Hcap & Hc & Hi).
  assert (Hne : mode_ h0 ≠ EVENTS_ONLY).
  { rewrite Hm0. unfold ctor_mode. simpl. by destruct (_ && _). }
  rewrite decide_False in Hs by exact Hne.
  destruct (reachable_as_constructed h0 h W0 Hne R) as (I1 & I2 & I3 & I4 & I5).
  destruct I5 as [(_ & P1 & P2 & P3)|(M1 & M2)]; [|congruence].
  assert (Clear h = mk (mode_ h) (start_ms_ h) (end_ms_ h) (bucket_dt_ms_ h)
                      (num_buckets_ h) (replicate (length (buckets_ h)) 0) []
                      (samples_capacity h) 0 (next_event_index_ h)) as ->.
  { unfold Clear, set_count, set_samples, set_next_event_index, set_buckets.
    simpl. destruct (mode_ h) eqn:Hmh; try reflexivity. congruence. }
  rewrite Hm, P1, P2, P3, I1, I2, I3, I4, Hb, length_replicate.
  clear Hm0 Hcap.
  destruct h0 as [m0 s0 e0 dt0 nb0 bs0 ss0 cap0 c0 i0]. simpl in *.
  by subst bs0 ss0 c0 i0.
Qed.

(** C6.  [Clear] sets every bucket and [count_] to zero and keeps the
    mode; in EVENTS_ONLY mode it fills the buffer with zeros and sets the
    cursor to 0, in the other modes it empties the buffer.  For a histogram
    constructed outside EVENTS_ONLY mode whose range has not been changed
    (it was constructed with a fixed range, or it is still in AUTO_RANGE
    mode: start, end and bucket width are then the constructed ones),
    [Clear] and then any sequence of [Add] calls gives the buckets of the
    constructed histogram after the same sequence. *)
Theorem Clear_spec (h : t) :
  buckets_ (Clear h) = replicate (length (buckets_ h)) 0 ∧
  count_ (Clear h) = 0 ∧
  mode_ (Clear h) = mode_ h ∧
  (mode_ h = EVENTS_ONLY →
   samples_ (Clear h) = replicate (length (samples_ h)) 0%float ∧
   next_event_index_ (Clear h) = 0%nat) ∧
  (mode_ h ≠ EVENTS_ONLY → samples_ (Clear h) = []) ∧
  (∀ start_ms end_ms n h0 ds,
     Histogram start_ms end_ms n false = Some h0 →
     reachable h0 h →
     mode_ h0 = HISTOGRAM ∨ mode_ h = AUTO_RANGE →
     (start_ms_ h = start_ms_ h0 ∧ end_ms_ h = end_ms_ h0 ∧
      bucket_dt_ms_ h = bucket_dt_ms_ h0) ∧
     buckets_ <$> Adds (Clear h) ds = buckets_ <$> Adds h0 ds).
Proof.
  split; [unfold Clear; simpl; by destruct (mode_ h)|].
  split; [reflexivity|]. split.
  { unfold Clear. simpl. destruct (mode_ h) eqn:E; simpl; exact E. }
  split.
  { intros Hm. unfold Clear. simpl. rewrite Hm. split; reflexivity. }
  split.
  { intros Hm. unfold Clear. simpl. destruct (mode_ h); [reflexivity..|done]. }
  intros start_ms end_ms n h0 ds E R Hfixed.
  pose proof (ctor_wf _ _ _ _ _ E) as W0.
  destruct (ctor_fields _ _ _ _ _ E) as (Hm0 & _).
  assert (Hne : mode_ h0 ≠ EVENTS_ONLY).
  { rewrite Hm0. unfold ctor_mode. simpl. by destruct (_ && _). }
  destruct (reachable_as_constructed h0 h W0 Hne R) as (_ & _ & _ & _ & I5).
  assert (Hm : mode_ h = mode_ h0).
  { destruct Hfixed as [H0|Hauto].
    - rewrite H0. by apply (reachable_HISTOGRAM h0).
    - destruct I5 as [(M & _)|(_ & M)]; congruence. }
  split.
  - destruct I5 as [(_ & P1 & P2 & P3)|(M1 & M2)]; [done | congruence].
  - by rewrite (Clear_is_fresh _ _ _ _ _ E R Hm).
Qed.

End ClearFacts.

(** The theorem at [Histogram(0, 20, 5)] after [Add(-1), Add(19.9),
    Add(100)], cleared, for the samples [7, 30]. *)
Lemma Clear_spec_witness :
  ∃ h0 h,
    Histogram (C := run_constants) 0 20 5 false = Some h0 ∧
    Adds (C := run_constants) h0 [-1; 19.9; 100]%float = Some h ∧
    buckets_ h = [0; 1; 0; 0; 0; 1; 1] ∧
    buckets_ (Clear h) = [0; 0; 0; 0; 0; 0; 0] ∧
    samples_ (Clear h) = [] ∧
    buckets_ <$> Adds (C := run_constants) (Clear h) [7; 30]%float
      = buckets_ <$> Adds (C := run_constants) h0 [7; 30]%float.
Proof.
  destruct (Histogram (C := run_constants) 0 20 5 false) as [h0|] eqn:E0;
    [|vm_compute in E0; discriminate E0].
  destruct (Adds (C := run_constants) h0 [-1; 19.9; 100]%float) as [h|] eqn:E;
    [|injection E0 as <-; vm_compute in E; discriminate E].
  exists h0, h. split; [reflexivity|]. split; [exact E|].
  assert (R : reachable (C := run_constants) h0 h).
  { clear E0. unfold Adds in E. simpl in E.
    apply bind_Some_inv in E as (h1 & E1 & E).
    apply bind_Some_inv in E as (h2 & E2 & E).
    apply bind_Some_inv in E as (h3 & E3 & E). injection E as <-.
    eapply reach_Add; [|exact E3]. eapply reach_Add; [|exact E2].
    eapply reach_Add; [|exact E1]. apply reach_init. }
  assert (Hb : buckets_ h = [0; 1; 0; 0; 0; 1; 1]).
  { injection E0 as <-. vm_compute in E. by injection E as <-. }
  assert (Hm : mode_ h = mode_ h0).
  { injection E0 as <-. vm_compute in E. by injection E as <-. }
  destruct (Clear_spec (C := run_constants) h) as (Hz & _ & _ & _ & Hs & Hrun).
  split; [exact Hb|]. split; [by rewrite Hz, Hb|]. split.
  - apply Hs. rewrite Hm. injection E0 as <-. discriminate.
  - refine (proj2 (Hrun 0%float 20%float 5 h0 [7; 30]%float E0 R _)).
    left. injection E0 as <-. reflexivity.
Defined.

(** After the AUTO_RANGE transition the condition of the last part fails
    and so does its conclusion: the cleared histogram buckets the next
    sample, the constructed one buffers it. *)
Remark Clear_after_transition :
  ∃ h0 h,
    Histogram (C := run_constants) 0 0 1 false = Some h0 ∧
    Adds (C := run_constants) h0 [1; 2; 3]%float = Some h ∧
    mode_ h0 = AUTO_RANGE ∧ mode_ (Clear h) = HISTOGRAM ∧
    buckets_ <$> Adds (C := run_constants) (Clear h) [2]%float
      = Some [0; 1; 0] ∧
    buckets_ <$> Adds (C := run_constants) h0 [2]%float = Some [0; 0; 0].
Proof.
  exists (mk AUTO_RANGE 0%float 0%float 0%float 3 [0; 0; 0] [] 3%nat 0 0%nat).
  eexists. split; [vm_compute; reflexivity|].
  split; [vm_compute; reflexivity|].
  repeat split; vm_compute; reflexivity.
Qed.

(** ** [ToDebugJSON] *)


Lemma append_assoc (s1 s2 s3 : string) :
  (s1 +:+ s2) +:+ s3 = s1 +:+ (s2 +:+ s3).
Proof.
  induction s1 as [|a s1 IH]; [reflexivity|].
  change (String a ((s1 +:+ s2) +:+ s3) = String a (s1 +:+ (s2 +:+ s3))).
  by rewrite IH.
Qed.

Lemma concat_cons_cons sep x y l :
  String.concat sep (x :: y :: l) = x +:+ sep +:+ String.concat sep (y :: l).
Proof. reflexivity. Qed.
















Lemma cnts_loop_concat pre xs y :
  ∃ s, cnts_loop (pre ++ xs ++ [y]) (length pre) (length xs) = Some s ∧
       s +:+ show_u32 y = String.concat "," (show_u32 <$> xs ++ [y]).
Proof.
  revert pre. induction xs as [|x xs IH]; intros pre.
  - exists EmptyString. split; reflexivity.
  - destruct (IH (pre ++ [x])) as (s & E & Hs).
    rewrite <- app_assoc, length_app in E. simpl in E.
    replace (length pre + 1)%nat with (S (length pre)) in E by lia.
    exists (show_u32 x +:+ "," +:+ s). split.
    + simpl cnts_loop.
      rewrite lookup_app_r by lia. rewrite Nat.sub_diag. simpl.
      rewrite E. reflexivity.
    + rewrite !append_assoc, Hs. simpl app. rewrite fmap_cons.
      destruct (show_u32 <$> xs ++ [y]) as [|z l] eqn:El.
      * apply fmap_nil_inv in El. by apply app_nil in El as [_ ?].
      * by rewrite concat_cons_cons.
Qed.






End HistogramSpec.

Module SwappyVkSpec.

Import SwappyVk.

Section General.
Context {Impl : Type}.
Variable doQueuePresent :
  Impl → VkQueue → Z → VkPresentInfoKHR → VkResult * Impl.

(** X2.  A queue that [SetQueueFamilyIndex] never registered: the result
    is [VK_INCOMPLETE], whatever the implementations would do, and nothing
    changes. *)
Lemma QueuePresent_unknown_queue (s : t Impl) queue info :
  perQueueFamilyIndex s !! queue = None →
  QueuePresent doQueuePresent s queue info = Some (VK_INCOMPLETE, s).
Proof. intros E. unfold QueuePresent. by rewrite E. Qed.

(** A registered queue and a swapchain that the map does not hold: the
    result is [VK_ERROR_DEVICE_LOST], no implementation is called, and the
    map has a null entry for the swapchain afterwards. *)
Lemma QueuePresent_unknown_swapchain (s : t Impl) queue qfi info sc rest :
  perQueueFamilyIndex s !! queue = Some qfi →
  pSwapchains info = Some (sc :: rest) →
  swapchainCount info ≠ 0 →
  perSwapchainImplementation s !! sc = None →
  QueuePresent doQueuePresent s queue info
  = Some (VK_ERROR_DEVICE_LOST,
          mk (perQueueFamilyIndex s)
             (<[sc := None]> (perSwapchainImplementation s))).
Proof.
  intros Eq Es Ec En. unfold QueuePresent. rewrite Eq.
  destruct (Z.eqb_spec (swapchainCount info) 0); [contradiction|].
  rewrite Es. simpl. unfold index_swapchain. by rewrite En.
Qed.

(** A swapchain whose entry is null: the same result, and no change. *)
Lemma QueuePresent_null_implementation (s : t Impl) queue qfi info sc rest :
  perQueueFamilyIndex s !! queue = Some qfi →
  pSwapchains info = Some (sc :: rest) →
  swapchainCount info ≠ 0 →
  perSwapchainImplementation s !! sc = Some None →
  QueuePresent doQueuePresent s queue info = Some (VK_ERROR_DEVICE_LOST, s).
Proof.
  intros Eq Es Ec En. unfold QueuePresent. rewrite Eq.
  destruct (Z.eqb_spec (swapchainCount info) 0); [contradiction|].
  rewrite Es. simpl. unfold index_swapchain. rewrite En. by destruct s.
Qed.

End General.

(** An implementation to run the code on: no state, every present
    succeeds, every swapchain belongs to device 1. *)
Definition present_ok (impl : unit) (queue : VkQueue) (index : Z)
    (info : VkPresentInfoKHR) : VkResult * unit := (VK_SUCCESS, impl).
Definition device_1 (impl : unit) : VkDevice := 1.

(** Queue 2 of device 1 is registered, no swapchain is. *)
Definition queue_only : t unit :=
  SetQueueFamilyIndex (mk ∅ ∅) 1 2 0.

(** The lemma at queue 3, which is not registered. *)
Lemma QueuePresent_unknown_queue_witness :
  QueuePresent present_ok queue_only 3 (mkPresentInfo 1 (Some [7]))
  = Some (VK_INCOMPLETE, queue_only).
Proof.
  apply QueuePresent_unknown_queue.
  unfold queue_only, SetQueueFamilyIndex. simpl.
  rewrite lookup_insert_ne by lia. apply lookup_empty.
Defined.

(** C8.  [QueuePresent] on a registered queue with the swapchain 7, for
    which nothing is registered, returns [VK_ERROR_DEVICE_LOST] and leaves
    a null entry for swapchain 7 in [perSwapchainImplementation]: the state
    has changed, and [DestroyDevice], which was defined before the call,
    now calls [getDevice] through the null entry. *)
Theorem QueuePresent_unknown_swapchain_changes_state :
  ∃ s1,
    QueuePresent present_ok queue_only 2 (mkPresentInfo 1 (Some [7]))
      = Some (VK_ERROR_DEVICE_LOST, s1) ∧
    VK_ERROR_DEVICE_LOST ≠ VK_SUCCESS ∧
    perSwapchainImplementation queue_only !! 7 = None ∧
    perSwapchainImplementation s1 !! 7 = Some None ∧
    s1 ≠ queue_only ∧
    is_Some (DestroyDevice device_1 queue_only 1) ∧
    DestroyDevice device_1 s1 1 = None.
Proof.
  eexists. split.
  { apply (QueuePresent_unknown_swapchain present_ok queue_only 2
             (mkQueueFamilyIndex 1 0) _ 7 []).
    - unfold queue_only, SetQueueFamilyIndex. simpl. apply lookup_insert_eq.
    - reflexivity.
    - simpl. lia.
    - apply lookup_empty. }
  split; [discriminate|]. split; [apply lookup_empty|].
  split; [simpl; apply lookup_insert_eq|]. split.
  { intros E. apply (f_equal (λ s, perSwapchainImplementation s !! 7)) in E.
    simpl in E. rewrite lookup_insert_eq, lookup_empty in E. discriminate E. }
  split.
  - unfold DestroyDevice, erase_swapchains_of. simpl.
    rewrite map_fold_empty. simpl. eauto.
  - vm_compute. reflexivity.
Qed.

End SwappyVkSpec.

Module SwappyGLSpec.

Import SwappyGL.

Section General.
Context {EGL Common : Type}.
Variable swapBuffers : EGL → EGLDisplay → EGLSurface → EGLBoolean.
Variable onPreSwap : EGL → EGLDisplay → Common → Common.
Variable needToSetPresentationTime : Common → bool.
Variable setPresentationTime :
  EGL → Common → EGLDisplay → EGLSurface → bool.
Variable onPostSwap : EGL → EGLDisplay → Common → Common.

(** Every failure of the constructor, and the system property, leaves
    the instance disabled. *)
Lemma constructor_disabled (egl_create : option EGL) (common : Common)
    (common_valid prop_disable : bool) :
  egl_create = None ∨ common_valid = false ∨ prop_disable = true →
  enabled (SwappyGL egl_create common common_valid prop_disable) = false.
Proof.
  unfold SwappyGL, enabled.
  destruct egl_create, common_valid, prop_disable; simpl; try reflexivity;
    intros [?|[?|?]]; discriminate.
Qed.

(** A disabled instance without EGL functions: [swap] calls
    [swapBuffers] through the null pointer. *)
Lemma swap_disabled_null_egl (s : t EGL Common) display surface :
  enabled s = false → mEgl s = None →
  swap swapBuffers onPreSwap needToSetPresentationTime setPresentationTime
    onPostSwap (Some s) display surface = None.
Proof.
  intros He Hegl. unfold swap, getEgl. by rewrite He, Hegl.
Qed.

End General.

(** A platform to run the code on: every [swapBuffers] succeeds, the
    pacing engine counts its calls and never sets a presentation time. *)
Definition swapBuffers_ok (egl : unit) (display : EGLDisplay)
    (surface : EGLSurface) : EGLBoolean := EGL_TRUE.
Definition count_call (egl : unit) (display : EGLDisplay) (calls : nat)
  : nat := S calls.
Definition never_set (calls : nat) : bool := false.
Definition set_time_ok (egl : unit) (calls : nat) (display : EGLDisplay)
    (surface : EGLSurface) : bool := true.

Definition run_swap : option (t unit nat) → EGLDisplay → EGLSurface →
                      option (bool * option (t unit nat)) :=
  swap swapBuffers_ok count_call never_set set_time_ok count_call.

(** C9.  [init] when [EGL::create] fails: [init] returns [false] and
    keeps the instance, which is disabled and has a null [mEgl]; [swap] on
    it is a call of [swapBuffers] through the null pointer, not a platform
    swap.  When the constructor fails later, or the system property
    disables Swappy, [swap] is the platform swap and the pacing engine is
    not entered; an enabled instance enters it. *)
Theorem swap_after_failed_EGL_load :
  ∃ s : t unit nat,
    init None None 0%nat true false = (false, Some s) ∧
    enabled s = false ∧ mEgl s = None ∧
    run_swap (Some s) 0 0 = None ∧
    run_swap (init None (Some tt) 0%nat false false).2 0 0
      = Some (true, (init None (Some tt) 0%nat false false).2) ∧
    run_swap (init None (Some tt) 0%nat true true).2 0 0
      = Some (true, (init None (Some tt) 0%nat true true).2) ∧
    run_swap (init None (Some tt) 0%nat true false).2 0 0
      = Some (true, Some (mk true (Some tt) 2%nat)).
Proof.
  eexists. split; [reflexivity|]. repeat split.
Qed.

End SwappyGLSpec.

(** ** More about [tuningfork::Histogram] *)

Module HistogramMore.

Import Histogram HistogramSpec.

Section Runs.
Context {C : Constants}.

(** X4.  One [Add] in HISTOGRAM mode: it is defined exactly when the
    sample has a bucket, and then it adds one ([uint32_t]) to that one
    bucket, which is inside [buckets_], adds one to [count_] and changes
    nothing else. *)
Theorem Add_HISTOGRAM_one_bucket (h : t) (d : Sample) :
  wf h → mode_ h = HISTOGRAM →
  (is_Some (Add h d) ↔ is_Some (bucket_of h d)) ∧
  ∀ h', Add h d = Some h' →
    ∃ (k : nat) b,
      bucket_of h d = Some (Z.of_nat k) ∧
      (k < length (buckets_ h))%nat ∧
      buckets_ h !! k = Some b ∧
      buckets_ h' = <[k := u32 (b + 1)]> (buckets_ h) ∧
      (∀ j : nat, j ≠ k → buckets_ h' !! j = buckets_ h !! j) ∧
      count_ h' = count_ h + 1 ∧
      same_config h h'.
Proof.
  intros W Hm. split.
  - unfold Add. rewrite Add_with_HISTOGRAM by exact Hm. split.
    + intros [h' E]. destruct (bucket_of h d); [eauto | discriminate E].
    + intros [k Hk]. rewrite Hk. simpl.
      destruct (incr_bucket_defined (buckets_ h) k) as [bs Hbs].
      * destruct W as [W1 W2 _ _].
        pose proof (bucket_of_range h d k ltac:(lia) Hk). lia.
      * rewrite Hbs. simpl. eauto.
  - intros h' E.
    destruct (Add_with_HISTOGRAM_frame _ _ _ _ Hm E) as [Hc Hn].
    unfold Add in E. rewrite Add_with_HISTOGRAM in E by exact Hm.
    inv_bind E. inv_bind E. injection E as <-.
    apply incr_bucket_Some in Ha0 as (b & Hk & Hb & ->).
    exists (Z.to_nat a), b. rewrite Z2Nat.id by exact Hk.
    split; [exact Ha|]. split; [by eapply lookup_lt_Some|].
    split; [exact Hb|]. split; [reflexivity|]. split.
    { intros j Hj. simpl. by rewrite list_lookup_insert_ne. }
    split; [exact Hn | exact Hc].
Qed.

(** What a run of [Add] calls on a fresh AUTO_RANGE histogram with room
    for [N] samples has done after the samples [ds]: either the samples are
    buffered and counted, or the transition has happened and [count_] is one
    ahead. *)
Definition auto_after (h0 : t) (ds : list Sample) (h : t) : Prop :=
  num_buckets_ h = num_buckets_ h0 ∧
  samples_capacity h = samples_capacity h0 ∧
  ((mode_ h = AUTO_RANGE ∧ samples_ h = ds ∧
    buckets_ h = buckets_ h0 ∧ count_ h = Z.of_nat (length ds) ∧
    start_ms_ h = start_ms_ h0 ∧ end_ms_ h = end_ms_ h0 ∧
    bucket_dt_ms_ h = bucket_dt_ms_ h0 ∧
    next_event_index_ h = next_event_index_ h0 ∧
    (length ds < samples_capacity h0)%nat) ∨
   (mode_ h = HISTOGRAM ∧ count_ h = Z.of_nat (length ds) + 1 ∧
    (samples_capacity h0 <= length ds)%nat)).

Lemma Add_auto_after h0 ds h d h' :
  auto_after h0 ds h → Add h d = Some h' → auto_after h0 (ds ++ [d]) h'.
Proof.
  intros (Hnb & Hcap & [(Hm & Hs & Hb & Hc & P1 & P2 & P3 & P4 & Hlen)
                       |(Hm & Hc & Hlen)]) E.
  - rewrite Add_AUTO_RANGE in E by exact Hm. cbv zeta in E.
    inv_bind E. injection E as <-.
    assert (Hpb : push_back_capacity (length (samples_ h)) (samples_capacity h)
                  = samples_capacity h).
    { unfold push_back_capacity. rewrite Hs, Hcap.
      destruct (Nat.ltb_spec (length ds) (samples_capacity h0));
        [reflexivity | lia]. }
    simpl in Ha. rewrite Hpb, length_app, Hs, Hcap in Ha. simpl in Ha.
    unfold auto_after. rewrite length_app. simpl.
    destruct (Nat.eqb_spec (length ds + 1) (samples_capacity h0)) as [Heq|Hne].
    + apply CalcBucketsFromSamples_frame in Ha
        as (E1 & E2 & E3 & E4 & _ & _ & _ & E8); [|exact Hm].
      simpl in *. rewrite length_app in E8. simpl in E8.
      split; [congruence|]. split; [congruence|]. right.
      split; [exact E1|]. split; [lia | lia].
    + injection Ha as <-. simpl.
      split; [exact Hnb|]. split; [reflexivity|]. left.
      repeat split; try assumption; try lia.
  - destruct (Add_with_HISTOGRAM_frame _ _ _ _ Hm E)
      as [(F1 & _ & _ & _ & F5 & _ & F7 & _) Fc].
    unfold auto_after. rewrite length_app. simpl.
    split; [congruence|]. split; [congruence|]. right.
    split; [congruence|]. split; lia.
Qed.

Lemma Adds_auto_after h0 ds h :
  auto_after h0 [] h0 → Adds h0 ds = Some h → auto_after h0 ds h.
Proof.
  intros H0. revert h. induction ds as [|d ds IH] using rev_ind; intros h E.
  - injection E as <-. exact H0.
  - rewrite Adds_snoc in E. inv_bind E.
    eapply Add_auto_after; [|exact E]. by apply IH.
Qed.

Lemma ctor_auto_after start_ms end_ms n never_bucket h0 :
  Histogram start_ms end_ms n never_bucket = Some h0 → mode_ h0 = AUTO_RANGE →
  auto_after h0 [] h0 ∧ samples_capacity h0 = Z.to_nat (num_buckets_ h0).
Proof.
  intros E Hm.
  destruct (ctor_num_buckets _ _ _ _ _ E) as [_ Hnb].
  destruct (ctor_fields _ _ _ _ _ E) as (_ & _ & _ & _ & _ & Hs & Hcap & Hc & _).
  rewrite decide_False in Hs by congruence.
  rewrite decide_False in Hcap by congruence.
  split; [|exact Hcap].
  unfold auto_after. split; [reflexivity|]. split; [reflexivity|]. left.
  rewrite Hs, Hc, Hcap. simpl. repeat split; try assumption. lia.
Qed.

(** X5.  A histogram constructed in AUTO_RANGE mode only buffers until
    the buffer is full: fewer samples than [num_buckets_], whatever their
    values, are all accepted and kept in order in [samples_]; no bucket and
    no range parameter changes, and [count_] is their number. *)
Theorem AUTO_RANGE_buffers_until_full
    (start_ms end_ms : float) (n : Z) (h0 : t) (ds : list Sample) :
  Histogram start_ms end_ms n false = Some h0 → mode_ h0 = AUTO_RANGE →
  Z.of_nat (length ds) < num_buckets_ h0 →
  ∃ h, Adds h0 ds = Some h ∧
       mode_ h = AUTO_RANGE ∧ samples_ h = ds ∧
       buckets_ h = replicate (Z.to_nat (num_buckets_ h0)) 0 ∧
       count_ h = Z.of_nat (length ds) ∧
       start_ms_ h = start_ms ∧ end_ms_ h = end_ms ∧
       bucket_dt_ms_ h = bucket_dt_ms_ h0.
Proof.
  intros E Hm Hlen.
  destruct (ctor_auto_after _ _ _ _ _ E Hm) as [H0 Hcap].
  destruct (ctor_fields _ _ _ _ _ E) as (_ & Hs & He & _ & Hb & _).
  assert (Hdef : ∃ h, Adds h0 ds = Some h).
  { revert Hlen. induction ds as [|d ds IH] using rev_ind; intros Hlen.
    - exists h0. reflexivity.
    - rewrite length_app in Hlen. simpl in Hlen.
      destruct IH as [h Eh]; [lia|].
      pose proof (Adds_auto_after h0 ds h H0 Eh)
        as (_ & Hc & [(Hmh & Hsh & _)|(_ & _ & Hge)]); [|lia].
      rewrite Adds_snoc, Eh. simpl.
      rewrite Add_AUTO_RANGE by exact Hmh. cbv zeta. simpl.
      rewrite length_app, Hsh, Hc. simpl.
      assert (Hpb : push_back_capacity (length ds) (samples_capacity h0)
                    = samples_capacity h0).
      { unfold push_back_capacity.
        destruct (Nat.ltb_spec (length ds) (samples_capacity h0));
          [reflexivity | lia]. }
      rewrite Hpb.
      destruct (Nat.eqb_spec (length ds + 1) (samples_capacity h0)); [lia|].
      simpl. eauto. }
  destruct Hdef as [h Eh]. exists h. split; [exact Eh|].
  pose proof (Adds_auto_after h0 ds h H0 Eh)
    as (_ & _ & [(Hmh & Hsh & Hbh & Hch & P1 & P2 & P3 & _)|(_ & _ & Hge)]);
    [|lia].
  repeat split; try assumption; congruence.
Qed.

(** X6.  [count_] after a run of [Add] calls on a constructed histogram:
    the number of calls, and one more once an AUTO_RANGE histogram has gone
    through its transition. *)
Theorem count_after_Adds
    (start_ms end_ms : float) (n : Z) (never_bucket : bool) (h0 h : t)
    (ds : list Sample) :
  Histogram start_ms end_ms n never_bucket = Some h0 →
  Adds h0 ds = Some h →
  count_ h
  = Z.of_nat (length ds) + (if decide (mode_ h = mode_ h0) then 0 else 1) ∧
  (mode_ h ≠ mode_ h0 →
   mode_ h0 = AUTO_RANGE ∧ mode_ h = HISTOGRAM ∧
   num_buckets_ h0 <= Z.of_nat (length ds)).
Proof.
  intros E R.
  destruct (ctor_fields _ _ _ _ _ E) as (Hm0 & _ & _ & _ & _ & Hs0 & _ & Hc0 & Hi0).
  destruct (ctor_num_buckets _ _ _ _ _ E) as [_ Hnb].
  destruct (mode_ h0) eqn:Hm.
  - unfold Adds in R.
    destruct (replay_HISTOGRAM_frame _ _ _ _ Hm R) as [(F1 & _) Fc].
    rewrite decide_True by congruence. split; [lia | congruence].
  - destruct (ctor_auto_after _ _ _ _ _ E Hm) as [H0 Hcap].
    pose proof (Adds_auto_after h0 ds h H0 R)
      as (_ & _ & [(Hmh & _ & _ & Hch & _)|(Hmh & Hch & Hge)]).
    + rewrite decide_True by congruence. split; [lia | congruence].
    + rewrite decide_False by congruence. split; [lia|].
      intros _. repeat split; [congruence | lia].
  - rewrite decide_True in Hs0 by reflexivity.
    destruct (Adds_ring_after (Z.to_nat (num_buckets_ h0)) h0 ds) as (h1 & R1 & A).
    { lia. }
    { unfold ring_after. rewrite Hs0, Hc0, Hi0, length_replicate. simpl.
      split; [exact Hm|]. split; [reflexivity|]. split; [reflexivity|].
      split; [symmetry; apply Nat.Div0.mod_0_l|].
      intros i Hlt. lia. }
    assert (h1 = h) as -> by congruence.
    destruct A as (Hmh & Hch & _).
    rewrite decide_True by congruence. split; [lia | congruence].
Qed.

Lemma Adds_HISTOGRAM_each_defined h ds h' :
  mode_ h = HISTOGRAM → Adds h ds = Some h' →
  ∀ x, x ∈ ds → is_Some (bucket_of h x).
Proof.
  unfold Adds. revert h. induction ds as [|d ds IH]; intros h Hm E x Hx.
  - by apply elem_of_nil in Hx.
  - simpl in E. inv_bind E.
    destruct (Add_with_HISTOGRAM_frame _ _ _ _ Hm Ha)
      as [(F1 & F2 & _ & F4 & F5 & _) _].
    apply elem_of_cons in Hx as [->|Hx].
    + unfold Add in Ha. rewrite Add_with_HISTOGRAM in Ha by exact Hm.
      destruct (bucket_of h d); [eauto | discriminate Ha].
    + rewrite <- (bucket_of_same_config h a x F2 F4 F5).
      apply (IH a); [congruence | exact E | exact Hx].
Qed.

Lemma occurrences_app h j ds1 ds2 :
  occurrences h j (ds1 ++ ds2) = occurrences h j ds1 + occurrences h j ds2.
Proof.
  unfold occurrences. rewrite filter_app, length_app. lia.
Qed.

Lemma u32_add_both a b : u32 (u32 a + u32 b) = u32 (a + b).
Proof. unfold u32. symmetry. apply Zplus_mod. Qed.

(** X7.  Merging with [AddCounts] is adding the samples: two histograms
    built alike in HISTOGRAM mode and fed [ds1] and [ds2]; [AddCounts] of the
    buckets of the second into the first succeeds and gives the buckets of
    a histogram fed [ds1 ++ ds2].  [count_] is not merged. *)
Theorem AddCounts_merges
    (start_ms end_ms : float) (n : Z) (h0 hA hB : t) (ds1 ds2 : list Sample) :
  Histogram start_ms end_ms n false = Some h0 → mode_ h0 = HISTOGRAM →
  Adds h0 ds1 = Some hA → Adds h0 ds2 = Some hB →
  ∃ hAB,
    Adds h0 (ds1 ++ ds2) = Some hAB ∧
    AddCounts hA (buckets_ hB) = (TFERROR_OK, set_buckets hA (buckets_ hAB)) ∧
    count_ (AddCounts hA (buckets_ hB)).2 = count_ hA.
Proof.
  intros E Hm EA EB.
  pose proof (ctor_wf _ _ _ _ _ E) as W0.
  destruct (ctor_fields _ _ _ _ _ E) as (_ & _ & _ & _ & Hb0 & _).
  pose proof EA as FA. unfold Adds in FA.
  apply (replay_HISTOGRAM_frame _ _ _ _ Hm) in FA
    as [(A1 & A2 & A3 & A4 & A5 & A6 & A7 & A8 & A9) _].
  pose proof EB as FB. unfold Adds in FB.
  apply (replay_HISTOGRAM_frame _ _ _ _ Hm) in FB
    as [(B1 & B2 & B3 & B4 & B5 & B6 & B7 & B8 & B9) _].
  assert (HmA : mode_ hA = HISTOGRAM) by congruence.
  destruct (Adds_HISTOGRAM_defined hA ds2) as [hAB EAB].
  { eapply Adds_wf; eassumption. }
  { exact HmA. }
  { intros x Hx. rewrite (bucket_of_same_config h0 hA x A2 A4 A5).
    by apply (Adds_HISTOGRAM_each_defined h0 ds2 hB). }
  exists hAB. split.
  { rewrite Adds_app, EA. exact EAB. }
  assert (Hzip : zip_with (λ c_orig c, u32 (c_orig + c)) (buckets_ hA) (buckets_ hB)
                 = buckets_ hAB).
  { pose proof EAB as FAB. unfold Adds in FAB.
    apply (replay_HISTOGRAM_frame _ _ _ _ HmA) in FAB as [(_&_&_&_&_&_&_&_& AB9) _].
    apply list_eq. intros j. rewrite lookup_zip_with.
    destruct (buckets_ h0 !! j) as [b0|] eqn:Hj.
    - assert (b0 = 0) as ->.
      { rewrite Hb0 in Hj. apply lookup_replicate in Hj as [-> _]. reflexivity. }
      rewrite (Adds_HISTOGRAM_buckets h0 ds1 hA Hm EA j 0 Hj) by lia.
      rewrite (Adds_HISTOGRAM_buckets h0 ds2 hB Hm EB j 0 Hj) by lia.
      simpl.
      assert (EAB0 : Adds h0 (ds1 ++ ds2) = Some hAB).
      { rewrite Adds_app, EA. exact EAB. }
      rewrite (Adds_HISTOGRAM_buckets h0 (ds1 ++ ds2) hAB Hm EAB0 j 0 Hj) by lia.
      rewrite occurrences_app, !Z.add_0_l, u32_add_both. reflexivity.
    - apply lookup_ge_None in Hj.
      rewrite (lookup_ge_None_2 (buckets_ hA)) by lia. simpl.
      symmetry. apply lookup_ge_None_2. lia. }
  unfold AddCounts.
  rewrite decide_False by (intros Hne; apply Hne; congruence).
  simpl. rewrite Hzip. split; reflexivity.
Qed.

End Runs.

(** Adding two vectors of counts, one after the other. *)
Lemma zip_add_commute (bs a b : list Z) :
  zip_with (λ c_orig c, u32 (c_orig + c))
    (zip_with (λ c_orig c, u32 (c_orig + c)) bs a) b
  = zip_with (λ c_orig c, u32 (c_orig + c))
      (zip_with (λ c_orig c, u32 (c_orig + c)) bs b) a.
Proof.
  apply list_eq. intros j. rewrite !lookup_zip_with.
  destruct (bs !! j) as [x|]; simpl; [|reflexivity].
  destruct (a !! j) as [y|], (b !! j) as [z|]; simpl; try reflexivity.
  rewrite !u32_add_l. f_equal. f_equal. lia.
Qed.

(** X8.  The order of two [AddCounts] calls does not matter, whatever
    the sizes of the two vectors: the histogram afterwards is the same, and
    each call returns the code it returns on its own. *)
Theorem AddCounts_commute (h : t) (a b : list Z) :
  (AddCounts (AddCounts h a).2 b).2 = (AddCounts (AddCounts h b).2 a).2 ∧
  (AddCounts (AddCounts h a).2 b).1 = (AddCounts h b).1.
Proof.
  unfold AddCounts.
  destruct (decide (length a ≠ length (buckets_ h))) as [Ha|Ha],
           (decide (length b ≠ length (buckets_ h))) as [Hb|Hb]; simpl.
  - rewrite !decide_True by assumption. split; reflexivity.
  - rewrite decide_False by assumption. simpl.
    rewrite decide_True by (rewrite length_zip_with; lia). split; reflexivity.
  - rewrite decide_True by (rewrite length_zip_with; lia).
    rewrite decide_False by assumption. split; reflexivity.
  - rewrite !decide_False by (rewrite length_zip_with; lia). simpl.
    unfold set_buckets. simpl. rewrite zip_add_commute. split; reflexivity.
Qed.

(** *** [operator==] *)

Lemma vector_eq_zeros n : vector_eq Z.eqb (replicate n 0) (replicate n 0) = true.
Proof. induction n as [|n IH]; simpl; [reflexivity | exact IH]. Qed.

Lemma vector_eq_float_zeros n :
  vector_eq PrimFloat.eqb (replicate n 0%float) (replicate n 0%float) = true.
Proof. induction n as [|n IH]; simpl; [reflexivity | exact IH]. Qed.

Lemma vector_eq_Z_refl (l : list Z) : vector_eq Z.eqb l l = true.
Proof.
  induction l as [|x l IH]; simpl; [reflexivity|].
  by rewrite Z.eqb_refl.
Qed.

Section Equality.
Context {C : Constants}.

Lemma Add_keeps_shape h d h' :
  wf h → Add h d = Some h' →
  num_buckets_ h' = num_buckets_ h ∧
  (mode_ h' = EVENTS_ONLY ↔ mode_ h = EVENTS_ONLY).
Proof.
  intros W E. destruct (mode_ h) eqn:Hm.
  - destruct (Add_with_HISTOGRAM_frame _ _ _ _ Hm E) as [(F1 & _ & _ & _ & F5 & _) _].
    split; [exact F5|]. rewrite F1, Hm. tauto.
  - rewrite Add_AUTO_RANGE in E by exact Hm. cbv zeta in E.
    inv_bind E. injection E as <-. simpl in *.
    destruct (_ =? _)%nat.
    + apply CalcBucketsFromSamples_frame in Ha as (E1 & E2 & _); [|exact Hm].
      simpl in *. split; [exact E2|]. rewrite E1. split; discriminate.
    + injection Ha as <-. simpl. split; [reflexivity|]. rewrite Hm. tauto.
  - rewrite Add_EVENTS_ONLY in E by exact Hm.
    inv_bind E. injection E as <-. simpl. split; [reflexivity | tauto].
Qed.

Lemma reachable_keeps_shape h0 h :
  wf h0 → reachable h0 h →
  num_buckets_ h = num_buckets_ h0 ∧
  (mode_ h = EVENTS_ONLY ↔ mode_ h0 = EVENTS_ONLY).
Proof.
  intros W0 R. induction R as [|h d h' R IH E|h R IH|h cs R IH].
  - split; [reflexivity | tauto].
  - pose proof (reachable_wf h0 h W0 R) as W.
    destruct (Add_keeps_shape h d h' W E) as [N M].
    destruct IH as [N0 M0]. split; [congruence | tauto].
  - destruct IH as [N0 M0]. unfold Clear. simpl.
    destruct (mode_ h) eqn:Hm; simpl; rewrite ?Hm; split; try assumption.
  - destruct IH as [N0 M0]. unfold AddCounts. case_decide; simpl;
      split; assumption.
Qed.

(** X9.  Under [operator==] a cleared histogram equals the histogram as
    it was constructed, in every mode and also after the AUTO_RANGE
    transition (whose range and mode [operator==] does not compare). *)
Theorem operator_eq_Clear
    (start_ms end_ms : float) (n : Z) (never_bucket : bool) (h0 h : t) :
  Histogram start_ms end_ms n never_bucket = Some h0 →
  reachable h0 h →
  operator_eq (Clear h) h0 = true.
Proof.
  intros E R.
  pose proof (ctor_wf _ _ _ _ _ E) as W0.
  pose proof (reachable_wf h0 h W0 R) as [W1 W2 W3 W4].
  destruct (reachable_keeps_shape h0 h W0 R) as [N M].
  destruct (ctor_fields _ _ _ _ _ E) as (_ & _ & _ & _ & Hb0 & Hs0 & _).
  unfold operator_eq. apply andb_true_iff. split.
  - assert (buckets_ (Clear h) = replicate (length (buckets_ h)) 0) as ->.
    { unfold Clear. simpl. by destruct (mode_ h). }
    rewrite Hb0, W2, N. apply vector_eq_zeros.
  - destruct (decide (mode_ h0 = EVENTS_ONLY)) as [M0|M0].
    + assert (Mh : mode_ h = EVENTS_ONLY) by tauto.
      destruct (W3 Mh) as [L _].
      assert (samples_ (Clear h) = replicate (length (samples_ h)) 0%float) as ->.
      { unfold Clear. simpl. by rewrite Mh. }
      rewrite Hs0, L, N. apply vector_eq_float_zeros.
    + assert (Mh : mode_ h ≠ EVENTS_ONLY) by tauto.
      assert (samples_ (Clear h) = []) as ->.
      { unfold Clear. simpl. destruct (mode_ h); [reflexivity..|done]. }
      rewrite Hs0. reflexivity.
Qed.

End Equality.

(** Comparisons of a [double] with itself. *)
Lemma SFltb_irrefl (x : spec_float) : SFltb x x = false.
Proof.
  unfold SFltb. destruct x as [sg|sg| |sg m e]; simpl; try reflexivity.
  - destruct sg; reflexivity.
  - rewrite Z.compare_refl.
    change (PosDef.Pos.compare_cont Eq m m) with (Pos.compare m m).
    rewrite Pos.compare_refl. destruct sg; reflexivity.
Qed.

Lemma ltb_irrefl (x : float) : PrimFloat.ltb x x = false.
Proof. rewrite FloatAxioms.ltb_spec. apply SFltb_irrefl. Qed.

Lemma SFeqb_refl_iff (x : spec_float) : SFeqb x x = true ↔ x ≠ S754_nan.
Proof.
  unfold SFeqb. destruct x as [sg|sg| |sg m e]; simpl.
  - split; [discriminate | reflexivity].
  - destruct sg; (split; [discriminate | reflexivity]).
  - split; [discriminate | congruence].
  - rewrite Z.compare_refl.
    change (PosDef.Pos.compare_cont Eq m m) with (Pos.compare m m).
    rewrite Pos.compare_refl.
    destruct sg; (split; [discriminate | reflexivity]).
Qed.

Lemma eqb_refl_iff (x : float) :
  PrimFloat.eqb x x = true ↔ Prim2SF x ≠ S754_nan.
Proof. rewrite FloatAxioms.eqb_spec. apply SFeqb_refl_iff. Qed.

(** X10.  [operator==] and NaN: a histogram equals itself exactly when
    no sample in its buffer is a NaN. *)
Theorem operator_eq_refl_iff (h : t) :
  operator_eq h h = true ↔
  Forall (λ x, Prim2SF x ≠ S754_nan) (samples_ h).
Proof.
  unfold operator_eq. rewrite vector_eq_Z_refl. simpl.
  induction (samples_ h) as [|x l IH]; simpl.
  - split; [constructor | reflexivity].
  - rewrite andb_true_iff, IH, Forall_cons, eqb_refl_iff. reflexivity.
Qed.

(** *** The bucket width after the transition *)

Section Width.
Context {C : Constants}.

Lemma derived_range_width (n : Z) (ds : list Sample) :
  PrimFloat.ltb (derived_range n ds).2 kAutoSizeMinBucketSizeMs = false.
Proof.
  unfold derived_range. cbv zeta.
  match goal with
  | |- context [if PrimFloat.ltb ?w ?k then _ else _] =>
      destruct (PrimFloat.ltb w k) eqn:E
  end; simpl.
  - apply ltb_irrefl.
  - exact E.
Qed.

Lemma reachable_HISTOGRAM_range (h0 h : t) :
  mode_ h0 = HISTOGRAM → reachable h0 h →
  start_ms_ h = start_ms_ h0 ∧ end_ms_ h = end_ms_ h0 ∧
  bucket_dt_ms_ h = bucket_dt_ms_ h0.
Proof.
  intros Hm R. induction R as [|h d h' R IH E|h R IH|h cs R IH].
  - repeat split.
  - pose proof (reachable_HISTOGRAM h0 h Hm R) as Hmh.
    destruct (Add_with_HISTOGRAM_frame _ _ _ _ Hmh E)
      as [(_ & F2 & F3 & F4 & _) _].
    destruct IH as (I1 & I2 & I3). repeat split; congruence.
  - unfold Clear. simpl. destruct (mode_ h); exact IH.
  - unfold AddCounts. case_decide; exact IH.
Qed.

(** X28.  The bucket width after the AUTO_RANGE transition is not below
    [kAutoSizeMinBucketSizeMs]: after the [Add] that fills the buffer, and
    after every [Add], [Clear] and [AddCounts] that follows, the histogram
    is in HISTOGRAM mode with the range that the transition derived, and
    [bucket_dt_ms_ < kAutoSizeMinBucketSizeMs] is false. *)
Theorem width_after_transition (h : t) (d : Sample) (h' h'' : t) :
  mode_ h = AUTO_RANGE → S (length (samples_ h)) = samples_capacity h →
  Add h d = Some h' → reachable h' h'' →
  mode_ h'' = HISTOGRAM ∧
  (start_ms_ h'', end_ms_ h'', bucket_dt_ms_ h'')
    = derived_range (num_buckets_ h) (samples_ h ++ [d]) ∧
  PrimFloat.ltb (bucket_dt_ms_ h'') kAutoSizeMinBucketSizeMs = false.
Proof.
  intros Hm Hfull E R.
  rewrite Add_fills_buffer_eq in E by assumption.
  inv_bind E. injection E as <-.
  assert (Hm0 : mode_ (transitioned h (samples_ h ++ [d])) = HISTOGRAM).
  { unfold transitioned. by destruct (derived_range _ _) as [[? ?] ?]. }
  unfold Adds in Ha.
  destruct (replay_HISTOGRAM_frame _ _ _ _ Hm0 Ha)
    as [(F1 & F2 & F3 & F4 & _) _].
  assert (Hm' : mode_ (set_count a (count_ a + 1)) = HISTOGRAM)
    by (simpl; congruence).
  destruct (reachable_HISTOGRAM_range _ _ Hm' R) as (R1 & R2 & R3).
  simpl in R1, R2, R3.
  assert (Hr : (start_ms_ h'', end_ms_ h'', bucket_dt_ms_ h'')
               = derived_range (num_buckets_ h) (samples_ h ++ [d])).
  { rewrite R1, R2, R3, F2, F3, F4. unfold transitioned.
    by destruct (derived_range _ _) as [[? ?] ?]. }
  split; [by apply (reachable_HISTOGRAM _ _ Hm' R)|]. split; [exact Hr|].
  pose proof (derived_range_width (num_buckets_ h) (samples_ h ++ [d])) as Hw.
  rewrite <- Hr in Hw. exact Hw.
Qed.

End Width.

(** *** No access outside the vectors *)

Lemma ToDebugJSON_defined nan_minus (h : t) :
  wf h → is_Some (ToDebugJSON nan_minus h).
Proof.
  intros [W1 W2 W3 W4]. unfold ToDebugJSON.
  destruct (decide (mode_ h ≠ HISTOGRAM)); [eauto|].
  destruct (last (buckets_ h)) as [y|] eqn:El.
  2:{ apply last_None in El. rewrite El in W2. simpl in W2. lia. }
  apply last_Some in El as [xs El].
  destruct (cnts_loop_concat [] xs y) as (s & E & _). simpl in E.
  assert (Hn : Z.to_nat (num_buckets_ h - 1) = length xs).
  { rewrite El, length_app in W2. simpl in W2. lia. }
  rewrite Hn, El, E. simpl mbind.
  destruct (0 <? num_buckets_ h); simpl; eauto.
Qed.

Section Safety.
Context {C : Constants}.

(** X11.  No member function leaves the vectors: every state that a
    constructed histogram reaches keeps [buckets_.size() == num_buckets_]
    and the number of buckets it was constructed with; [ToDebugJSON] is
    defined there; [Add] is defined for every sample in EVENTS_ONLY mode,
    and in AUTO_RANGE mode the buffer is never full when [Add] is
    entered. *)
Theorem reachable_in_bounds
    (start_ms end_ms : float) (n : Z) (never_bucket : bool) (h0 h : t) :
  Histogram start_ms end_ms n never_bucket = Some h0 →
  reachable h0 h →
  num_buckets_ h = num_buckets_ h0 ∧
  length (buckets_ h) = Z.to_nat (num_buckets_ h0) ∧
  (∀ nan_minus, is_Some (ToDebugJSON nan_minus h)) ∧
  (mode_ h = EVENTS_ONLY →
   length (samples_ h) = Z.to_nat (num_buckets_ h0) ∧
   (next_event_index_ h < length (samples_ h))%nat ∧
   ∀ d, is_Some (Add h d)) ∧
  (mode_ h = AUTO_RANGE →
   (length (samples_ h) < samples_capacity h)%nat).
Proof.
  intros E R.
  pose proof (ctor_wf _ _ _ _ _ E) as W0.
  pose proof (reachable_wf h0 h W0 R) as W.
  destruct (reachable_keeps_shape h0 h W0 R) as [N _].
  pose proof W as [W1 W2 W3 W4].
  split; [exact N|]. split; [by rewrite W2, N|].
  split; [by intros ?; apply ToDebugJSON_defined|]. split; [|exact W4].
  intros Hm. destruct (W3 Hm) as [L I].
  split; [by rewrite L, N|]. split; [exact I|].
  intros d. rewrite Add_EVENTS_ONLY by exact Hm.
  destruct (lookup_lt_is_Some_2 (samples_ h) (next_event_index_ h) I) as [x Hx].
  rewrite Hx. simpl. eauto.
Qed.

End Safety.

(** *** The theorems at [Histogram(0, 20, 5)] and [Histogram(0, 0, 5)] *)

(** [Histogram(0, 20, 5)] as constructed. *)
Definition fixed_0_20_5 : t :=
  mk HISTOGRAM 0%float 20%float 4%float 7 [0; 0; 0; 0; 0; 0; 0] [] 0%nat 0
     0%nat.

(** [Histogram(0, 0, 5)] as constructed. *)
Definition auto_5 : t :=
  mk AUTO_RANGE 0%float 0%float 0%float 7 [0; 0; 0; 0; 0; 0; 0] [] 7%nat 0
     0%nat.

Lemma fixed_0_20_5_ctor :
  Histogram (C := run_constants) 0 20 5 false = Some fixed_0_20_5.
Proof. vm_compute. reflexivity. Qed.

Lemma auto_5_ctor : Histogram (C := run_constants) 0 0 5 false = Some auto_5.
Proof. vm_compute. reflexivity. Qed.

Lemma fixed_0_20_5_wf : wf fixed_0_20_5.
Proof. exact (ctor_wf (C := run_constants) _ _ _ _ _ fixed_0_20_5_ctor). Qed.

Lemma Add_HISTOGRAM_one_bucket_witness :
  ∃ h', Add (C := run_constants) fixed_0_20_5 9.5%float = Some h' ∧
        buckets_ h' = [0; 0; 0; 1; 0; 0; 0] ∧ count_ h' = 1.
Proof.
  destruct (Add_HISTOGRAM_one_bucket (C := run_constants) fixed_0_20_5 9.5%float
              fixed_0_20_5_wf eq_refl) as [Hdef Hpost].
  destruct (proj2 Hdef) as [h' E]; [vm_compute; eauto|].
  exists h'. split; [exact E|].
  destruct (Hpost h' E) as (k & b & Hk & _ & Hb & Hbs & _ & Hc & _).
  assert (k = 3%nat) as ->.
  { assert (Hk' : bucket_of fixed_0_20_5 9.5%float = Some 3)
      by (vm_compute; reflexivity).
    rewrite Hk' in Hk. injection Hk as Hk. lia. }
  simpl in Hb. injection Hb as <-.
  split; [rewrite Hbs; reflexivity | exact Hc].
Defined.

Lemma AUTO_RANGE_buffers_until_full_witness :
  ∃ h, Adds (C := run_constants) auto_5 [3; 1; 4; 1; 5; 9]%float = Some h ∧
       mode_ h = AUTO_RANGE ∧ samples_ h = [3; 1; 4; 1; 5; 9]%float ∧
       buckets_ h = [0; 0; 0; 0; 0; 0; 0] ∧ count_ h = 6.
Proof.
  destruct (AUTO_RANGE_buffers_until_full (C := run_constants) 0%float 0%float 5
              auto_5 [3; 1; 4; 1; 5; 9]%float auto_5_ctor eq_refl)
    as (h & E & Hm & Hs & Hb & Hc & _).
  { simpl. lia. }
  exists h. repeat split; assumption.
Defined.

Lemma count_after_Adds_witness :
  ∃ h, Adds (C := run_constants) auto_5 [3; 1; 4; 1; 5; 9; 2; 6]%float = Some h ∧
       mode_ h = HISTOGRAM ∧ count_ h = 9.
Proof.
  destruct (Adds (C := run_constants) auto_5 [3; 1; 4; 1; 5; 9; 2; 6]%float)
    as [h|] eqn:E; [|vm_compute in E; discriminate E].
  exists h. split; [reflexivity|].
  assert (Hm : mode_ h = HISTOGRAM).
  { vm_compute in E. by injection E as <-. }
  split; [exact Hm|].
  destruct (count_after_Adds (C := run_constants) 0%float 0%float 5 false auto_5 h
              [3; 1; 4; 1; 5; 9; 2; 6]%float auto_5_ctor E) as [Hc _].
  rewrite Hc, Hm. reflexivity.
Defined.

Lemma AddCounts_merges_witness :
  ∃ hA hB hAB,
    Adds (C := run_constants) fixed_0_20_5 [1; 9.5]%float = Some hA ∧
    Adds (C := run_constants) fixed_0_20_5 [10; 25]%float = Some hB ∧
    Adds (C := run_constants) fixed_0_20_5 [1; 9.5; 10; 25]%float = Some hAB ∧
    buckets_ (AddCounts hA (buckets_ hB)).2 = buckets_ hAB.
Proof.
  destruct (Adds (C := run_constants) fixed_0_20_5 [1; 9.5]%float)
    as [hA|] eqn:EA; [|vm_compute in EA; discriminate EA].
  destruct (Adds (C := run_constants) fixed_0_20_5 [10; 25]%float)
    as [hB|] eqn:EB; [|vm_compute in EB; discriminate EB].
  destruct (AddCounts_merges (C := run_constants) 0%float 20%float 5
              fixed_0_20_5 hA hB [1; 9.5]%float [10; 25]%float
              fixed_0_20_5_ctor eq_refl EA EB) as (hAB & EAB & Hmerge & _).
  exists hA, hB, hAB. split; [reflexivity|]. split; [reflexivity|].
  split; [exact EAB|]. by rewrite Hmerge.
Defined.

Lemma Adds_reachable {C : Constants} (h0 h : t) (ds : list Sample) (h' : t) :
  reachable h0 h → Adds h ds = Some h' → reachable h0 h'.
Proof.
  unfold Adds. revert h. induction ds as [|d ds IH]; intros h R E; simpl in E.
  - by injection E as <-.
  - inv_bind E. eapply IH; [|exact E]. eapply reach_Add; eassumption.
Qed.

Lemma operator_eq_Clear_witness :
  ∃ h, Adds (C := run_constants) auto_5 [3; 1; 4; 1; 5; 9; 2; 6]%float = Some h ∧
       operator_eq (Clear h) auto_5 = true.
Proof.
  destruct (Adds (C := run_constants) auto_5 [3; 1; 4; 1; 5; 9; 2; 6]%float)
    as [h|] eqn:E; [|vm_compute in E; discriminate E].
  exists h. split; [reflexivity|].
  apply (operator_eq_Clear (C := run_constants) 0%float 0%float 5 false auto_5 h
           auto_5_ctor).
  exact (Adds_reachable (C := run_constants) auto_5 auto_5 _ h (reach_init _) E).
Defined.

(** [Histogram(0, 0, 1)] after [Add(1)] and [Add(2)]: one sample short
    of the transition. *)
Definition auto_1_two_samples : t :=
  mk AUTO_RANGE 0%float 0%float 0%float 3 [0; 0; 0] [1%float; 2%float] 3%nat 2
     0%nat.

Lemma width_after_transition_witness :
  ∃ h',
    Add (C := run_constants) auto_1_two_samples 3%float = Some h' ∧
    mode_ (Clear h') = HISTOGRAM ∧
    PrimFloat.ltb (bucket_dt_ms_ (Clear h')) 0.1%float = false.
Proof.
  destruct (Add (C := run_constants) auto_1_two_samples 3%float)
    as [h'|] eqn:E; [|vm_compute in E; discriminate E].
  exists h'. split; [reflexivity|].
  destruct (width_after_transition (C := run_constants) auto_1_two_samples
              3%float h' (Clear h') eq_refl eq_refl E)
    as (Hm & _ & Hw).
  { apply reach_Clear, reach_init. }
  split; [exact Hm | exact Hw].
Defined.

Lemma reachable_in_bounds_witness :
  is_Some (ToDebugJSON (λ _, false) (Clear fixed_0_20_5)) ∧
  length (buckets_ (Clear fixed_0_20_5)) = 7%nat.
Proof.
  destruct (reachable_in_bounds (C := run_constants) 0%float 20%float 5 false
              fixed_0_20_5 (Clear fixed_0_20_5) fixed_0_20_5_ctor)
    as (_ & Hl & Hj & _).
  { apply reach_Clear, reach_init. }
  split; [exact (Hj (λ _, false)) | exact Hl].
Defined.

End HistogramMore.

(** ** SwappyVk: the other member functions *)

Module SwappyVkMore.

Import SwappyVk SwappyVkSpec.

Section Maps.
Context {Impl : Type}.
Variable getDevice : Impl → VkDevice.

Abbreviation swapchains := (gmap VkSwapchainKHR (option Impl)).

Definition no_null (m : swapchains) : Prop :=
  map_Forall (λ _ p, is_Some p) m.

#[global] Instance no_null_dec (m : swapchains) : Decision (no_null m).
Proof. unfold no_null. apply _. Defined.

(** The loop of [DestroyDevice] over [m] with the map [m0] in hand. *)
Lemma erase_loop (dev : VkDevice) (m0 m : swapchains) :
  match
    map_fold
      (λ swapchain (p : option Impl) acc,
         acc ← acc;
         impl ← p;
         Some (if getDevice impl =? dev then delete swapchain acc else acc))
      (Some m0) m
  with
  | Some m' =>
      no_null m ∧
      ∀ sc, m' !! sc =
            match m !! sc with
            | Some (Some impl) =>
                if getDevice impl =? dev then None else m0 !! sc
            | _ => m0 !! sc
            end
  | None => ¬ no_null m
  end.
Proof.
  apply (map_fold_weak_ind
    (λ (r : option swapchains) (m : swapchains),
       match r with
       | Some m' =>
           no_null m ∧
           ∀ sc, m' !! sc =
                 match m !! sc with
                 | Some (Some impl) =>
                     if getDevice impl =? dev then None else m0 !! sc
                 | _ => m0 !! sc
                 end
       | None => ¬ no_null m
       end)).
  - split; [apply map_Forall_empty|]. intros sc. by rewrite lookup_empty.
  - intros i x m1 r Hi IH. unfold no_null in *.
    destruct r as [m'|]; simpl.
    + destruct IH as [Hall IH]. destruct x as [impl|]; simpl.
      * split.
        { apply map_Forall_insert; [exact Hi|]. split; [eauto | exact Hall]. }
        intros sc. destruct (decide (sc = i)) as [->|Hne].
        -- rewrite lookup_insert_eq.
           destruct (getDevice impl =? dev).
           ++ apply lookup_delete_eq.
           ++ rewrite IH, Hi. reflexivity.
        -- rewrite lookup_insert_ne by congruence.
           destruct (getDevice impl =? dev).
           ++ rewrite lookup_delete_ne by congruence. apply IH.
           ++ apply IH.
      * intros Hins. apply map_Forall_insert in Hins; [|exact Hi].
        destruct Hins as [[? Hx] _]. discriminate Hx.
    + intros Hins. apply map_Forall_insert in Hins; [|exact Hi].
      destruct Hins as [_ Hins]. by apply IH.
Qed.

(** What [DestroyDevice] leaves in the two maps. *)
Lemma DestroyDevice_lookup (s s' : t Impl) (dev : VkDevice) :
  DestroyDevice getDevice s dev = Some s' →
  no_null (perSwapchainImplementation s) ∧
  (∀ sc, perSwapchainImplementation s' !! sc =
         match perSwapchainImplementation s !! sc with
         | Some (Some impl) =>
             if getDevice impl =? dev then None else Some (Some impl)
         | _ => None
         end) ∧
  (∀ queue, perQueueFamilyIndex s' !! queue =
            match perQueueFamilyIndex s !! queue with
            | Some qfi => if device qfi =? dev then None else Some qfi
            | None => None
            end).
Proof.
  pose proof (erase_loop dev (perSwapchainImplementation s)
                (perSwapchainImplementation s)) as L.
  unfold DestroyDevice, erase_swapchains_of.
  destruct (map_fold _ _ _) as [m'|]; simpl; [|discriminate].
  destruct L as [Hall L]. intros E. injection E as <-. simpl.
  split; [exact Hall|]. split.
  - intros sc. rewrite L.
    destruct (perSwapchainImplementation s !! sc) as [[impl|]|] eqn:El;
      try reflexivity.
    destruct (Hall sc None El) as [? Hx]. discriminate Hx.
  - intros queue. rewrite map_lookup_filter.
    destruct (perQueueFamilyIndex s !! queue) as [qfi|]; simpl;
      [|reflexivity].
    destruct (Z.eqb_spec (device qfi) dev) as [Hd|Hd].
    + by rewrite option_guard_False by (simpl; tauto).
    + by rewrite option_guard_True by (simpl; tauto).
Qed.

Lemma DestroyDevice_null_entry (s : t Impl) (dev : VkDevice) :
  ¬ no_null (perSwapchainImplementation s) →
  DestroyDevice getDevice s dev = None.
Proof.
  intros Hn.
  pose proof (erase_loop dev (perSwapchainImplementation s)
                (perSwapchainImplementation s)) as L.
  unfold DestroyDevice, erase_swapchains_of.
  destruct (map_fold _ _ _) as [m'|]; simpl; [|reflexivity].
  destruct L as [Hall _]. contradiction.
Qed.

(** X12.  [DestroyDevice] is defined exactly when no entry of the
    swapchain map is null.  It then removes the swapchains whose
    implementation reports the device and the queues registered for the
    device, and leaves every other entry of both maps as it was. *)
Theorem DestroyDevice_spec (s : t Impl) (dev : VkDevice) :
  (is_Some (DestroyDevice getDevice s dev)
   ↔ no_null (perSwapchainImplementation s)) ∧
  ∀ s', DestroyDevice getDevice s dev = Some s' →
    (∀ sc, perSwapchainImplementation s' !! sc =
           match perSwapchainImplementation s !! sc with
           | Some (Some impl) =>
               if getDevice impl =? dev then None else Some (Some impl)
           | _ => None
           end) ∧
    (∀ queue, perQueueFamilyIndex s' !! queue =
              match perQueueFamilyIndex s !! queue with
              | Some qfi => if device qfi =? dev then None else Some qfi
              | None => None
              end).
Proof.
  split.
  - split.
    + intros [s' E]. by destruct (DestroyDevice_lookup s s' dev E).
    + intros Hall.
      destruct (DestroyDevice getDevice s dev) as [s'|] eqn:E; [eauto|].
      exfalso. revert E.
      pose proof (erase_loop dev (perSwapchainImplementation s)
                    (perSwapchainImplementation s)) as L.
      unfold DestroyDevice, erase_swapchains_of.
      destruct (map_fold _ _ _) as [m'|]; simpl; [discriminate|].
      contradiction.
  - intros s' E. by destruct (DestroyDevice_lookup s s' dev E) as (_ & ? & ?).
Qed.

(** The [for] loops over the swapchain map, with the map [m0] in hand. *)
Lemma for_each_loop (f : Impl → Impl) (m0 m : swapchains) :
  map_fold
    (λ swapchain (p : option Impl) (acc : option swapchains),
       acc ← acc;
       impl ← p;
       Some (<[swapchain := Some (f impl)]> acc))
    (Some m0) m
  = if decide (no_null m) then Some ((option_map f <$> m) ∪ m0) else None.
Proof.
  pose proof (map_fold_weak_ind
    (λ (r : option swapchains) (m : swapchains),
       r = if decide (no_null m) then Some ((option_map f <$> m) ∪ m0)
           else None)) as Hind.
  apply Hind; clear Hind.
  - rewrite decide_True by apply map_Forall_empty.
    by rewrite fmap_empty, (left_id_L ∅ (∪)).
  - intros i x m1 r Hi ->.
    destruct (decide (no_null m1)) as [Hall|Hall]; simpl.
    + destruct x as [impl|]; simpl.
      * rewrite decide_True
          by (apply map_Forall_insert; [exact Hi | split; eauto]).
        by rewrite fmap_insert, insert_union_l.
      * rewrite decide_False; [reflexivity|].
        intros H. apply map_Forall_insert in H; [|exact Hi].
        destruct H as [[? Hx] _]. discriminate Hx.
    + rewrite decide_False; [reflexivity|].
      intros H. apply map_Forall_insert in H; [|exact Hi]. tauto.
Qed.

Lemma for_each_implementation_spec (f : Impl → Impl) (m : swapchains) :
  for_each_implementation f m
  = if decide (no_null m) then Some (option_map f <$> m) else None.
Proof.
  unfold for_each_implementation. rewrite for_each_loop.
  destruct (decide (no_null m)); [|reflexivity]. f_equal.
  apply map_eq. intros sc. rewrite lookup_union, !lookup_fmap.
  by destruct (m !! sc).
Qed.

End Maps.

(** The state with a null entry for [sc]. *)
Definition with_null_entry {Impl : Type} (s : t Impl) (sc : VkSwapchainKHR)
  : t Impl :=
  mk (perQueueFamilyIndex s) (<[sc := None]> (perSwapchainImplementation s)).

Lemma null_entry_not_no_null {Impl : Type} (s : t Impl)
    (sc : VkSwapchainKHR) :
  ¬ no_null (perSwapchainImplementation (with_null_entry s sc)).
Proof.
  intros Hall. destruct (Hall sc None) as [? Hx]; [|discriminate Hx].
  simpl. apply lookup_insert_eq.
Qed.

Section Unknown.
Context {Impl : Type}.
Variable doQueuePresent :
  Impl → VkQueue → Z → VkPresentInfoKHR → VkResult * Impl.
Variable getDevice : Impl → VkDevice.
Variable doSetWindow : Impl → Z → Impl.
Variable doSetSwapInterval : Impl → VkSwapchainKHR → Z → Impl.
Variable isEnabled : Impl → bool.
Variable getSwapInterval : Impl → Z.

(** X13.  The member functions that index the swapchain map with
    [operator[]], called with a swapchain that the map does not hold:
    [SetWindow], [SetSwapDuration] and [IsEnabled] call no implementation
    and leave a null entry for the swapchain, and so does [QueuePresent]
    on a registered queue.  With that entry [DestroyDevice] (for every
    device) and [GetSwapInterval] call through a null pointer;
    [DestroySwapchain] removes the entry and gives the state before. *)
Theorem unknown_swapchain_leaves_null_entry
    (s : t Impl) (dev : VkDevice) (sc : VkSwapchainKHR) (window swapNs : Z)
    (pIsEnabled : option bool) :
  perSwapchainImplementation s !! sc = None →
  SetWindow doSetWindow s dev sc window = with_null_entry s sc ∧
  SetSwapDuration doSetSwapInterval s dev sc swapNs = with_null_entry s sc ∧
  IsEnabled isEnabled s sc pIsEnabled
    = (false, pIsEnabled, with_null_entry s sc) ∧
  (∀ queue qfi info rest,
     perQueueFamilyIndex s !! queue = Some qfi →
     pSwapchains info = Some (sc :: rest) →
     swapchainCount info ≠ 0 →
     QueuePresent doQueuePresent s queue info
     = Some (VK_ERROR_DEVICE_LOST, with_null_entry s sc)) ∧
  (∀ d, DestroyDevice getDevice (with_null_entry s sc) d = None) ∧
  GetSwapInterval getSwapInterval (with_null_entry s sc) sc = None ∧
  DestroySwapchain (with_null_entry s sc) dev sc = s.
Proof.
  intros E.
  split. { unfold SetWindow, index_swapchain. by rewrite E. }
  split. { unfold SetSwapDuration, index_swapchain. by rewrite E. }
  split. { unfold IsEnabled, index_swapchain. by rewrite E. }
  split.
  { intros queue qfi info rest Hq Hs Hc.
    by apply (QueuePresent_unknown_swapchain doQueuePresent s queue qfi info
                sc rest). }
  split.
  { intros d. apply DestroyDevice_null_entry, null_entry_not_no_null. }
  split.
  { unfold GetSwapInterval, with_null_entry. simpl.
    by rewrite lookup_insert_eq. }
  unfold DestroySwapchain, with_null_entry. simpl.
  rewrite lookup_insert_eq, delete_insert_eq, delete_id by exact E.
  by destruct s.
Qed.

End Unknown.

(** [tracer_eq] is equality of the seven members. *)
Lemma tracer_eq_spec (t1 t2 : SwappyTracer) :
  tracer_eq t1 t2 = true ↔ t1 = t2.
Proof.
  unfold tracer_eq. rewrite !andb_true_iff, !Z.eqb_eq.
  destruct t1, t2; simpl. split.
  - intros [[[[[[-> ->] ->] ->] ->] ->] ->]. reflexivity.
  - intros [= -> -> -> -> -> -> ->]. tauto.
Qed.

Lemma remove_tracer_list (l : list SwappyTracer) (tr : SwappyTracer) :
  List.filter (λ e, negb (tracer_eq e tr)) (l ++ [tr])
  = List.filter (λ e, negb (tracer_eq e tr)) l.
Proof.
  rewrite List.filter_app. simpl.
  rewrite (proj2 (tracer_eq_spec tr tr) eq_refl). simpl.
  apply app_nil_r.
Qed.

Section Tracers.
Context {Impl Provider : Type}.
Variable base_addTracer : Impl → SwappyTracer → Impl.
Variable base_removeTracer : Impl → SwappyTracer → Impl.

(** X14.  [addTracer] and then [removeTracer] of the same tracer, when no
    swapchain entry is null: both are defined; [tracer_list] ends without
    any tracer equal to the removed one, so copies that were registered
    before are gone too, and the other tracers keep their order; every
    implementation got one [addTracer] and one [removeTracer] call;
    nothing else changes.  A null tracer pointer changes nothing. *)
Theorem removeTracer_after_addTracer
    (s : instance Impl Provider) (tr : SwappyTracer) :
  no_null (perSwapchainImplementation (maps s)) →
  ∃ s1 s2,
    addTracer base_addTracer s (Some tr) = Some s1 ∧
    tracer_list s1 = tracer_list s ++ [tr] ∧
    removeTracer base_removeTracer s1 (Some tr) = Some s2 ∧
    tracer_list s2
      = List.filter (λ e, negb (tracer_eq e tr)) (tracer_list s) ∧
    Forall (λ e, e ≠ tr) (tracer_list s2) ∧
    (∀ e, e ≠ tr → e ∈ tracer_list s → e ∈ tracer_list s2) ∧
    perSwapchainImplementation (maps s2)
      = option_map (λ impl, base_removeTracer (base_addTracer impl tr) tr)
          <$> perSwapchainImplementation (maps s) ∧
    perQueueFamilyIndex (maps s2) = perQueueFamilyIndex (maps s) ∧
    doesPhysicalDeviceHaveGoogleDisplayTiming s2
      = doesPhysicalDeviceHaveGoogleDisplayTiming s ∧
    pFunctionProvider s2 = pFunctionProvider s ∧
    addTracer base_addTracer s None = Some s ∧
    removeTracer base_removeTracer s None = Some s.
Proof.
  intros Hall.
  assert (Hall1 : no_null (option_map (λ impl, base_addTracer impl tr)
                             <$> perSwapchainImplementation (maps s))).
  { intros sc p. rewrite lookup_fmap. intros Hp.
    destruct (perSwapchainImplementation (maps s) !! sc) as [q|] eqn:Eq;
      [|discriminate Hp].
    destruct (Hall sc q Eq) as [impl ->]. simpl in Hp.
    injection Hp as <-. eauto. }
  eexists _, _. split.
  { unfold addTracer. rewrite for_each_implementation_spec.
    rewrite decide_True by exact Hall. reflexivity. }
  split; [reflexivity|]. split.
  { unfold removeTracer. simpl. rewrite for_each_implementation_spec.
    rewrite decide_True by exact Hall1. reflexivity. }
  simpl. rewrite remove_tracer_list.
  split; [reflexivity|]. split.
  { apply Forall_forall. intros e He. apply list_elem_of_In in He.
    apply List.filter_In in He as [_ He]. intros ->.
    rewrite (proj2 (tracer_eq_spec tr tr) eq_refl) in He. discriminate He. }
  split.
  { intros e Hne He. apply list_elem_of_In. apply List.filter_In.
    split; [by apply list_elem_of_In|].
    destruct (tracer_eq e tr) eqn:Ee; [|reflexivity].
    apply tracer_eq_spec in Ee. contradiction. }
  split.
  { rewrite <- map_fmap_compose. apply map_fmap_ext.
    intros sc [impl|] _; reflexivity. }
  repeat split; reflexivity.
Qed.

End Tracers.

(** *** [swappyVkDetermineDeviceExtensions] *)

Abbreviation NAME := VK_GOOGLE_DISPLAY_TIMING_EXTENSION_NAME.

#[local] Arguments String.eqb : simpl never.

(** The number of array elements that name the extension. *)
Definition matches (exts : list string) : nat :=
  length (List.filter (String.eqb NAME) exts).

Lemma matches_cons (name : string) (exts : list string) :
  matches (name :: exts)
  = if String.eqb NAME name then S (matches exts) else matches exts.
Proof.
  unfold matches. cbn [List.filter].
  destruct (String.eqb NAME name); reflexivity.
Qed.

Lemma matches_0_iff (exts : list string) : matches exts = 0%nat ↔ NAME ∉ exts.
Proof.
  induction exts as [|name exts IH].
  { split; [intros _; apply not_elem_of_nil | reflexivity]. }
  rewrite matches_cons, not_elem_of_cons.
  destruct (String.eqb_spec NAME name) as [Heq|Hne]; [|tauto].
  split; [discriminate | tauto].
Qed.

Lemma take_drop_step {A : Type} (l : list A) (i n : nat) (x : A) :
  l !! i = Some x →
  take (S n) (drop i l) = x :: take n (drop (S i) l).
Proof.
  intros E. rewrite (drop_S l x i E). reflexivity.
Qed.

Lemma count_loop_spec (exts : list string) (n i : nat) (c : Z) :
  (i + n ≤ length exts)%nat →
  0 <= c < 2 ^ 32 →
  count_loop exts i n (Some c)
  = Some (Some (Cxx.u32 (c + Z.of_nat (matches (take n (drop i exts)))))).
Proof.
  revert i c. induction n as [|n IH]; intros i c Hlen Hc.
  - simpl. rewrite Z.add_0_r, HistogramSpec.u32_small by exact Hc.
    reflexivity.
  - destruct (lookup_lt_is_Some_2 exts i) as [name E]; [lia|].
    rewrite (take_drop_step exts i n name E), matches_cons.
    simpl. rewrite E. simpl.
    destruct (String.eqb NAME name); simpl.
    + pose proof (HistogramSpec.u32_range (c + 1)) as Hr.
      rewrite IH by lia.
      rewrite HistogramSpec.u32_add_l. do 3 f_equal. lia.
    + apply IH; [lia | exact Hc].
Qed.

Lemma fill_loop_spec (exts : list string) (n i j k : nat) (c : Z)
    (req : list string) (flag : bool) :
  (i + n ≤ length exts)%nat →
  k = (matches (take n (drop i exts)) `min` (Z.to_nat c - j))%nat →
  (j + k ≤ length req)%nat →
  fill_loop exts i n j (Some c) req flag
  = Some (take j req ++ replicate k NAME ++ drop (j + k) req,
          flag || bool_decide (0 < k)%nat).
Proof.
  revert i j k req flag.
  induction n as [|n IH]; intros i j k req flag Hlen Ek Hk.
  - rewrite take_0 in Ek. change (matches []) with 0%nat in Ek.
    rewrite Nat.min_0_l in Ek. subst k. simpl.
    rewrite Nat.add_0_r, take_drop, orb_false_r. reflexivity.
  - destruct (lookup_lt_is_Some_2 exts i) as [name E]; [lia|].
    rewrite (take_drop_step exts i n name E), matches_cons in Ek.
    simpl. rewrite E. simpl.
    set (m := matches (take n (drop (S i) exts))) in *.
    destruct (String.eqb NAME name); simpl.
    + destruct (Z.ltb_spec (Z.of_nat j) c) as [Hj|Hj].
      * destruct k as [|k]; [lia|].
        destruct (lookup_lt_is_Some_2 req j) as [old Eo]; [lia|].
        rewrite Eo. simpl.
        rewrite (IH (S i) (S j) k)
          by (rewrite ?length_insert; fold m; lia).
        rewrite orb_true_l, orb_true_r. f_equal. f_equal.
        rewrite (take_S_r _ _ NAME)
          by (apply list_lookup_insert_eq;
              apply lookup_lt_is_Some_1; eauto).
        rewrite take_insert_ge by lia.
        rewrite drop_insert_lt by lia.
        rewrite <- app_assoc. simpl.
        by replace (S (j + k)) with (j + S k)%nat by lia.
      * assert (k = 0%nat) as -> by lia.
        apply IH; [lia | fold m; lia | lia].
    + apply IH; [lia | exact Ek | exact Hk].
Qed.

Section Extensions.
Context {Impl Provider : Type}.

(** X15.  [swappyVkDetermineDeviceExtensions] on an array of
    [availableExtensionCount] extension names.  With a null
    [pRequiredExtensions] it adds the number of elements that name
    VK_GOOGLE_display_timing to [*pRequiredExtensionCount] (in [uint32_t])
    and changes nothing else, not the cache either.  Otherwise it leaves
    the count, writes the name into the first [k] buffers, where [k] is the
    smaller of that number and the count, and caches for the physical
    device whether [k] is positive. *)
Theorem DetermineDeviceExtensions_spec
    (s : instance Impl Provider) (physicalDevice : VkPhysicalDevice)
    (exts : list string) (c : Z) (required : list string) :
  0 <= c < 2 ^ 32 →
  let n := Z.of_nat (length exts) in
  let k := (matches exts `min` Z.to_nat c)%nat in
  swappyVkDetermineDeviceExtensions s physicalDevice n exts (Some c) None
    = Some (Some (Cxx.u32 (c + Z.of_nat (matches exts))), None, s) ∧
  ((k ≤ length required)%nat →
   swappyVkDetermineDeviceExtensions s physicalDevice n exts (Some c)
     (Some required)
   = Some (Some c, Some (replicate k NAME ++ drop k required),
           mkInstance (maps s)
             (<[physicalDevice := bool_decide (0 < k)%nat]>
                (doesPhysicalDeviceHaveGoogleDisplayTiming s))
             (tracer_list s) (pFunctionProvider s))).
Proof.
  intros Hc n k. subst n k. unfold swappyVkDetermineDeviceExtensions.
  rewrite Nat2Z.id. split.
  - rewrite count_loop_spec by (simpl; lia || exact Hc).
    by rewrite drop_0, firstn_all.
  - intros Hk.
    rewrite (fill_loop_spec _ _ _ _ (matches exts `min` Z.to_nat c)%nat);
      [reflexivity | simpl; lia | | exact Hk].
    by rewrite drop_0, firstn_all, Nat.sub_0_r.
Qed.

(** X16.  The two calls of the protocol: the first with a null array and
    a count of 0, the second with the count that the first gave and that
    many buffers.  Both are defined; the second fills every buffer with
    the extension name and caches [true] for the physical device exactly
    when some available extension is VK_GOOGLE_display_timing. *)
Theorem DetermineDeviceExtensions_two_calls
    (s : instance Impl Provider) (physicalDevice : VkPhysicalDevice)
    (exts : list string) :
  Z.of_nat (length exts) < 2 ^ 32 →
  let n := Z.of_nat (length exts) in
  ∃ count : Z,
    swappyVkDetermineDeviceExtensions s physicalDevice n exts (Some 0) None
      = Some (Some count, None, s) ∧
    ∀ required : list string,
      Z.of_nat (length required) = count →
      ∃ s',
        swappyVkDetermineDeviceExtensions s physicalDevice n exts
          (Some count) (Some required)
        = Some (Some count, Some (replicate (length required) NAME), s') ∧
        doesPhysicalDeviceHaveGoogleDisplayTiming s' !! physicalDevice
          = Some (bool_decide (NAME ∈ exts)) ∧
        maps s' = maps s ∧ tracer_list s' = tracer_list s.
Proof.
  intros Hlen n.
  assert (Hm : (matches exts ≤ length exts)%nat).
  { unfold matches. apply List.filter_length_le. }
  exists (Z.of_nat (matches exts)).
  unfold swappyVkDetermineDeviceExtensions. subst n. rewrite Nat2Z.id.
  split.
  { rewrite count_loop_spec by (simpl; lia).
    rewrite drop_0, firstn_all, Z.add_0_l, HistogramSpec.u32_small by lia.
    reflexivity. }
  intros required Hreq. apply Nat2Z.inj in Hreq.
  rewrite (fill_loop_spec _ _ _ _ (matches exts));
    [| simpl; lia | | simpl; lia].
  2:{ rewrite drop_0, firstn_all, Nat.sub_0_r, Nat2Z.id. lia. }
  rewrite take_0, Nat.add_0_l, <- Hreq, drop_all, app_nil_r. simpl.
  eexists. split; [reflexivity|].
  - simpl. rewrite lookup_insert_eq, Hreq. split; [|split; reflexivity].
    f_equal. apply bool_decide_ext.
    pose proof (matches_0_iff exts) as [H0 H1]. split.
    + intros Hpos. destruct (decide (NAME ∈ exts)) as [Hin|Hin];
        [assumption|]. apply H1 in Hin. lia.
    + intros Hin. destruct (matches exts); [|lia].
      by destruct (H0 eq_refl).
Qed.

End Extensions.

(** *** [GetRefreshCycleDuration] *)

Section Refresh.
Context {Impl Provider : Type}.
Variable base_addTracer : Impl → SwappyTracer → Impl.
Variable doGetRefreshCycleDuration :
  Impl → VkSwapchainKHR → (bool * Z) * Impl.
Variable SwappyVkGoogleDisplayTiming :
  Z → Z → VkPhysicalDevice → VkDevice → Provider → Impl.
Variable SwappyVkFallback :
  Z → Z → VkPhysicalDevice → VkDevice → Provider → Impl.
Variable provider_init : Provider → bool.
Variable c_provider : Provider.

Abbreviation GetRefreshCycleDuration' :=
  (GetRefreshCycleDuration base_addTracer doGetRefreshCycleDuration
     SwappyVkGoogleDisplayTiming SwappyVkFallback provider_init c_provider).

Section Present.
Variable doQueuePresent :
  Impl → VkQueue → Z → VkPresentInfoKHR → VkResult * Impl.

(** X17.  A [GetRefreshCycleDuration] call that reaches the
    implementation (it wrote [*pRefreshDuration]) leaves a non-null
    implementation for the swapchain, and touches neither another
    swapchain, nor the queues, nor the tracers.  A [QueuePresent] that
    follows, on a registered queue and with this swapchain first in
    [pSwapchains], is that implementation's [doQueuePresent] with the
    queue family index registered for the queue. *)
Theorem GetRefreshCycleDuration_then_QueuePresent
    (s s1 : instance Impl Provider) (env jactivity : Z)
    (physicalDevice : VkPhysicalDevice) (dev : VkDevice)
    (sc : VkSwapchainKHR) (r : bool) (d : Z) :
  GetRefreshCycleDuration' s env jactivity physicalDevice dev sc
    = (r, Some d, s1) →
  ∃ impl,
    perSwapchainImplementation (maps s1) !! sc = Some (Some impl) ∧
    (∀ sc', sc' ≠ sc →
       perSwapchainImplementation (maps s1) !! sc'
       = perSwapchainImplementation (maps s) !! sc') ∧
    perQueueFamilyIndex (maps s1) = perQueueFamilyIndex (maps s) ∧
    tracer_list s1 = tracer_list s ∧
    ∀ queue qfi info rest,
      perQueueFamilyIndex (maps s) !! queue = Some qfi →
      pSwapchains info = Some (sc :: rest) →
      swapchainCount info ≠ 0 →
      QueuePresent doQueuePresent (maps s1) queue info
      = Some ((doQueuePresent impl queue (queueFamilyIndex qfi) info).1,
              mk (perQueueFamilyIndex (maps s))
                 (<[sc := Some (doQueuePresent impl queue
                                  (queueFamilyIndex qfi) info).2]>
                    (perSwapchainImplementation (maps s1)))).
Proof.
  intros E.
  assert (H : ∃ impl m,
             maps s1 = mk (perQueueFamilyIndex (maps s))
                          (<[sc := Some impl]> m) ∧
             (∀ sc', sc' ≠ sc →
                m !! sc' = perSwapchainImplementation (maps s) !! sc') ∧
             tracer_list s1 = tracer_list s).
  { unfold GetRefreshCycleDuration, index_swapchain in E.
    destruct (perSwapchainImplementation (maps s) !! sc) as [[impl|]|] eqn:El;
      simpl in E.
    - destruct (doGetRefreshCycleDuration _ _) as [[r' d'] impl'].
      injection E as _ _ <-. simpl. eauto.
    - destruct (provider_init _); simpl in E; [|discriminate E].
      destruct (doGetRefreshCycleDuration _ _) as [[r' d'] impl'].
      injection E as _ _ <-. simpl. eauto.
    - destruct (provider_init _); simpl in E; [|discriminate E].
      destruct (doGetRefreshCycleDuration _ _) as [[r' d'] impl'].
      injection E as _ _ <-. simpl. eexists _, _.
      split; [reflexivity|]. split; [|reflexivity].
      intros sc' Hne. by rewrite lookup_insert_ne. }
  destruct H as (impl & m & Em & Hm & Ht).
  exists impl. rewrite Em. simpl.
  split; [apply lookup_insert_eq|].
  split. { intros sc' Hne. rewrite lookup_insert_ne by congruence. by apply Hm. }
  split; [reflexivity|]. split; [exact Ht|].
  intros queue qfi info rest Hq Hs Hc.
  unfold QueuePresent. simpl. rewrite Hq.
  destruct (Z.eqb_spec (swapchainCount info) 0); [contradiction|].
  rewrite Hs. simpl. unfold index_swapchain.
  rewrite lookup_insert_eq.
  by destruct (doQueuePresent impl queue (queueFamilyIndex qfi) info).
Qed.

End Present.

Section Failure.
Variable getDevice : Impl → VkDevice.

(** X18.  [GetRefreshCycleDuration] for a swapchain without an
    implementation, when the provider's [init] fails: the result is
    [false], [*pRefreshDuration] is not written and no implementation is
    made, but the swapchain has a null entry afterwards and the default
    provider is installed if there was none; [DestroyDevice] then calls
    through the null entry. *)
Theorem GetRefreshCycleDuration_init_failure
    (s : instance Impl Provider) (env jactivity : Z)
    (physicalDevice : VkPhysicalDevice) (dev : VkDevice)
    (sc : VkSwapchainKHR) :
  perSwapchainImplementation (maps s) !! sc = None
  ∨ perSwapchainImplementation (maps s) !! sc = Some None →
  provider_init (default c_provider (pFunctionProvider s)) = false →
  GetRefreshCycleDuration' s env jactivity physicalDevice dev sc
  = (false, None,
     mkInstance (with_null_entry (maps s) sc)
       (doesPhysicalDeviceHaveGoogleDisplayTiming s) (tracer_list s)
       (Some (default c_provider (pFunctionProvider s)))) ∧
  ∀ d, DestroyDevice getDevice (with_null_entry (maps s) sc) d = None.
Proof.
  intros El Ei. split.
  - unfold GetRefreshCycleDuration, index_swapchain, with_null_entry.
    destruct El as [El|El]; rewrite El; simpl; rewrite Ei; simpl.
    + reflexivity.
    + by rewrite insert_id.
  - intros d. apply DestroyDevice_null_entry, null_entry_not_no_null.
Qed.

End Failure.

End Refresh.

(** *** After [DestroyDevice], and the forwarding member functions *)

Section Destroyed.
Context {Impl : Type}.
Variable doQueuePresent :
  Impl → VkQueue → Z → VkPresentInfoKHR → VkResult * Impl.
Variable getDevice : Impl → VkDevice.

(** X23.  After [DestroyDevice]: [QueuePresent] on a queue that was
    registered for the device returns [VK_INCOMPLETE] and changes nothing.
    On a queue of another device it still forwards to the implementation
    of a swapchain of another device, and for a swapchain of the destroyed
    device it returns [VK_ERROR_DEVICE_LOST] and leaves a null entry for
    that swapchain. *)
Theorem DestroyDevice_then_QueuePresent (s s' : t Impl) (dev : VkDevice) :
  DestroyDevice getDevice s dev = Some s' →
  (∀ queue qfi info,
     perQueueFamilyIndex s !! queue = Some qfi →
     device qfi = dev →
     QueuePresent doQueuePresent s' queue info = Some (VK_INCOMPLETE, s')) ∧
  (∀ queue qfi info sc rest impl,
     perQueueFamilyIndex s !! queue = Some qfi →
     device qfi ≠ dev →
     pSwapchains info = Some (sc :: rest) →
     swapchainCount info ≠ 0 →
     perSwapchainImplementation s !! sc = Some (Some impl) →
     QueuePresent doQueuePresent s' queue info
     = if getDevice impl =? dev
       then Some (VK_ERROR_DEVICE_LOST, with_null_entry s' sc)
       else
         Some ((doQueuePresent impl queue (queueFamilyIndex qfi) info).1,
               mk (perQueueFamilyIndex s')
                  (<[sc := Some (doQueuePresent impl queue
                                   (queueFamilyIndex qfi) info).2]>
                     (perSwapchainImplementation s')))).
Proof.
  intros E. destruct (DestroyDevice_lookup getDevice s s' dev E)
    as (_ & Hsc & Hq).
  split.
  - intros queue qfi info Eq Hd.
    unfold QueuePresent. rewrite Hq, Eq.
    by rewrite (proj2 (Z.eqb_eq _ _) Hd).
  - intros queue qfi info sc rest impl Eq Hd Hs Hc El.
    assert (Eq' : perQueueFamilyIndex s' !! queue = Some qfi).
    { rewrite Hq, Eq. by rewrite (proj2 (Z.eqb_neq _ _) Hd). }
    pose proof (Hsc sc) as El'. rewrite El in El'.
    destruct (getDevice impl =? dev).
    + by apply (QueuePresent_unknown_swapchain doQueuePresent s' queue qfi
                  info sc rest).
    + unfold QueuePresent. rewrite Eq'.
      destruct (Z.eqb_spec (swapchainCount info) 0); [contradiction|].
      rewrite Hs. simpl. unfold index_swapchain. rewrite El'.
      by destruct (doQueuePresent impl queue (queueFamilyIndex qfi) info).
Qed.

End Destroyed.

Section Forwarded.
Context {Impl : Type}.
Variable getSwapInterval : Impl → Z.
Variable setAutoSwapInterval : Impl → bool → Impl.
Variable setAutoPipelineMode : Impl → bool → Impl.
Variable setMaxAutoSwapDuration : Impl → Z → Impl.
Variable setFenceTimeout : Impl → Z → Impl.
Variable base_enableStats : Impl → bool → Impl.
Variable base_recordFrameStart : Impl → VkQueue → Z → Impl.
Variable base_clearStats : Impl → Impl.
Variable base_resetFramePacing : Impl → Impl.
Variable base_enableFramePacing : Impl → bool → Impl.
Variable base_enableBlockingWait : Impl → bool → Impl.

(** The state after [f] on every implementation. *)
Definition broadcast (f : Impl → Impl) (s : t Impl) : option (t Impl) :=
  if decide (no_null (perSwapchainImplementation s))
  then Some (mk (perQueueFamilyIndex s)
               (option_map f <$> perSwapchainImplementation s))
  else None.

(** X24.  The setters without a swapchain argument call every
    implementation once and keep the keys of both maps; they are defined
    exactly when no entry is null.  The member functions that look the
    swapchain up with [find] do nothing for a swapchain that the map does
    not hold: no entry is added, and [GetSwapInterval] is 0. *)
Theorem forwarding_spec (s : t Impl) :
  (∀ enabled,
     SetAutoSwapInterval setAutoSwapInterval s enabled
     = broadcast (λ impl, setAutoSwapInterval impl enabled) s) ∧
  (∀ enabled,
     SetAutoPipelineMode setAutoPipelineMode s enabled
     = broadcast (λ impl, setAutoPipelineMode impl enabled) s) ∧
  (∀ maxDuration,
     SetMaxAutoSwapDuration setMaxAutoSwapDuration s maxDuration
     = broadcast (λ impl, setMaxAutoSwapDuration impl maxDuration) s) ∧
  (∀ timeout,
     SetFenceTimeout setFenceTimeout s timeout
     = broadcast (λ impl, setFenceTimeout impl timeout) s) ∧
  ∀ sc,
    perSwapchainImplementation s !! sc = None →
    GetSwapInterval getSwapInterval s sc = Some 0 ∧
    (∀ enabled, enableStats base_enableStats s sc enabled = Some s) ∧
    (∀ queue image,
       recordFrameStart base_recordFrameStart s queue sc image = Some s) ∧
    clearStats base_clearStats s sc = Some s ∧
    resetFramePacing base_resetFramePacing s sc = Some s ∧
    (∀ enable,
       enableFramePacing base_enableFramePacing s sc enable = Some s) ∧
    (∀ enable,
       enableBlockingWait base_enableBlockingWait s sc enable = Some s).
Proof.
  assert (Hb : ∀ f,
    (for_each_implementation f (perSwapchainImplementation s)
     ≫= λ m, Some (mk (perQueueFamilyIndex s) m)) = broadcast f s).
  { intros f. unfold broadcast. rewrite for_each_implementation_spec.
    by destruct (decide (no_null (perSwapchainImplementation s))). }
  split; [intros b; apply Hb|]. split; [intros b; apply Hb|].
  split; [intros d; apply Hb|]. split; [intros d; apply Hb|].
  intros sc E.
  unfold GetSwapInterval, enableStats, recordFrameStart, clearStats,
    resetFramePacing, enableFramePacing, enableBlockingWait, find_and_call.
  rewrite E. repeat split.
Qed.

End Forwarded.

(** *** The theorems on an implementation that logs its calls *)

(** An implementation is the device it was made for and the tracers it
    was given. *)
Definition logged : Type := VkDevice * list SwappyTracer.

Definition log_device (impl : logged) : VkDevice := impl.1.
Definition log_present (impl : logged) (queue : VkQueue) (index : Z)
    (info : VkPresentInfoKHR) : VkResult * logged := (index, impl).
Definition log_keep (impl : logged) (x : Z) : logged := impl.
Definition log_interval (impl : logged) (sc : VkSwapchainKHR) (x : Z)
  : logged := impl.
Definition log_enabled (impl : logged) : bool := true.
Definition log_swap_interval (impl : logged) : Z := 16666666.
Definition log_add (impl : logged) (tr : SwappyTracer) : logged :=
  (impl.1, impl.2 ++ [tr]).
Definition log_remove (impl : logged) (tr : SwappyTracer) : logged :=
  (impl.1, List.filter (λ e, negb (tracer_eq e tr)) impl.2).
Definition log_duration (impl : logged) (sc : VkSwapchainKHR)
  : bool * Z * logged := (true, 16666666, impl).
Definition log_make (env jactivity : Z) (pd : VkPhysicalDevice)
    (dev : VkDevice) (provider : bool) : logged := (dev, []).

(** A provider is the result of its [init]. *)
Definition provider_result (provider : bool) : bool := provider.

Definition tracer_1 : SwappyTracer := mkSwappyTracer 1 2 3 4 5 6 7.

(** Queue 2 of device 1 is registered; nothing else is known. *)
Definition queue_2 : t logged := SetQueueFamilyIndex (mk ∅ ∅) 1 2 0.

Definition fresh_instance : instance logged bool :=
  mkInstance queue_2 ∅ [tracer_1] None.

Definition run_GetRefreshCycleDuration (c_provider : bool) :=
  GetRefreshCycleDuration log_add log_duration log_make log_make
    provider_result c_provider.

Lemma unknown_swapchain_leaves_null_entry_witness :
  SetWindow log_keep queue_2 1 7 0
    = with_null_entry queue_2 7 ∧
  DestroyDevice log_device (with_null_entry queue_2 7) 1 = None ∧
  DestroySwapchain (with_null_entry queue_2 7) 1 7
    = queue_2.
Proof.
  destruct (unknown_swapchain_leaves_null_entry log_present log_device
              log_keep log_interval log_enabled log_swap_interval
              queue_2 1 7 0 0 None (lookup_empty _))
    as (E1 & _ & _ & _ & E2 & _ & E3).
  split; [exact E1|]. split; [apply E2 | exact E3].
Defined.

Lemma removeTracer_after_addTracer_witness :
  ∃ s2,
    addTracer log_add fresh_instance (Some tracer_1)
      ≫= (λ s1, removeTracer log_remove s1 (Some tracer_1)) = Some s2 ∧
    tracer_list s2 = [].
Proof.
  destruct (removeTracer_after_addTracer log_add log_remove
              (fresh_instance : instance logged bool) tracer_1)
    as (s1 & s2 & E1 & _ & E2 & E3 & _).
  { apply map_Forall_empty. }
  exists s2. rewrite E1. simpl. split; [exact E2|].
  rewrite E3. reflexivity.
Defined.

Lemma DetermineDeviceExtensions_spec_witness :
  swappyVkDetermineDeviceExtensions fresh_instance 9 3
    ["VK_KHR_swapchain"; NAME; "VK_KHR_maintenance1"] (Some 0) None
  = Some (Some 1, None, fresh_instance).
Proof.
  destruct (DetermineDeviceExtensions_spec fresh_instance 9
              ["VK_KHR_swapchain"; NAME; "VK_KHR_maintenance1"] 0 [])
    as [E _]; [lia|].
  exact E.
Defined.

Lemma DetermineDeviceExtensions_two_calls_witness :
  ∃ s',
    swappyVkDetermineDeviceExtensions fresh_instance 9 3
      ["VK_KHR_swapchain"; NAME; "VK_KHR_maintenance1"] (Some 1)
      (Some [EmptyString])
    = Some (Some 1, Some [NAME], s') ∧
    doesPhysicalDeviceHaveGoogleDisplayTiming s' !! 9 = Some true.
Proof.
  destruct (DetermineDeviceExtensions_two_calls fresh_instance 9
              ["VK_KHR_swapchain"; NAME; "VK_KHR_maintenance1"])
    as (count & E1 & E2); [simpl; lia|].
  assert (count = 1) as ->.
  { vm_compute in E1. by injection E1 as <-. }
  destruct (E2 [EmptyString] eq_refl) as (s' & E & Ht & _).
  exists s'. split; [exact E|]. etrans; [exact Ht|]. reflexivity.
Defined.

Lemma GetRefreshCycleDuration_then_QueuePresent_witness :
  ∃ s1 s2,
    run_GetRefreshCycleDuration true fresh_instance 0 0 9 1 7
      = (true, Some 16666666, s1) ∧
    QueuePresent log_present (maps s1) 2 (mkPresentInfo 1 (Some [7]))
      = Some (0, s2).
Proof.
  destruct (run_GetRefreshCycleDuration true fresh_instance 0 0 9 1 7)
    as [[r d] s1] eqn:E.
  assert (Hr : r = true ∧ d = Some 16666666).
  { unfold run_GetRefreshCycleDuration in E. vm_compute in E.
    injection E as <- <- _. by split. }
  destruct Hr as [-> ->].
  destruct (GetRefreshCycleDuration_then_QueuePresent log_add
              log_duration log_make log_make provider_result true log_present
              fresh_instance s1 0 0 9 1 7 true 16666666 E)
    as (impl & _ & _ & _ & _ & Hq).
  eexists s1, _. split; [reflexivity|].
  apply (Hq 2 (mkQueueFamilyIndex 1 0) (mkPresentInfo 1 (Some [7])) []).
  - apply lookup_insert_eq.
  - reflexivity.
  - simpl. lia.
Defined.

Lemma GetRefreshCycleDuration_init_failure_witness :
  (run_GetRefreshCycleDuration false fresh_instance 0 0 9 1 7).1
    = (false, None) ∧
  DestroyDevice log_device (with_null_entry queue_2 7) 1 = None.
Proof.
  destruct (GetRefreshCycleDuration_init_failure log_add
              log_duration log_make log_make provider_result false log_device
              fresh_instance 0 0 9 1 7) as [E Hd].
  - left. apply lookup_empty.
  - reflexivity.
  - split; [|apply Hd]. unfold run_GetRefreshCycleDuration. by rewrite E.
Defined.

(** Swapchain 7 belongs to device 1, with queue 2. *)
Definition one_swapchain : t logged :=
  mk (perQueueFamilyIndex queue_2) {[7 := Some (1, [])]}.

Lemma one_swapchain_destroy :
  DestroyDevice log_device one_swapchain 1 = Some (mk ∅ ∅).
Proof. vm_compute. reflexivity. Qed.

Lemma DestroyDevice_then_QueuePresent_witness :
  QueuePresent log_present (mk ∅ ∅ : t logged) 2 (mkPresentInfo 1 (Some [7]))
  = Some (VK_INCOMPLETE, mk ∅ ∅).
Proof.
  destruct (DestroyDevice_then_QueuePresent log_present log_device
              one_swapchain (mk ∅ ∅) 1 one_swapchain_destroy) as [H _].
  apply (H 2 (mkQueueFamilyIndex 1 0)).
  - apply lookup_insert_eq.
  - reflexivity.
Defined.

End SwappyVkMore.

(** ** SwappyGL: the static entry points *)

Module SwappyGLMore.

Import SwappyGLStatics.

#[local] Arguments SwappyGL.swap : simpl never.

Section Runs.
Context {EGL Common Stats SwappyStats : Type}.
Context `{!EqDecision EGL}.
Context `{!Common.ops Common} `{!FrameStatistics.ops Stats SwappyStats}.
Variable swapBuffers :
  EGL → SwappyGL.EGLDisplay → SwappyGL.EGLSurface → SwappyGL.EGLBoolean.
Variable onPreSwap : EGL → SwappyGL.EGLDisplay → Common → Common.
Variable needToSetPresentationTime : Common → bool.
Variable setPresentationTime :
  EGL → Common → SwappyGL.EGLDisplay → SwappyGL.EGLSurface → bool.
Variable onPostSwap : EGL → SwappyGL.EGLDisplay → Common → Common.
Variable statsSupported : EGL → bool.
Variable FrameStatisticsGL : EGL → Common → Stats.

Abbreviation swap' :=
  (swap swapBuffers onPreSwap needToSetPresentationTime setPresentationTime
     onPostSwap).
Abbreviation init' := (init statsSupported FrameStatisticsGL).
Abbreviation SwappyGL_swap :=
  (SwappyGL.swap swapBuffers onPreSwap needToSetPresentationTime
     setPresentationTime onPostSwap).

(** A call of an entry point that changes the statics, with its
    arguments. *)
Inductive entry : Type :=
| Init (egl_create : option EGL) (common : Common)
    (common_valid prop_disable : bool)
| DestroyInstance
| Swap (display surface : Z)
| OnChoreographer (frameTimeNanos : Z)
| SetWindow (window : Z)
| AddTracer (tracer : option SwappyVk.SwappyTracer)
| RemoveTracer (tracer : option SwappyVk.SwappyTracer)
| SetAutoSwapInterval (on : bool)
| SetAutoPipelineMode (on : bool)
| SetMaxAutoSwapDuration (maxDuration : Z)
| EnableStats (on : bool)
| RecordFrameStart (display surface : Z)
| ClearStats
| SetFenceTimeout (t : Z)
| SetBufferStuffingFixWait (n_frames : Z)
| ResetFramePacing
| EnableFramePacing (enable : bool)
| EnableBlockingWait (enable : bool).

Definition run_entry (c : entry) (p : process EGL Common Stats)
  : option (process EGL Common Stats) :=
  match c with
  | Init egl_create common common_valid prop_disable =>
      Some (init' p egl_create common common_valid prop_disable).2
  | DestroyInstance => Some (destroyInstance p)
  | Swap display surface => snd <$> swap' p display surface
  | OnChoreographer t => Some (onChoreographer p t)
  | SetWindow window => Some (setWindow p window).2
  | AddTracer tracer => Some (addTracer p tracer)
  | RemoveTracer tracer => Some (removeTracer p tracer)
  | SetAutoSwapInterval on => Some (setAutoSwapInterval p on)
  | SetAutoPipelineMode on => Some (setAutoPipelineMode p on)
  | SetMaxAutoSwapDuration d => Some (setMaxAutoSwapDuration p d)
  | EnableStats on => Some (enableStats p on)
  | RecordFrameStart display surface =>
      Some (recordFrameStart p display surface)
  | ClearStats => Some (clearStats p)
  | SetFenceTimeout t => Some (setFenceTimeout p t)
  | SetBufferStuffingFixWait n => Some (setBufferStuffingFixWait p n)
  | ResetFramePacing => Some (resetFramePacing p)
  | EnableFramePacing enable => Some (enableFramePacing p enable)
  | EnableBlockingWait enable => Some (enableBlockingWait p enable)
  end.

Fixpoint run (cs : list entry) (p : process EGL Common Stats)
  : option (process EGL Common Stats) :=
  match cs with
  | [] => Some p
  | c :: cs => p' ← run_entry c p; run cs p'
  end.

Definition is_destroyInstance (c : entry) : bool :=
  match c with
  | DestroyInstance => true
  | _ => false
  end.

(** The process at its start: no instance, and [getEgl] was not called on
    this thread. *)
Definition start : process EGL Common Stats := mkProcess None None.

(** What [swap] on the members keeps. *)
Lemma SwappyGL_swap_members (m : SwappyGL.t EGL Common) display surface r
    after :
  SwappyGL_swap (Some m) display surface = Some (r, after) →
  ∃ m', after = Some m' ∧
        SwappyGL.mEnableSwappy m' = SwappyGL.mEnableSwappy m ∧
        SwappyGL.mEgl m' = SwappyGL.mEgl m.
Proof.
  unfold SwappyGL.swap. destruct (SwappyGL.enabled m).
  - destruct (SwappyGL.swapInternal _ _ _ _ _ _ _ _) as [[r' common]|];
      simpl; [|discriminate].
    intros [= <- <-]. eauto.
  - destruct (SwappyGL.getEgl m); simpl; [|discriminate].
    intros [= <- <-]. eauto.
Qed.

Lemma swap_inv (p p' : process EGL Common Stats) (swappy : instance EGL Common Stats)
    display surface r :
  sInstance p = Some swappy →
  swap' p display surface = Some (r, p') →
  ∃ e m',
    SwappyGL.mEgl (members swappy) = Some e ∧
    (egl p = None ∨ egl p = Some e) ∧
    egl p' = Some e ∧
    SwappyGL_swap (Some (members swappy)) display surface
      = Some (r, Some m') ∧
    sInstance p' = Some (mkInstance m' (mFrameStatistics swappy)) ∧
    SwappyGL.mEnableSwappy m' = SwappyGL.mEnableSwappy (members swappy) ∧
    SwappyGL.mEgl m' = SwappyGL.mEgl (members swappy).
Proof.
  intros Es. unfold swap, getInstance, getEgl. rewrite Es.
  destruct (egl p) as [e|] eqn:Ec; simpl.
  - destruct (decide (SwappyGL.mEgl (members swappy) = Some e)) as [Em|];
      [|discriminate].
    destruct (SwappyGL_swap (Some (members swappy)) display surface)
      as [[r' after]|] eqn:E; simpl; [|discriminate].
    intros [= <- <-].
    destruct (SwappyGL_swap_members _ _ _ _ _ E) as (m' & -> & ? & ?).
    exists e, m'. simpl. rewrite Ec. eauto 10.
  - destruct (SwappyGL.mEgl (members swappy)) as [e|] eqn:Em; simpl;
      [|discriminate].
    rewrite decide_True by reflexivity.
    destruct (SwappyGL_swap (Some (members swappy)) display surface)
      as [[r' after]|] eqn:E; simpl; [|discriminate].
    intros [= <- <-].
    destruct (SwappyGL_swap_members _ _ _ _ _ E) as (m' & -> & ? & Hm').
    exists e, m'. simpl. rewrite Hm', Em. eauto 10.
Qed.

(** Every entry point but [destroyInstance] keeps an instance that
    exists, with its [mEnableSwappy] and [mEgl], and with statistics if it
    had them; the [thread_local] of [getEgl] changes only from null to
    [mEgl.get()]. *)
Lemma run_entry_instance (c : entry) (p p' : process EGL Common Stats)
    (swappy : instance EGL Common Stats) :
  is_destroyInstance c = false →
  sInstance p = Some swappy →
  run_entry c p = Some p' →
  ∃ swappy',
    sInstance p' = Some swappy' ∧
    SwappyGL.mEnableSwappy (members swappy')
      = SwappyGL.mEnableSwappy (members swappy) ∧
    SwappyGL.mEgl (members swappy') = SwappyGL.mEgl (members swappy) ∧
    (is_Some (mFrameStatistics swappy')
     ↔ is_Some (mFrameStatistics swappy)) ∧
    (egl p' = egl p
     ∨ egl p = None ∧ egl p' = SwappyGL.mEgl (members swappy)).
Proof.
  intros Hc Es E.
  destruct c; try discriminate Hc; simpl in E;
    try (injection E as <-;
         unfold init, onChoreographer, setWindow, addTracer, removeTracer,
           setAutoSwapInterval, setAutoPipelineMode, setMaxAutoSwapDuration,
           enableStats, recordFrameStart, clearStats, setFenceTimeout,
           setBufferStuffingFixWait, resetFramePacing, enableFramePacing,
           enableBlockingWait, getInstance, call_common, call_stats, enabled;
         rewrite Es;
         repeat match goal with
                | |- context [match ?x with _ => _ end] => destruct x eqn:?
                end;
         simpl; eexists; repeat split; eauto;
         try (intros [? ?]; first [congruence | eexists; reflexivity]);
         fail).
  destruct (swap' p display surface) as [[r p1]|] eqn:Esw; simpl in E;
    [|discriminate E].
  injection E as <-.
  destruct (swap_inv _ _ _ _ _ _ Es Esw)
    as (e & m' & Em & Hc' & Hc1 & _ & Hs & He & Hg).
  eexists. split; [exact Hs|]. simpl. rewrite Em.
  split; [exact He|]. split; [by rewrite Hg, Em|]. split; [tauto|].
  destruct Hc' as [Hn|Hn]; rewrite Hn; eauto.
Qed.

(** Without an instance only [init] does anything. *)
Lemma run_entry_no_instance (c : entry) (p p' : process EGL Common Stats) :
  sInstance p = None →
  run_entry c p = Some p' →
  p' = p ∨
  ∃ egl_create common common_valid prop_disable,
    p' = mkProcess
           (Some (SwappyGL statsSupported FrameStatisticsGL egl_create
                    common common_valid prop_disable))
           (egl p).
Proof.
  intros Es E. destruct p as [i cache]. simpl in Es. subst i.
  destruct c; simpl in E; injection E as <-; eauto 10.
Qed.

(** What the constructor establishes. *)
Definition built (swappy : instance EGL Common Stats) : Prop :=
  (enabled swappy = true → is_Some (SwappyGL.mEgl (members swappy))) ∧
  (is_Some (mFrameStatistics swappy) → enabled swappy = true).

Lemma SwappyGL_built egl_create common common_valid prop_disable :
  built (SwappyGL statsSupported FrameStatisticsGL egl_create common
           common_valid prop_disable).
Proof.
  unfold built, SwappyGL, enabled.
  destruct egl_create as [e|], common_valid, prop_disable; simpl;
    try destruct (statsSupported e); simpl;
    split; intros H1; try discriminate H1; eauto;
    by destruct H1 as [? H1].
Qed.

Lemma run_built (cs : list entry) (p p' : process EGL Common Stats) :
  (∀ swappy, sInstance p = Some swappy → built swappy) →
  run cs p = Some p' →
  ∀ swappy, sInstance p' = Some swappy → built swappy.
Proof.
  revert p. induction cs as [|c cs IH]; intros p Hb E; simpl in E.
  - by injection E as <-.
  - destruct (run_entry c p) as [p1|] eqn:E1; simpl in E; [|discriminate E].
    apply (IH p1); [|exact E]. clear IH E.
    intros s1 Hs1.
    destruct (sInstance p) as [s0|] eqn:Es.
    + destruct (is_destroyInstance c) eqn:Hc.
      { destruct c; try discriminate Hc.
        simpl in E1. injection E1 as <-. discriminate Hs1. }
      destruct (run_entry_instance c p p1 s0 Hc Es E1)
        as (s' & Hs' & He & Hg & Hst & _).
      rewrite Hs' in Hs1. injection Hs1 as <-.
      destruct (Hb s0 eq_refl) as [B1 B2]. unfold built, enabled in *.
      rewrite He, Hg. split; [exact B1|]. intros Hf. apply B2, Hst, Hf.
    + destruct (run_entry_no_instance c p p1 Es E1)
        as [->|(a & b & v & d & ->)].
      * rewrite Es in Hs1. discriminate Hs1.
      * simpl in Hs1. injection Hs1 as <-. apply SwappyGL_built.
Qed.

Abbreviation no_destroyInstance :=
  (Forall (λ c, is_destroyInstance c = false)).

Lemma run_instance (cs : list entry) (p p' : process EGL Common Stats)
    (swappy : instance EGL Common Stats) :
  no_destroyInstance cs →
  sInstance p = Some swappy →
  run cs p = Some p' →
  ∃ swappy',
    sInstance p' = Some swappy' ∧
    SwappyGL.mEnableSwappy (members swappy')
      = SwappyGL.mEnableSwappy (members swappy) ∧
    SwappyGL.mEgl (members swappy') = SwappyGL.mEgl (members swappy) ∧
    (egl p' = egl p
     ∨ egl p = None ∧ egl p' = SwappyGL.mEgl (members swappy)).
Proof.
  intros Hcs. revert p swappy.
  induction Hcs as [|c cs Hc _ IH]; intros p swappy Es E; simpl in E.
  - injection E as <-. eauto 10.
  - destruct (run_entry c p) as [p1|] eqn:E1; simpl in E; [|discriminate E].
    destruct (run_entry_instance c p p1 swappy Hc Es E1)
      as (s1 & Hs1 & He1 & Hg1 & _ & Hc1).
    destruct (IH p1 s1 Hs1 E) as (s2 & Hs2 & He2 & Hg2 & Hc2).
    exists s2. split; [exact Hs2|]. split; [congruence|].
    split; [congruence|].
    destruct Hc1 as [Hc1|[Hn1 Hc1]], Hc2 as [Hc2|[Hn2 Hc2]].
    + left. congruence.
    + right. split; congruence.
    + right. split; congruence.
    + right. split; congruence.
Qed.

(** X19.  Between [init] and [destroyInstance] Swappy stays as [init]
    left it.  After an [init] that made the instance, and any entry points
    but [destroyInstance] (every [swap] among them being defined),
    [isEnabled] is the result of that [init], which was [true] exactly when
    the EGL functions were loaded, [SwappyCommon] was valid and the system
    property did not disable Swappy; every further [init] returns [false]
    and changes nothing: an [init] that failed cannot be repeated. *)
Theorem isEnabled_until_destroyInstance
    (p p1 p2 : process EGL Common Stats) (egl_create : option EGL)
    (common : Common) (common_valid prop_disable r : bool)
    (cs : list entry) :
  sInstance p = None →
  init' p egl_create common common_valid prop_disable = (r, p1) →
  no_destroyInstance cs →
  run cs p1 = Some p2 →
  isEnabled p2 = r ∧
  (r = true ↔
   is_Some egl_create ∧ common_valid = true ∧ prop_disable = false) ∧
  ∀ egl_create' common' common_valid' prop_disable',
    init' p2 egl_create' common' common_valid' prop_disable' = (false, p2).
Proof.
  intros En Ei Hcs Er. unfold init in Ei. rewrite En in Ei.
  injection Ei as <- <-.
  destruct (run_instance cs
              (mkProcess
                 (Some (SwappyGL statsSupported FrameStatisticsGL egl_create
                          common common_valid prop_disable)) (egl p))
              p2 _ Hcs eq_refl Er)
    as (s2 & Hs2 & He2 & _).
  split; [|split].
  - unfold isEnabled, getInstance, enabled. by rewrite Hs2.
  - unfold SwappyGL.
    destruct egl_create as [e|], common_valid, prop_disable; simpl;
      try destruct (statsSupported e); simpl;
      split; try discriminate; try (intros (? & ? & ?); discriminate);
      try (intros ([? ?] & ? & ?); discriminate); eauto.
  - intros a c' v' d'. unfold init. by rewrite Hs2.
Qed.

(** The entry points that test [enabled()] or [mFrameStatistics]. *)
Definition guarded (c : entry) : bool :=
  match c with
  | AddTracer _ | RemoveTracer _ | SetAutoSwapInterval _
  | SetAutoPipelineMode _ | SetMaxAutoSwapDuration _ | SetFenceTimeout _
  | EnableStats _ | RecordFrameStart _ _ | ClearStats => true
  | _ => false
  end.

(** X20.  While Swappy is not enabled (no instance, or a disabled one), in
    every state that the entry points reach from the start of the process:
    the entry points that test [enabled()] and the statistics entry points
    change nothing, [getSwapDuration] is -1 ns, [getFenceTimeout] is 0 and
    [getStats] does not write [*stats]. *)
Theorem not_enabled_entry_points
    (cs : list entry) (p : process EGL Common Stats) :
  run cs start = Some p →
  isEnabled p = false →
  (∀ c, guarded c = true → run_entry c p = Some p) ∧
  getSwapDuration p = -1 ∧
  getFenceTimeout p = 0 ∧
  ∀ stats, getStats p stats = Some stats.
Proof.
  intros Er Hd.
  assert (Hb : ∀ swappy, sInstance p = Some swappy → built swappy).
  { apply (run_built cs start p); [|exact Er]. intros ? [=]. }
  unfold isEnabled, getInstance in Hd.
  destruct (sInstance p) as [swappy|] eqn:Es.
  - destruct (Hb swappy eq_refl) as [_ B2].
    assert (Hst : mFrameStatistics swappy = None).
    { destruct (mFrameStatistics swappy) as [st|]; [|reflexivity].
      rewrite B2 in Hd by eauto. discriminate Hd. }
    split; [|split; [|split]].
    + intros c Hg. destruct c; try discriminate Hg; simpl;
        unfold addTracer, removeTracer, setAutoSwapInterval,
          setAutoPipelineMode, setMaxAutoSwapDuration, setFenceTimeout,
          enableStats, recordFrameStart, clearStats, getInstance;
        rewrite Es, ?Hd, ?Hst; try reflexivity; by destruct tracer.
    + unfold getSwapDuration, getInstance. by rewrite Es, Hd.
    + unfold getFenceTimeout, getInstance. by rewrite Es, Hd.
    + intros stats. unfold getStats, getInstance. by rewrite Es, Hst.
  - split; [|split; [|split]].
    + intros c Hg. destruct c; try discriminate Hg; simpl;
        unfold addTracer, removeTracer, setAutoSwapInterval,
          setAutoPipelineMode, setMaxAutoSwapDuration, setFenceTimeout,
          enableStats, recordFrameStart, clearStats, getInstance;
        by rewrite Es.
    + unfold getSwapDuration, getInstance. by rewrite Es.
    + unfold getFenceTimeout, getInstance. by rewrite Es.
    + intros stats. unfold getStats, getInstance. by rewrite Es.
Qed.

(** The [thread_local] of [getEgl] is null or [mEgl.get()] of the
    instance. *)
Definition cache_ok (p : process EGL Common Stats) : Prop :=
  egl p = None ∨
  ∃ swappy, sInstance p = Some swappy ∧
            SwappyGL.mEgl (members swappy) = egl p.

Lemma run_cache_ok (cs : list entry) (p p' : process EGL Common Stats) :
  no_destroyInstance cs →
  cache_ok p →
  run cs p = Some p' →
  cache_ok p'.
Proof.
  intros Hcs. revert p.
  induction Hcs as [|c cs Hc _ IH]; intros p Hok E; simpl in E.
  - by injection E as <-.
  - destruct (run_entry c p) as [p1|] eqn:E1; simpl in E; [|discriminate E].
    apply (IH p1); [|exact E]. clear IH E.
    destruct (sInstance p) as [s0|] eqn:Es.
    + destruct (run_entry_instance c p p1 s0 Hc Es E1)
        as (s1 & Hs1 & _ & Hg1 & _ & Hc1).
      destruct Hc1 as [Hc1|[Hn1 Hc1]].
      * destruct Hok as [Hok|(s & Hs & Hok)].
        -- left. congruence.
        -- right. exists s1. split; [exact Hs1|].
           rewrite Es in Hs. injection Hs as <-. congruence.
      * right. exists s1. split; [exact Hs1|]. congruence.
    + destruct Hok as [Hok|(s & Hs & _)]; [|rewrite Es in Hs; discriminate Hs].
      left.
      destruct (run_entry_no_instance c p p1 Es E1)
        as [->|(a & b & v & d & ->)]; [exact Hok | exact Hok].
Qed.

(** X21.  As long as [destroyInstance] is not called, [swap] is the
    [swap] of the instance's members with [getEgl()] read as
    [mEgl.get()]: the same result, the same members afterwards, and
    undefined in the same cases.  On an enabled Swappy it is defined. *)
Theorem swap_until_destroyInstance
    (cs : list entry) (p : process EGL Common Stats)
    (display : SwappyGL.EGLDisplay) (surface : SwappyGL.EGLSurface) :
  no_destroyInstance cs →
  run cs start = Some p →
  (λ rp, (rp.1, members <$> sInstance rp.2)) <$> swap' p display surface
  = SwappyGL_swap (members <$> sInstance p) display surface ∧
  (isEnabled p = true → is_Some (swap' p display surface)).
Proof.
  intros Hcs Er.
  assert (Hok : cache_ok p).
  { apply (run_cache_ok cs start p Hcs); [by left | exact Er]. }
  assert (Hb : ∀ swappy, sInstance p = Some swappy → built swappy).
  { apply (run_built cs start p); [|exact Er]. intros ? [=]. }
  assert (Heq :
    (λ rp, (rp.1, members <$> sInstance rp.2)) <$> swap' p display surface
    = SwappyGL_swap (members <$> sInstance p) display surface).
  { unfold swap, getInstance, getEgl.
    destruct (sInstance p) as [swappy|] eqn:Es; simpl;
      [|by rewrite Es].
    assert (Hnone : SwappyGL.mEgl (members swappy) = None →
                    SwappyGL_swap (Some (members swappy)) display surface
                    = None).
    { intros Hn. unfold SwappyGL.swap, SwappyGL.swapInternal, SwappyGL.getEgl.
      rewrite Hn. by destruct (SwappyGL.enabled (members swappy)). }
    assert (Hmap : ∀ cache,
      (λ rp : bool * process EGL Common Stats,
         (rp.1, members <$> sInstance rp.2))
        <$> (SwappyGL_swap (Some (members swappy)) display surface
             ≫= λ '(r, after),
                  Some (r, mkProcess
                             ((λ m, mkInstance m (mFrameStatistics swappy))
                                <$> after) cache))
      = SwappyGL_swap (Some (members swappy)) display surface).
    { intros cache.
      destruct (SwappyGL_swap (Some (members swappy)) display surface)
        as [[r [m|]]|]; reflexivity. }
    destruct Hok as [Hc|(s & Hs & Hc)].
    - rewrite Hc. simpl.
      destruct (SwappyGL.mEgl (members swappy)) as [e|] eqn:Em; simpl.
      + rewrite decide_True by reflexivity. apply Hmap.
      + symmetry. by apply Hnone.
    - rewrite Es in Hs. injection Hs as <-. rewrite <- Hc.
      destruct (SwappyGL.mEgl (members swappy)) as [e|] eqn:Em; simpl.
      + rewrite decide_True by reflexivity. apply Hmap.
      + symmetry. by apply Hnone. }
  split; [exact Heq|].
  intros He. unfold isEnabled, getInstance in He.
  destruct (sInstance p) as [swappy|] eqn:Es; [|discriminate He].
  destruct (Hb swappy eq_refl) as [[e Em] _]; [exact He|].
  assert (Hdef : is_Some (SwappyGL_swap (Some (members swappy)) display
                            surface)).
  { unfold SwappyGL.swap, SwappyGL.swapInternal, SwappyGL.getEgl.
    unfold enabled in He. unfold SwappyGL.enabled. rewrite He, Em. simpl.
    destruct (needToSetPresentationTime _ && negb _); simpl; eauto. }
  simpl in Heq. rewrite <- Heq in Hdef.
  destruct (swap' p display surface); [eauto|].
  destruct Hdef as [? Hx]. discriminate Hx.
Qed.

(** X3.  A disabled instance whose EGL functions were loaded, with the
    [thread_local] pointer of [getEgl] in the statics.  When the pointer is
    null or points to the instance's [EGL] object, [swap] is the platform
    [swapBuffers] on that object, whatever the pacing engine would do: the
    instance is as before and the pointer is set.  When the pointer is to
    another object, [swap] calls through it and is undefined.  In every
    state that the entry points reach from the start without
    [destroyInstance], the pointer is of the first kind. *)
Theorem swap_disabled_passthrough
    (p : process EGL Common Stats) (swappy : instance EGL Common Stats)
    (e : EGL) (display : SwappyGL.EGLDisplay)
    (surface : SwappyGL.EGLSurface) :
  sInstance p = Some swappy →
  enabled swappy = false →
  SwappyGL.mEgl (members swappy) = Some e →
  (egl p = None ∨ egl p = Some e →
   swap' p display surface
   = Some (bool_decide (swapBuffers e display surface = SwappyGL.EGL_TRUE),
           mkProcess (Some swappy) (Some e))) ∧
  (∀ e', egl p = Some e' → e' ≠ e → swap' p display surface = None) ∧
  (∀ cs, no_destroyInstance cs → run cs start = Some p →
         egl p = None ∨ egl p = Some e).
Proof.
  intros Es He Em. split; [|split].
  - intros Hc.
    assert (Hm : SwappyGL_swap (Some (members swappy)) display surface
                 = Some (bool_decide (swapBuffers e display surface
                                      = SwappyGL.EGL_TRUE),
                         Some (members swappy))).
    { unfold SwappyGL.swap, SwappyGL.getEgl, SwappyGL.enabled.
      unfold enabled in He. by rewrite He, Em. }
    unfold swap, getInstance, getEgl. rewrite Es.
    destruct Hc as [Hc|Hc]; rewrite Hc; simpl; rewrite ?Em; simpl;
      rewrite decide_True by reflexivity; rewrite Hm; simpl; rewrite ?Hc;
      by destruct swappy.
  - intros e' Hc Hne. unfold swap, getInstance, getEgl. rewrite Es, Hc. simpl.
    rewrite Em. rewrite decide_False; [reflexivity|].
    intros [= Heq]. by apply Hne.
  - intros cs Hcs Er.
    destruct (run_cache_ok cs start p Hcs (or_introl eq_refl) Er)
      as [Hc|(s & Hs & Hc)]; [by left|right].
    rewrite Es in Hs. injection Hs as <-. congruence.
Qed.

(** X22.  [destroyInstance] does not reset the [thread_local] pointer of
    [getEgl]: after [init], a [swap], [destroyInstance] and a second
    [init] that loads another [EGL] object, the instance holds the new
    object but [getEgl()] still yields the pointer to the object of the
    destroyed instance, and [swap] calls through it, whether or not the
    new instance is enabled. *)
Theorem swap_after_destroyInstance_and_init
    (e1 e2 : EGL) (common1 common2 : Common)
    (common_valid1 prop_disable1 common_valid2 prop_disable2 : bool)
    (display : SwappyGL.EGLDisplay) (surface : SwappyGL.EGLSurface) :
  e1 ≠ e2 →
  ∃ r p1 swappy,
    swap' (init' start (Some e1) common1 common_valid1 prop_disable1).2
      display surface = Some (r, p1) ∧
    egl p1 = Some e1 ∧
    (init' (destroyInstance p1) (Some e2) common2 common_valid2
       prop_disable2)
    = (common_valid2 && negb prop_disable2,
       mkProcess (Some swappy) (Some e1)) ∧
    SwappyGL.mEgl (members swappy) = Some e2 ∧
    swap' (mkProcess (Some swappy) (Some e1)) display surface = None.
Proof.
  intros Hne.
  set (p0 := (init' start (Some e1) common1 common_valid1 prop_disable1).2).
  assert (Hs0 : ∃ s0, sInstance p0 = Some s0 ∧
                      SwappyGL.mEgl (members s0) = Some e1 ∧
                      egl p0 = None).
  { subst p0. unfold init, start, SwappyGL. simpl.
    destruct common_valid1, prop_disable1; simpl;
      try destruct (statsSupported e1); simpl; eauto. }
  destruct Hs0 as (s0 & Hs0 & Hg0 & Hc0).
  destruct (swap' p0 display surface) as [[r p1]|] eqn:Esw.
  2:{ exfalso. revert Esw. unfold swap, getInstance, getEgl.
      rewrite Hs0, Hc0, Hg0. simpl. rewrite decide_True by reflexivity.
      unfold SwappyGL.swap, SwappyGL.swapInternal, SwappyGL.getEgl.
      rewrite Hg0. simpl.
      destruct (SwappyGL.enabled (members s0)); simpl;
        [destruct (needToSetPresentationTime _ && negb _)|]; discriminate. }
  destruct (swap_inv p0 p1 s0 display surface r Hs0 Esw)
    as (e & m' & Em & _ & Hc1 & _).
  assert (e = e1) as -> by congruence.
  set (swappy := SwappyGL statsSupported FrameStatisticsGL (Some e2) common2
                   common_valid2 prop_disable2).
  assert (Hg2 : SwappyGL.mEgl (members swappy) = Some e2).
  { subst swappy. unfold SwappyGL.
    destruct common_valid2, prop_disable2; simpl;
      try destruct (statsSupported e2); reflexivity. }
  exists r, p1, swappy. split; [reflexivity|]. split; [exact Hc1|].
  split.
  { unfold init, destroyInstance. simpl. rewrite Hc1. f_equal.
    subst swappy. unfold SwappyGL.
    destruct common_valid2, prop_disable2; simpl;
      try destruct (statsSupported e2); reflexivity. }
  split; [exact Hg2|].
  unfold swap, getInstance, getEgl. simpl. rewrite Hg2.
  rewrite decide_False; [reflexivity|]. intros [= Heq]. by apply Hne.
Qed.

End Runs.

(** *** The theorems on a platform that counts its calls *)

(** [SwappyCommon] and the statistics are the number of calls they got;
    an [EGL] object is its address. *)
#[local] Instance counting_common : Common.ops nat := {|
  Common.onChoreographer c _ := S c;
  Common.setANativeWindow c _ := S c;
  Common.addTracerCallbacks c _ := S c;
  Common.removeTracerCallbacks c _ := S c;
  Common.getSwapDuration _ := 16666666;
  Common.setAutoSwapInterval c _ := S c;
  Common.setAutoPipelineMode c _ := S c;
  Common.setMaxAutoSwapDuration c _ := S c;
  Common.setFenceTimeout c _ := S c;
  Common.getFenceTimeout _ := 50000000;
  Common.setBufferStuffingFixWait c _ := S c;
  Common.getSupportedRefreshPeriodsNS _ out _ := (0, out);
  Common.resetFramePacing c := S c;
  Common.enableFramePacing c _ := S c;
  Common.enableBlockingWait c _ := S c;
  Common.setLastLatencyRecordedCallback c := c
|}.

#[local] Instance counting_stats : FrameStatistics.ops nat nat := {|
  FrameStatistics.enableStats st _ := S st;
  FrameStatistics.capture st _ _ := S st;
  FrameStatistics.getStats st := st;
  FrameStatistics.clearStats _ := 0%nat
|}.

Definition swap_ok (e : nat) (display : SwappyGL.EGLDisplay)
    (surface : SwappyGL.EGLSurface) : SwappyGL.EGLBoolean := SwappyGL.EGL_TRUE.
Definition count_swap (e : nat) (display : SwappyGL.EGLDisplay) (c : nat)
  : nat := S c.
Definition no_time (c : nat) : bool := false.
Definition time_ok (e : nat) (c : nat) (display : SwappyGL.EGLDisplay)
    (surface : SwappyGL.EGLSurface) : bool := true.
Definition with_stats (e : nat) : bool := true.
Definition new_stats (e : nat) (c : nat) : nat := 0%nat.

Definition run_counting :
    list (@entry nat nat) → process nat nat nat →
    option (process nat nat nat) :=
  run swap_ok count_swap no_time time_ok count_swap with_stats new_stats.

Definition swap_counting :
    process nat nat nat → SwappyGL.EGLDisplay → SwappyGL.EGLSurface →
    option (bool * process nat nat nat) :=
  swap swap_ok count_swap no_time time_ok count_swap.

Definition init_counting :
    process nat nat nat → option nat → nat → bool → bool →
    bool * process nat nat nat :=
  init with_stats new_stats.

(** A platform whose [swapBuffers] succeeds on surface 1 only. *)
Definition swap_surface_1 (e : nat) (display : SwappyGL.EGLDisplay)
    (surface : SwappyGL.EGLSurface) : SwappyGL.EGLBoolean :=
  if bool_decide (surface = 1) then SwappyGL.EGL_TRUE else SwappyGL.EGL_FALSE.

Definition swap_on_surface_1 :
    process nat nat nat → SwappyGL.EGLDisplay → SwappyGL.EGLSurface →
    option (bool * process nat nat nat) :=
  swap swap_surface_1 count_swap no_time time_ok count_swap.

(** The instance that [init] makes when the system property disables
    Swappy, with the [EGL] object 1. *)
Definition disabled_by_property : instance nat nat nat :=
  SwappyGL with_stats new_stats (Some 1%nat) 0%nat true true.

(** The theorem at that instance, for the first [swap] of the thread and
    for a later one: the result is that of [swapBuffers], and the pacing
    engine has counted no call. *)
Lemma swap_disabled_passthrough_witness :
  (init_counting start (Some 1%nat) 0%nat true true).2
    = mkProcess (Some disabled_by_property) None ∧
  swap_on_surface_1 (mkProcess (Some disabled_by_property) None) 0 1
    = Some (true, mkProcess (Some disabled_by_property) (Some 1%nat)) ∧
  swap_on_surface_1 (mkProcess (Some disabled_by_property) (Some 1%nat)) 0 2
    = Some (false, mkProcess (Some disabled_by_property) (Some 1%nat)) ∧
  SwappyGL.mCommonBase (members disabled_by_property) = 0%nat ∧
  swap_on_surface_1 (mkProcess (Some disabled_by_property) (Some 2%nat)) 0 1
    = None.
Proof.
  split; [reflexivity|]. split; [|split; [|split; [reflexivity|]]].
  - exact (proj1 (swap_disabled_passthrough swap_surface_1 count_swap no_time
                    time_ok count_swap with_stats new_stats
                    (mkProcess (Some disabled_by_property) None)
                    disabled_by_property 1%nat 0 1 eq_refl eq_refl eq_refl)
             (or_introl eq_refl)).
  - exact (proj1 (swap_disabled_passthrough swap_surface_1 count_swap no_time
                    time_ok count_swap with_stats new_stats
                    (mkProcess (Some disabled_by_property) (Some 1%nat))
                    disabled_by_property 1%nat 0 2 eq_refl eq_refl eq_refl)
             (or_intror eq_refl)).
  - refine (proj1 (proj2 (swap_disabled_passthrough swap_surface_1 count_swap
                    no_time time_ok count_swap with_stats new_stats
                    (mkProcess (Some disabled_by_property) (Some 2%nat))
                    disabled_by_property 1%nat 0 1 eq_refl eq_refl eq_refl))
             2%nat eq_refl _).
    discriminate.
Defined.

Lemma isEnabled_until_destroyInstance_witness :
  ∃ p2,
    run_counting [Swap 0 0; SetWindow 5; EnableStats true]
      (init_counting start (Some 1%nat) 0%nat true false).2 = Some p2 ∧
    isEnabled p2 = true.
Proof.
  eexists. split; [reflexivity|].
  refine (proj1 (isEnabled_until_destroyInstance swap_ok count_swap no_time
                   time_ok count_swap with_stats new_stats start _ _
                   (Some 1%nat) 0%nat true false true
                   [Swap 0 0; SetWindow 5; EnableStats true]
                   eq_refl eq_refl _ eq_refl)).
  repeat constructor.
Defined.

Lemma not_enabled_entry_points_witness :
  ∃ p,
    run_counting [Init None 0%nat true false; SetWindow 5] start = Some p ∧
    run_counting [SetAutoSwapInterval true] p = Some p ∧
    run_counting [EnableStats true] p = Some p ∧
    getSwapDuration p = -1.
Proof.
  exists (setWindow (init_counting start None 0%nat true false).2 5).2.
  split; [reflexivity|].
  destruct (not_enabled_entry_points swap_ok count_swap no_time time_ok
              count_swap with_stats new_stats
              [Init None 0%nat true false; SetWindow 5]
              (setWindow (init_counting start None 0%nat true false).2 5).2
              eq_refl eq_refl)
    as (Hg & Hd & _).
  split; [|split; [|exact Hd]].
  - change (run_counting [SetAutoSwapInterval true] ?p)
      with (run_entry swap_ok count_swap no_time time_ok count_swap
              with_stats new_stats (SetAutoSwapInterval true) p
            ≫= λ p', Some p').
    by rewrite (Hg (SetAutoSwapInterval true) eq_refl).
  - change (run_counting [EnableStats true] ?p)
      with (run_entry swap_ok count_swap no_time time_ok count_swap
              with_stats new_stats (EnableStats true) p
            ≫= λ p', Some p').
    by rewrite (Hg (EnableStats true) eq_refl).
Defined.

Lemma swap_until_destroyInstance_witness :
  ∃ p,
    run_counting [Init (Some 1%nat) 0%nat true false; Swap 0 0] start
      = Some p ∧
    is_Some (swap_counting p 0 0).
Proof.
  eexists. split; [reflexivity|].
  refine (proj2 (swap_until_destroyInstance swap_ok count_swap no_time
                   time_ok count_swap with_stats new_stats
                   [Init (Some 1%nat) 0%nat true false; Swap 0 0] _ 0 0
                   _ eq_refl) eq_refl).
  repeat constructor.
Defined.

Lemma swap_after_destroyInstance_and_init_witness :
  ∃ r p1 p2,
    swap_counting (init_counting start (Some 1%nat) 0%nat true false).2 0 0
      = Some (r, p1) ∧
    init_counting (destroyInstance p1) (Some 2%nat) 0%nat true false
      = (true, p2) ∧
    swap_counting p2 0 0 = None.
Proof.
  destruct (swap_after_destroyInstance_and_init swap_ok count_swap no_time
              time_ok count_swap with_stats new_stats 1%nat 2%nat 0%nat 0%nat
              true false true false 0 0)
    as (r & p1 & swappy & E1 & _ & E2 & _ & E3); [discriminate|].
  exists r, p1, (mkProcess (Some swappy) (Some 1%nat)).
  split; [exact E1|]. split; [exact E2 | exact E3].
Defined.

End SwappyGLMore.

(** ** Settings and sessions *)

Module SettingsMore.

Import Settings.

Lemma u64_range z : 0 <= u64 z < 2 ^ 64.
Proof. unfold u64. apply Z.mod_pos_bound. lia. Qed.

Lemma combinations_loop_range (sizes : list Z) (n : Z) :
  1 <= n < 2 ^ 64 → 1 <= combinations_loop sizes n <= UINT64_MAX.
Proof.
  revert n. induction sizes as [|x sizes IH]; intros n Hn; simpl.
  - unfold UINT64_MAX. lia.
  - pose proof (u64_range (n * x)).
    destruct (Z.ltb_spec (u64 (n * x)) n).
    + unfold UINT64_MAX. lia.
    + apply IH. lia.
Qed.

Lemma combinations_loop_zero (sizes : list Z) (n : Z) :
  1 <= n < 2 ^ 64 → 0 ∈ sizes → combinations_loop sizes n = UINT64_MAX.
Proof.
  revert n. induction sizes as [|x sizes IH]; intros n Hn Hin.
  - by apply elem_of_nil in Hin.
  - simpl. pose proof (u64_range (n * x)).
    destruct (Z.ltb_spec (u64 (n * x)) n); [reflexivity|].
    apply elem_of_cons in Hin as [<-|Hin].
    + rewrite Z.mul_0_r in *. unfold u64 in *. rewrite Z.mod_0_l in * by lia.
      lia.
    + apply IH; [lia | exact Hin].
Qed.

(** The product of the sizes. *)
Definition product (sizes : list Z) : Z := foldr Z.mul 1 sizes.

Lemma product_pos (sizes : list Z) :
  Forall (λ x, 1 <= x) sizes → 1 <= product sizes.
Proof.
  induction 1 as [|x sizes Hx _ IH]; simpl; [lia | nia].
Qed.

Lemma combinations_loop_exact (sizes : list Z) (n : Z) :
  1 <= n →
  Forall (λ x, 1 <= x) sizes →
  n * product sizes < 2 ^ 64 →
  combinations_loop sizes n = n * product sizes.
Proof.
  intros Hn Hs. revert n Hn.
  induction Hs as [|x sizes Hx Hs IH]; intros n Hn Hp; simpl in *.
  - lia.
  - pose proof (product_pos sizes Hs) as Hpos.
    assert (Hnx : n * x < 2 ^ 64) by nia.
    unfold u64. rewrite Z.mod_small by nia.
    destruct (Z.ltb_spec (n * x) n); [nia|].
    rewrite IH by nia. lia.
Qed.

(** X25.  [NumAnnotationCombinations]: the result is at least 1 and at
    most [UINT64_MAX]; it is [UINT64_MAX] when some size is 0; it is the
    product of the sizes when every size is at least 1 and the product is
    below 2^64. *)
Theorem NumAnnotationCombinations_spec (s : t) :
  let sizes := annotation_enum_size (aggregation_strategy s) in
  1 <= NumAnnotationCombinations s <= UINT64_MAX ∧
  (0 ∈ sizes → NumAnnotationCombinations s = UINT64_MAX) ∧
  (Forall (λ x, 1 <= x) sizes → product sizes < 2 ^ 64 →
   NumAnnotationCombinations s = product sizes).
Proof.
  intros sizes. unfold NumAnnotationCombinations. fold sizes.
  split; [apply combinations_loop_range; lia|]. split.
  - apply combinations_loop_zero. lia.
  - intros Hs Hp. rewrite combinations_loop_exact by (lia || assumption).
    lia.
Qed.

(** The overflow test [n < m] misses a product that wraps to a value
    that is not below [m]: 2^31 * 2^31 * 5 is 2^64 + 2^62. *)
Remark NumAnnotationCombinations_wraps :
  combinations_loop [2 ^ 31; 2 ^ 31; 5] 1 = 2 ^ 62 ∧
  product [2 ^ 31; 2 ^ 31; 5] = 2 ^ 64 + 2 ^ 62.
Proof. split; reflexivity. Qed.

Lemma back_app_slash (str : string) : back (str +:+ "/") = Some "/"%char.
Proof.
  induction str as [|c str IH]; [reflexivity|].
  change (String c str +:+ "/") with (String c (str +:+ "/")).
  simpl. rewrite IH. by destruct (str +:+ "/") eqn:E; [destruct str|].
Qed.

Lemma back_nonempty (str : string) : str ≠ EmptyString → is_Some (back str).
Proof.
  induction str as [|c str IH]; [congruence|]. intros _. simpl.
  destruct str; [eauto|]. apply IH. discriminate.
Qed.

Lemma app_slash_nonempty (str : string) : str +:+ "/" ≠ EmptyString.
Proof. by destruct str. Qed.

Section Check.
Variable NDEBUG : bool.
Variable DefaultTuningForkSaveDirectory : string.

Abbreviation Check' := (Check NDEBUG DefaultTuningForkSaveDirectory).

(** What [Check] guarantees. *)
Record checked (s : t) : Prop := mk_checked {
  checked_cache : is_Some (persistent_cache s);
  checked_uri : back (base_uri s) = Some "/"%char;
  checked_interval : intervalms_or_count (aggregation_strategy s) ≠ 0;
  checked_initial : initial_request_timeout_ms s ≠ 0;
  checked_ultimate : ultimate_request_timeout_ms s ≠ 0;
  checked_loading : loading_time (max_num_metrics s) ≠ 0;
  checked_memory : memory (max_num_metrics s) ≠ 0;
  checked_battery : battery (max_num_metrics s) ≠ 0;
  checked_thermal : thermal (max_num_metrics s) ≠ 0
}.

Ltac zero_cases :=
  repeat match goal with
         | |- context [?x =? 0] => destruct (Z.eqb_spec x 0)
         end.

(** X26.  [Settings::Check] is defined for all settings ([back] is not
    called on an empty string).  Afterwards there is a persister, the URI
    ends in a slash, and the upload interval, both timeouts and the limits
    for loading time, memory, battery and thermal are not 0; a limit for
    frame time that was 0 is the smaller of 64 and the number of annotation
    combinations, times [max_instrumentation_keys], as a [uint32_t].  A
    second [Check], with any save directory, changes nothing. *)
Theorem Check_spec (s : t) (save_dir sFileCache_dir : string) :
  ∃ s' dir',
    Check' s save_dir sFileCache_dir = Some (s', dir') ∧
    checked s' ∧
    (frame_time (max_num_metrics s) = 0 →
     frame_time (max_num_metrics s')
     = Cxx.u32 (Z.min 64 (NumAnnotationCombinations s)
                * max_instrumentation_keys (aggregation_strategy s))) ∧
    (frame_time (max_num_metrics s) ≠ 0 →
     frame_time (max_num_metrics s') = frame_time (max_num_metrics s)) ∧
    ∀ save_dir', Check' s' save_dir' dir' = Some (s', dir').
Proof.
  unfold Check.
  set (uri := if decide (base_uri s = EmptyString)
              then kPerformanceParametersBaseUri else base_uri s).
  assert (Huri : uri ≠ EmptyString).
  { subst uri. destruct (decide (base_uri s = EmptyString)); [discriminate|].
    assumption. }
  destruct (back_nonempty uri Huri) as [last Elast].
  set (uri' := if Ascii.eqb last "/" then uri else uri +:+ "/").
  assert (Hback : back uri' = Some "/"%char).
  { subst uri'. destruct (Ascii.eqb_spec last "/") as [->|_];
      [exact Elast | apply back_app_slash]. }
  assert (Huri' : uri' ≠ EmptyString).
  { intros E. rewrite E in Hback. discriminate Hback. }
  destruct (CheckPersister DefaultTuningForkSaveDirectory
              (persistent_cache s) save_dir sFileCache_dir)
    as [persister dir'] eqn:Ep.
  assert (Hp : is_Some persister).
  { unfold CheckPersister in Ep.
    destruct (persistent_cache s); injection Ep as <- <-; eauto. }
  rewrite Elast. simpl. fold uri'.
  eexists _, dir'. split; [reflexivity|].
  split; [|split; [|split]].
  - split; simpl; try assumption; zero_cases; simpl; try assumption;
      try discriminate; by destruct NDEBUG.
  - simpl. intros ->. simpl. unfold NumAnnotationCombinations. simpl.
    by zero_cases.
  - simpl. intros Hf. by destruct (Z.eqb_spec (frame_time (max_num_metrics s)) 0).
  - intros save_dir'. destruct Hp as [c ->]. simpl.
    rewrite decide_False by exact Huri'. rewrite Hback. simpl.
    f_equal. f_equal.
    destruct s as [pc [ft lt me ba th] [mt iv mk ae] bu it ut]. simpl in *.
    unfold NumAnnotationCombinations. simpl.
    f_equal.
    + f_equal; zero_cases; simpl; zero_cases; try reflexivity;
        try congruence; try (by destruct NDEBUG).
    + zero_cases; simpl; zero_cases; try reflexivity; try congruence;
        by destruct NDEBUG.
    + zero_cases; congruence.
    + zero_cases; congruence.
Qed.

End Check.

End SettingsMore.

Module SessionMore.

Import Session.

Section Metrics.
Context {MetricData MetricType : Type}.
Context `{!EqDecision MetricType}.
Variable type : MetricData → MetricType.
Variable Empty : MetricData → bool.

Abbreviation GetData' := (GetData type).
Abbreviation GetNonEmptyHistograms' := (GetNonEmptyHistograms type Empty).

(** The loop of [GetNonEmptyHistograms] over [m]. *)
Lemma histograms_loop (T : MetricType) (m : gmap MetricId (option MetricData)) :
  match
    map_fold
      (λ id (p : option MetricData) (ret : option (list (MetricId * MetricData))),
         ret ← ret;
         d ← p;
         Some (if negb (Empty d)
               then if decide (type d = T) then ret ++ [(id, d)] else ret
               else ret))
      (Some []) m
  with
  | Some ret =>
      map_Forall (λ _ p, is_Some p) m ∧
      NoDup ret.*1 ∧
      ∀ id d, (id, d) ∈ ret
              ↔ m !! id = Some (Some d) ∧ Empty d = false ∧ type d = T
  | None => ¬ map_Forall (λ _ p, is_Some p) m
  end.
Proof.
  pose proof (map_fold_weak_ind
    (λ (r : option (list (MetricId * MetricData)))
       (m : gmap MetricId (option MetricData)),
       match r with
       | Some ret =>
           map_Forall (λ _ p, is_Some p) m ∧
           NoDup ret.*1 ∧
           ∀ id d, (id, d) ∈ ret
                   ↔ m !! id = Some (Some d) ∧ Empty d = false ∧ type d = T
       | None => ¬ map_Forall (λ _ p, is_Some p) m
       end)) as Hind.
  apply Hind; clear Hind.
  - split; [apply map_Forall_empty|]. split; [constructor|].
    intros id d. rewrite lookup_empty. split.
    + intros Hin. by apply elem_of_nil in Hin.
    + intros [Hx _]. discriminate Hx.
  - intros i x m1 r Hi IH. destruct r as [ret|]; simpl.
    + destruct IH as (Hall & Hnd & IH). destruct x as [d0|]; simpl.
      * assert (Hfresh : i ∉ ret.*1).
        { intros Hin. apply list_elem_of_fmap in Hin as ([i' d'] & -> & Hin).
          apply IH in Hin as [Hl _]. simpl in Hi. rewrite Hi in Hl.
          discriminate Hl. }
        assert (Hkeep : ∀ id d,
                  (id, d) ∈ ret
                  ↔ (<[i := Some d0]> m1 !! id = Some (Some d)
                     ∧ Empty d = false ∧ type d = T) ∧ id ≠ i).
        { intros id d. rewrite IH. split.
          - intros (Hl & He & Ht).
            assert (id ≠ i) by (intros ->; rewrite Hi in Hl; discriminate Hl).
            by rewrite lookup_insert_ne.
          - intros [(Hl & He & Ht) Hne].
            by rewrite lookup_insert_ne in Hl. }
        assert (Hskip : (Empty d0 = false ∧ type d0 = T → False) →
                  ∀ id d,
                    (id, d) ∈ ret
                    ↔ <[i := Some d0]> m1 !! id = Some (Some d)
                      ∧ Empty d = false ∧ type d = T).
        { intros Hno id d. rewrite Hkeep. split; [tauto|].
          intros (Hl & He & Ht). split; [tauto|]. intros ->.
          rewrite lookup_insert_eq in Hl. injection Hl as ->. tauto. }
        split.
        { apply map_Forall_insert; [exact Hi | split; eauto]. }
        destruct (Empty d0) eqn:Ee; simpl.
        { split; [exact Hnd|]. apply Hskip. intros [? _]. discriminate. }
        destruct (decide (type d0 = T)) as [Et|Et].
        2:{ split; [exact Hnd|]. apply Hskip. tauto. }
        split.
        { rewrite fmap_app. simpl. apply NoDup_app. split; [exact Hnd|].
          split; [|apply NoDup_singleton].
          intros id Hin Hin'. apply list_elem_of_singleton in Hin' as ->.
          contradiction. }
        intros id d. rewrite elem_of_app, list_elem_of_singleton, Hkeep.
        split.
        -- intros [[H1 _]|[= -> ->]]; [exact H1|].
           by rewrite lookup_insert_eq.
        -- intros (Hl & He & Ht'). destruct (decide (id = i)) as [->|Hne].
           ++ right. rewrite lookup_insert_eq in Hl. by injection Hl as ->.
           ++ left. tauto.
      * intros Hins. apply map_Forall_insert in Hins; [|exact Hi].
        destruct Hins as [[? Hx] _]. discriminate Hx.
    + intros Hins. apply map_Forall_insert in Hins; [|exact Hi].
      destruct Hins as [_ Hins]. by apply IH.
Qed.

(** X27.  [GetNonEmptyHistograms<T>] and [GetData<T>] agree: the call is
    defined exactly when no entry of [metric_data_] is null; the result
    holds every id at most once, and holds the pair of an id and a datum
    exactly when [GetData<T>] yields that datum for the id and the datum
    is not empty. *)
Theorem GetNonEmptyHistograms_spec (T : MetricType) (s : t MetricData) :
  (is_Some (GetNonEmptyHistograms' T s)
   ↔ map_Forall (λ _ p, is_Some p) (metric_data_ s)) ∧
  ∀ ret, GetNonEmptyHistograms' T s = Some ret →
    NoDup ret.*1 ∧
    ∀ id d, (id, d) ∈ ret
            ↔ GetData' T s id = Some (Some d) ∧ Empty d = false.
Proof.
  pose proof (histograms_loop T (metric_data_ s)) as L.
  unfold GetNonEmptyHistograms.
  destruct (map_fold _ _ _) as [ret0|]; simpl.
  - destruct L as (Hall & Hnd & L). split; [split; eauto|].
    intros ret [= <-]. split; [exact Hnd|].
    intros id d. rewrite L. unfold GetData.
    destruct (metric_data_ s !! id) as [[d'|]|] eqn:El; simpl.
    + destruct (decide (type d' = T)) as [Et|Et]; split.
      * intros ([= ->] & He & _). tauto.
      * intros ([= ->] & He). tauto.
      * intros ([= ->] & _ & Ht). contradiction.
      * intros ([=] & _).
    + split; [intros ([=] & _) | intros ([=] & _)].
    + split; [intros ([=] & _) | intros ([=] & _)].
  - split; [|intros ret [=]].
    split; [intros [? [=]] | intros Hall; contradiction].
Qed.

(** The instrumentation keys read back as they were set; an index past
    the end reads as 0. *)
Lemma GetInstrumentationKey_SetInstrumentationKeys
    (s : t MetricData) (ikeys : list Z) (index : Z) :
  0 <= index →
  GetInstrumentationKey (SetInstrumentationKeys s ikeys) index
  = default 0 (ikeys !! Z.to_nat index).
Proof.
  intros Hi. unfold GetInstrumentationKey, SetInstrumentationKeys. simpl.
  destruct (Z.ltb_spec index (Z.of_nat (length ikeys))); [reflexivity|].
  by rewrite lookup_ge_None_2 by lia.
Qed.

End Metrics.

End SessionMore.
